(** * The agent conversation store (frontend/src/lib/agent-store.ts)

    A shallow embedding of the streaming-to-state reducer: the path
    resolver, the item merge policy, the section projector, the
    step-template heuristic, the event processor and the two reducer
    entry points, followed by the properties proved about them.

    Conventions of the embedding.
    - A JavaScript string is a Rocq [string] holding its UTF-8
      encoding; a surrogate that stands alone is spelled by the three
      bytes of its code unit.  The regular-expression matcher decodes
      a string to code points before comparing characters.
    - A value that arrives in an event or comes out of JSON.parse is a
      [json]; it is a string only where the code has made sure of it.
    - A JavaScript object whose property order can be observed (a
      payload, a value produced by JSON.parse, [thread.tasks], which
      Object.values enumerates) is an association list in property
      order.  The store, [conversation.threads] and
      [conversation.sections] are indexed by key, or visited in an order
      that does not show in the result, so they are finite maps.
    - A function that can throw returns a [result]; a
      [try { ... } catch { ... }] block is such a computation closed
      by [try_catch].
    - A plain object used as a map is read with [o[k]], which also
      finds what Object.prototype defines; [inherited] tells which
      names those are.
    - The mutable draft handed out by mutative's [create] is threaded
      through as a value; a reference into the draft is the path that
      leads to it. *)

From Stdlib Require Import ZArith NArith Ascii String Floats Uint63.
From stdpp Require Import base option list gmap strings.

Local Open Scope string_scope.
Local Open Scope list_scope.

(* ===================================================================== *)
(** ** Exceptions *)

Inductive JsError := SyntaxError | TypeError.

Inductive result (A : Type) :=
| Ok (a : A)
| Throw (e : JsError).
Arguments Ok {A} a.
Arguments Throw {A} e.

Definition rbind {A B} (c : result A) (k : A -> result B) : result B :=
  match c with
  | Ok a => k a
  | Throw e => Throw e
  end.

#[global] Instance result_ret : MRet result := fun A a => Ok a.
#[global] Instance result_bind : MBind result := fun A B k c => rbind c k.

(** [try { body } catch { handler }] *)
Definition try_catch {A} (body : result A) (handler : A) : A :=
  match body with
  | Ok a => a
  | Throw _ => handler
  end.

(* ===================================================================== *)
(** ** JavaScript objects with observable property order *)

Definition jsobj (V : Type) := list (string * V).

Definition is_digit (c : ascii) : bool :=
  let n := nat_of_ascii c in (48 <=? n)%nat && (n <=? 57)%nat.

Fixpoint digits_value (acc : N) (s : string) : option N :=
  match s with
  | EmptyString => Some acc
  | String c s' =>
      if is_digit c
      then digits_value (10 * acc + N.of_nat (nat_of_ascii c - 48)) s'
      else None
  end.

(** The key is an array index: a canonical decimal numeral below 2^32 - 1.
    Such keys are enumerated first, in ascending order, whatever the
    insertion order. *)
Definition array_index (k : string) : option N :=
  match k with
  | EmptyString => None
  | String c rest =>
      if (Ascii.eqb c "0" && negb (String.eqb rest ""))%bool then None
      else if (10 <? String.length k)%nat then None
      else match digits_value 0 k with
           | Some n => if (n <? 4294967295)%N then Some n else None
           | None => None
           end
  end.

Fixpoint obj_get {V} (k : string) (o : jsobj V) : option V :=
  match o with
  | [] => None
  | (k', v) :: o' => if decide (k = k') then Some v else obj_get k o'
  end.

Definition obj_has {V} (k : string) (o : jsobj V) : bool :=
  match obj_get k o with Some _ => true | None => false end.

(** Assignment to an existing property keeps its place. *)
Fixpoint obj_replace {V} (k : string) (v : V) (o : jsobj V) : jsobj V :=
  match o with
  | [] => []
  | (k', v') :: o' =>
      if decide (k = k') then (k', v) :: o'
      else (k', v') :: obj_replace k v o'
  end.

(** A new array-index key goes before the first key that is not an array
    index or is a larger one. *)
Fixpoint obj_insert_index {V} (n : N) (k : string) (v : V) (o : jsobj V)
  : jsobj V :=
  match o with
  | [] => [(k, v)]
  | (k', v') :: o' =>
      match array_index k' with
      | Some n' =>
          if (n <? n')%N then (k, v) :: o
          else (k', v') :: obj_insert_index n k v o'
      | None => (k, v) :: o
      end
  end.

(** [o[k] = v] *)
Definition obj_set {V} (k : string) (v : V) (o : jsobj V) : jsobj V :=
  if obj_has k o then obj_replace k v o
  else match array_index k with
       | Some n => obj_insert_index n k v o
       | None => o ++ [(k, v)]
       end.

(** [Object.values(o)] *)
Definition obj_values {V} (o : jsobj V) : list V := map snd o.

(** Apply [f] to the value stored under [k] (a mutation through a
    reference obtained by [o[k]]). *)
Fixpoint obj_alter {V} (f : V -> V) (k : string) (o : jsobj V) : jsobj V :=
  match o with
  | [] => []
  | (k', v) :: o' =>
      if decide (k = k') then (k', f v) :: o'
      else (k', v) :: obj_alter f k o'
  end.

(** The names Object.prototype defines.  On a plain object, [o[k]] and
    [o[k] ??= v] find them when [o] has no property [k] of its own;
    what they find is a function, or Object.prototype itself for
    [__proto__], and has none of the properties this program reads. *)
Definition OBJECT_PROTOTYPE_KEYS : list string :=
  [ "constructor"; "__defineGetter__"; "__defineSetter__";
    "hasOwnProperty"; "__lookupGetter__"; "__lookupSetter__";
    "isPrototypeOf"; "propertyIsEnumerable"; "toString"; "valueOf";
    "__proto__"; "toLocaleString" ].

Definition inherited (k : string) : bool :=
  bool_decide (k ∈ OBJECT_PROTOTYPE_KEYS).

(* ===================================================================== *)
(** ** JavaScript values as produced by JSON.parse *)

#[warnings="-register-all"]
Inductive json :=
| JNull
| JBool (b : bool)
| JNum (n : float)
| JStr (s : string)
| JArr (l : list json)
| JObj (o : list (string * json)).

Definition jobj := jsobj json.

(** The JavaScript built-ins the program calls.  JSON.parse throws a
    SyntaxError on malformed text. *)
Class JsRuntime := {
  JSON_parse : string -> result json;
  JSON_stringify : json -> string;
  Number_toString : float -> string;
}.

(** [v.k] for the property names this program reads ([tool_name],
    [step_label], [content], [isComplete]): reading a property of [null]
    throws a TypeError; strings, numbers, booleans and arrays have no
    such property; [None] is [undefined]. *)
Definition js_prop (v : json) (k : string) : result (option json) :=
  match v with
  | JNull => Throw TypeError
  | JObj o => Ok (obj_get k o)
  | _ => Ok None
  end.

(** [x ?? d] *)
Definition nullish (x : option json) (d : json) : json :=
  match x with
  | None | Some JNull => d
  | Some v => v
  end.

Definition is_nan (n : float) : bool := negb (PrimFloat.eqb n n).

(** ToBoolean *)
Definition js_truthy (x : option json) : bool :=
  match x with
  | None | Some JNull => false
  | Some (JBool b) => b
  | Some (JNum n) => negb (PrimFloat.eqb n 0%float || is_nan n)
  | Some (JStr s) => negb (String.eqb s "")
  | Some (JArr _) | Some (JObj _) => true
  end.

(** [x === s] for a string literal [s] *)
Definition js_is_string (x : option json) (s : string) : bool :=
  match x with
  | Some (JStr s') => bool_decide (s' = s)
  | _ => false
  end.

(** [l.includes(x)] on an array of string literals *)
Definition js_includes (l : list string) (x : json) : bool :=
  match x with
  | JStr s => bool_decide (s ∈ l)
  | _ => false
  end.

Fixpoint join_with (sep : string) (l : list string) : string :=
  match l with
  | [] => ""
  | [s] => s
  | s :: l' => s +:+ sep +:+ join_with sep l'
  end.

Section JsValues.
Context `{JsRuntime}.

(** ToString.  An element [null] of an array gives the empty string.
    A plain object converts through Object.prototype's [toString]
    unless it has a [toString] property of its own: in a value that
    came out of JSON that property is no function, [valueOf] returns
    no primitive, and the conversion throws a TypeError. *)
Fixpoint js_to_string (v : json) : result string :=
  match v with
  | JNull => Ok "null"
  | JBool true => Ok "true"
  | JBool false => Ok "false"
  | JNum n => Ok (Number_toString n)
  | JStr s => Ok s
  | JArr l =>
      strings ←
        (fix elems (l : list json) : result (list string) :=
           match l with
           | [] => Ok []
           | JNull :: l' => rest ← elems l'; Ok ("" :: rest)
           | x :: l' =>
               s ← js_to_string x; rest ← elems l'; Ok (s :: rest)
           end) l;
      Ok (join_with "," strings)
  | JObj o =>
      if obj_has "toString" o then Throw TypeError
      else Ok "[object Object]"
  end.

(** ToPrimitive: arrays and plain objects convert through toString. *)
Definition to_primitive (v : json) : result json :=
  match v with
  | JArr _ | JObj _ => s ← js_to_string v; Ok (JStr s)
  | _ => Ok v
  end.

(** ToNumber on the primitives that are not strings *)
Definition to_number (v : json) : float :=
  match v with
  | JNull => 0%float
  | JBool true => 1%float
  | JBool false => 0%float
  | JNum n => n
  | _ => nan
  end.

(** [a + b] *)
Definition js_add (a b : json) : result json :=
  pa ← to_primitive a;
  pb ← to_primitive b;
  match pa, pb with
  | JStr _, _ | _, JStr _ =>
      sa ← js_to_string pa; sb ← js_to_string pb; Ok (JStr (sa +:+ sb))
  | _, _ => Ok (JNum (to_number pa + to_number pb)%float)
  end.

(** [JSON.parse(x)]: the argument is converted to a string first. *)
Definition json_parse (x : json) : result json :=
  s ← js_to_string x; JSON_parse s.
End JsValues.

(* ===================================================================== *)
(** ** Text: code points, white space and regular expressions *)

(** A decoded text: each code point with the bytes that spell it. *)
Definition text := list (N * string).

Definition is_cont_byte (c : ascii) : bool :=
  let b := N_of_ascii c in ((128 <=? b) && (b <? 192))%N.

Definition cont_bits (c : ascii) : N := N_of_ascii c - 128.

(** The first code point of [String c0 s1]: its value, its bytes and what
    follows.  A byte that starts no well-formed sequence stands alone. *)
Definition utf8_head (c0 : ascii) (s1 : string) : N * string * string :=
  let b0 := N_of_ascii c0 in
  let bad := (65533%N, String c0 "", s1) in
  if (b0 <? 128)%N then (b0, String c0 "", s1)
  else if ((192 <=? b0) && (b0 <? 224))%N then
    match s1 with
    | String c1 s2 =>
        if is_cont_byte c1
        then ((b0 - 192) * 64 + cont_bits c1, String c0 (String c1 ""), s2)%N
        else bad
    | _ => bad
    end
  else if ((224 <=? b0) && (b0 <? 240))%N then
    match s1 with
    | String c1 (String c2 s3) =>
        if is_cont_byte c1 && is_cont_byte c2
        then (((b0 - 224) * 64 + cont_bits c1) * 64 + cont_bits c2,
              String c0 (String c1 (String c2 "")), s3)%N
        else bad
    | _ => bad
    end
  else if ((240 <=? b0) && (b0 <? 248))%N then
    match s1 with
    | String c1 (String c2 (String c3 s4)) =>
        if is_cont_byte c1 && is_cont_byte c2 && is_cont_byte c3
        then ((((b0 - 240) * 64 + cont_bits c1) * 64 + cont_bits c2) * 64
                + cont_bits c3,
              String c0 (String c1 (String c2 (String c3 ""))), s4)%N
        else bad
    | _ => bad
    end
  else bad.

Fixpoint utf8_decode_go (fuel : nat) (s : string) : text :=
  match fuel, s with
  | O, _ | _, EmptyString => []
  | S fuel', String c0 s1 =>
      let '(cp, bytes, rest) := utf8_head c0 s1 in
      (cp, bytes) :: utf8_decode_go fuel' rest
  end.

Definition utf8_decode (s : string) : text :=
  utf8_decode_go (String.length s) s.

Definition text_string (t : text) : string :=
  fold_right (fun cp acc => snd cp +:+ acc) "" t.

Definition in_range (lo hi c : N) : bool := ((lo <=? c) && (c <=? hi))%N.

(** [\s], which is also what [String.prototype.trim] strips: WhiteSpace
    and LineTerminator. *)
Definition is_space (c : N) : bool :=
  in_range 9 13 c || (c =? 32)%N || (c =? 160)%N || (c =? 5760)%N
  || in_range 8192 8202 c || (c =? 8232)%N || (c =? 8233)%N
  || (c =? 8239)%N || (c =? 8287)%N || (c =? 12288)%N || (c =? 65279)%N.

(** [\d] *)
Definition is_decimal (c : N) : bool := in_range 48 57 c.

Definition is_latin_letter (c : N) : bool :=
  in_range 65 90 c || in_range 97 122 c.

(** [[一-鿿A-Za-z]] *)
Definition is_name_start (c : N) : bool :=
  in_range 19968 40959 c || is_latin_letter c.

(** [[一-鿿A-Za-z0-9·\-\s]] *)
Definition is_name_char (c : N) : bool :=
  is_name_start c || is_decimal c || (c =? 183)%N || (c =? 45)%N
  || is_space c.

(** [[（(]] and [[)）]] *)
Definition is_open_paren (c : N) : bool := (c =? 65288)%N || (c =? 40)%N.
Definition is_close_paren (c : N) : bool := (c =? 41)%N || (c =? 65289)%N.

Fixpoint drop_spaces (t : text) : text :=
  match t with
  | (c, b) :: t' => if is_space c then drop_spaces t' else t
  | [] => []
  end.

(** [s.trim()] *)
Definition js_trim (s : string) : string :=
  text_string (rev (drop_spaces (rev (drop_spaces (utf8_decode s))))).

(** The fragment of regular expressions the program's patterns use.  No
    group stands under a quantifier, and only the first group is read. *)
Inductive regex :=
| RChar (p : N -> bool)
| RLit (s : string)
| RSeq (r1 r2 : regex)
| RAlt (r1 r2 : regex)
| RRep (r : regex) (min : nat) (max : option nat) (greedy : bool)
| RGroup (r : regex).

Fixpoint strip_prefix (p t : text) : option text :=
  match p, t with
  | [], _ => Some t
  | (c, _) :: p', (c', _) :: t' =>
      if (c =? c')%N then strip_prefix p' t' else None
  | _ :: _, [] => None
  end.

(** The backtracking matcher, in continuation-passing style: [k] is what
    must still match after [r]; the answer is the first group of the
    first successful path ([Some None]: matched, group not set). *)
Fixpoint rmatch (r : regex) (t : text) (cap : option string)
    (k : text -> option string -> option (option string))
  : option (option string) :=
  match r with
  | RChar p =>
      match t with
      | (c, _) :: t' => if p c then k t' cap else None
      | [] => None
      end
  | RLit s =>
      match strip_prefix (utf8_decode s) t with
      | Some t' => k t' cap
      | None => None
      end
  | RSeq r1 r2 => rmatch r1 t cap (fun t' cap' => rmatch r2 t' cap' k)
  | RAlt r1 r2 =>
      match rmatch r1 t cap k with
      | Some found => Some found
      | None => rmatch r2 t cap k
      end
  | RGroup r1 =>
      rmatch r1 t cap
        (fun t' _ =>
           k t' (Some (text_string (take (length t - length t') t))))
  | RRep r1 min max greedy =>
      (fix rep (n min : nat) (t : text) (cap : option string) {struct n} :=
         match n with
         | O => if decide (min = 0%nat) then k t cap else None
         | S n' =>
             let again (_ : unit) :=
               rmatch r1 t cap
                 (fun t' cap' =>
                    if decide (min = 0%nat /\ length t' = length t)
                    then None
                    else rep n' (pred min) t' cap') in
             if decide (min = 0%nat) then
               if greedy then
                 match again () with
                 | Some found => Some found
                 | None => k t cap
                 end
               else
                 match k t cap with
                 | Some found => Some found
                 | None => again ()
                 end
             else again ()
         end)
        (match max with Some m => m | None => (min + length t)%nat end)
        min t cap
  end.

(** The leftmost match. *)
Fixpoint regex_exec_from (r : regex) (t : text) : option (option string) :=
  match rmatch r t None (fun _ cap => Some cap) with
  | Some found => Some found
  | None =>
      match t with
      | [] => None
      | _ :: t' => regex_exec_from r t'
      end
  end.

(** [s.match(r)?.[1]], [undefined] and [null] both read as [None] *)
Definition regex_group1 (r : regex) (s : string) : option string :=
  match regex_exec_from r (utf8_decode s) with
  | Some cap => cap
  | None => None
  end.

(** [r.test(s)] *)
Definition regex_test (r : regex) (s : string) : bool :=
  match regex_exec_from r (utf8_decode s) with
  | Some _ => true
  | None => false
  end.

Definition ralt_lits (first : string) (others : list string) : regex :=
  fold_left (fun acc s => RAlt acc (RLit s)) others (RLit first).

Definition rstar (r : regex) : regex := RRep r 0 None true.

(* ===================================================================== *)
(** ** The data model (types/agent) *)

(** [data] of an incoming event: the address, the author and the
    polymorphic payload. *)
Record EventData := mkEventData {
  d_item_id : string;
  d_conversation_id : string;
  d_thread_id : string;
  d_task_id : string;
  d_role : option string;
  d_payload : jobj;
  d_metadata : option jobj;
}.

Record SSEData := mkSSEData {
  event : string;
  data : EventData;
}.

(** A chat item is the event's data with its component kind. *)
Record ChatItem := mkChatItem {
  component_type : option string;
  item_id : string;
  conversation_id : string;
  thread_id : string;
  task_id : string;
  role : option string;
  payload : jobj;
  metadata : option jobj;
}.

Record TaskView := mkTask { items : list ChatItem }.

Record ThreadView := mkThread { tasks : jsobj TaskView }.

Record ConversationView := mkConversation {
  threads : gmap string ThreadView;
  sections : gmap string ThreadView;
}.

Abbreviation AgentConversationsStore := (gmap string ConversationView).

Inductive MergeEvent := Append | Replace | AppendReasoning.

Inductive StepTemplateType := Analysis | News.

(** [{ component_type: ct, ...data }] and [{ ...data, component_type: ct }]:
    the event's data carries no component kind of its own. *)
Definition item_of_data (ct : option string) (d : EventData) : ChatItem :=
  {| component_type := ct;
     item_id := d_item_id d;
     conversation_id := d_conversation_id d;
     thread_id := d_thread_id d;
     task_id := d_task_id d;
     role := d_role d;
     payload := d_payload d;
     metadata := d_metadata d |}.

Definition with_payload (it : ChatItem) (p : jobj) : ChatItem :=
  {| component_type := component_type it;
     item_id := item_id it;
     conversation_id := conversation_id it;
     thread_id := thread_id it;
     task_id := task_id it;
     role := role it;
     payload := p;
     metadata := metadata it |}.

(** A string-typed property [o.k] *)
Definition obj_string (k : string) (o : jobj) : option string :=
  match obj_get k o with
  | Some (JStr s) => Some s
  | _ => None
  end.

(** [item.payload.content]; [None] when the payload has no such
    property. *)
Definition content_value (it : ChatItem) : option json :=
  obj_get "content" (payload it).

(** The content, when it is a string. *)
Definition payload_content (it : ChatItem) : option string :=
  obj_string "content" (payload it).

(** [item.payload.content = v] *)
Definition set_content_value (it : ChatItem) (v : json) : ChatItem :=
  with_payload it (obj_set "content" v (payload it)).

Definition set_content (it : ChatItem) (s : string) : ChatItem :=
  set_content_value it (JStr s).

(** An object literal; a property whose value is [undefined] is left out,
    as JSON.stringify does. *)
Fixpoint obj_lit (fields : list (string * option json)) : jobj :=
  match fields with
  | [] => []
  | (k, Some v) :: rest => (k, v) :: obj_lit rest
  | (_, None) :: rest => obj_lit rest
  end.

Fixpoint N_digits (fuel : nat) (n : N) (acc : string) : string :=
  match fuel with
  | O => acc
  | S fuel' =>
      let acc' := String (ascii_of_N (48 + n mod 10)) acc in
      if (n <? 10)%N then acc' else N_digits fuel' (n / 10) acc'
  end.

(** The decimal numeral of [n] *)
Definition N_string (n : N) : string :=
  N_digits (S (N.to_nat (N.log2 n))) n "".

Definition nat_string (n : nat) : string := N_string (N.of_nat n).

Fixpoint indexed {A} (f : A -> json) (i : nat) (l : list A) : jobj :=
  match l with
  | [] => []
  | x :: l' => (nat_string i, f x) :: indexed f (S i) l'
  end.

(** The three bytes that spell the code unit [u], for a surrogate on
    its own. *)
Definition unit_bytes (u : N) : string :=
  String (ascii_of_N (224 + u / 4096))
    (String (ascii_of_N (128 + (u / 64) mod 64))
       (String (ascii_of_N (128 + u mod 64)) "")).

(** The UTF-16 code units of a text, each as a string of its own: a
    code point above 65535 is a pair of surrogates. *)
Fixpoint utf16_units (t : text) : list string :=
  match t with
  | [] => []
  | (cp, bytes) :: t' =>
      if (cp <? 65536)%N then bytes :: utf16_units t'
      else unit_bytes (55296 + (cp - 65536) / 1024)
             :: unit_bytes (56320 + (cp - 65536) mod 1024)
             :: utf16_units t'
  end.

(** The own enumerable properties copied by [{ ...v }]: those of an
    object, the elements of an array, the code units of a string,
    none of [null], a number or a boolean. *)
Definition js_spread (v : json) : jobj :=
  match v with
  | JObj o => o
  | JArr l => indexed (fun x => x) 0 l
  | JStr s => indexed JStr 0 (utf16_units (utf8_decode s))
  | _ => []
  end.

(* ===================================================================== *)
(** ** Constants *)

Definition ANALYSIS_STEP_TITLES : list string :=
  [ "构建分析策略任务规划";
    "基本面与财务健康度调研";
    "基本面与股基本面分析";
    "多周期技术形态与筹码分布研究";
    "市场情绪与资金动态监控";
    "实时资讯与重大事项搜寻" ].

Definition ANALYSIS_OVERFLOW_STEP_TITLE : string := "构建分析策略".

Definition NEWS_STEP_TITLES : list string :=
  [ "检索今日全球科技重大新闻";
    "检索今日国内科技行业及 A 股科技板块动态";
    "分析科技行业市场情绪与资金流向" ].

Definition STEP_TEMPLATE_START_TITLES : list string :=
  [ "构建分析策略任务规划"; "检索今日全球科技重大新闻" ].

(** The pattern is case-insensitive; none of its characters has a case. *)
Definition NEWS_QUERY_MARKER_REGEX : regex :=
  ralt_lits "新闻"
    [ "快讯"; "头条"; "今日科技"; "科技新闻"; "财经新闻"; "实时资讯" ].

Definition company_name_core : regex :=
  RSeq (RChar is_name_start) (RRep (RChar is_name_char) 1 (Some 30%nat) false).

Definition WITH_CODE_REGEX : regex :=
  RSeq (RGroup company_name_core)
    (RSeq (rstar (RChar is_space))
       (RSeq (RChar is_open_paren)
          (RSeq (rstar (RChar is_space))
             (RSeq (RRep (RChar is_decimal) 4 (Some 6%nat) true)
                (RSeq (rstar (RChar is_space)) (RChar is_close_paren)))))).

Definition COMPANY_SUFFIX_REGEX : regex :=
  RGroup
    (RSeq company_name_core
       (ralt_lits "股份有限公司"
          [ "有限公司"; "集团"; "控股"; "科技"; "实业"; "银行"; "证券";
            "制药"; "能源"; "汽车"; "传媒" ])).

(* ===================================================================== *)
(** ** The program *)

Section Program.
Context `{JsRuntime}.

(** The section-worthy component kinds of [@/constants/agent], which
    the store takes as configuration. *)
Variable AGENT_SECTION_COMPONENT_TYPE : list string.

(** A string that passes an [if (s)] test *)
Definition truthy_string (s : option string) : option string :=
  match s with
  | Some s' => if String.eqb s' "" then None else Some s'
  | None => None
  end.

Definition extractCompanyNameFromText (text : string) : option string :=
  let normalized := js_trim text in
  if String.eqb normalized "" then None
  else
    match truthy_string (regex_group1 WITH_CODE_REGEX normalized) with
    | Some withCodeMatch => Some (js_trim withCodeMatch)
    | None =>
        match truthy_string
                (regex_group1 COMPANY_SUFFIX_REGEX normalized) with
        | Some companySuffixMatch => Some (js_trim companySuffixMatch)
        | None => None
        end
    end.

Definition getThreadItems (thread : ThreadView) : list ChatItem :=
  concat (map items (obj_values (tasks thread))).

(** The type guard tests that the property is there, not what it
    holds: ["content" in item.payload]. *)
Definition hasContent (item : ChatItem) : bool :=
  match content_value item with Some _ => true | None => false end.

Definition is_tool_call (item : ChatItem) : bool :=
  bool_decide (component_type item = Some "tool_call").

Definition isPlanningAnchorTool (item : ChatItem) : bool :=
  if negb (is_tool_call item) then false
  else match content_value item with
       | None => false
       | Some content =>
           try_catch
             (parsed ← json_parse content;
              tool_name ← js_prop parsed "tool_name";
              if js_is_string tool_name "generate_execution_plan"
              then mret true
              else
                step_label ← js_prop parsed "step_label";
                mret (js_includes STEP_TEMPLATE_START_TITLES
                        (nullish step_label (JStr ""))))
             false
       end.

(** [for (let i = n - 1; i >= 0; i--) if (anchor(l[i])) return i] *)
Fixpoint last_anchor_below (l : list ChatItem) (n : nat) : option nat :=
  match n with
  | O => None
  | S i =>
      match l !! i with
      | Some item =>
          if isPlanningAnchorTool item then Some i
          else last_anchor_below l i
      | None => last_anchor_below l i
      end
  end.

Definition getPlanningToolItems (thread : ThreadView) : list ChatItem :=
  let allToolItems :=
    filter (fun item => component_type item = Some "tool_call")
           (getThreadItems thread) in
  match last_anchor_below allToolItems (length allToolItems) with
  | Some anchorIndex => drop anchorIndex allToolItems
  | None => []
  end.

Definition getToolNameFromItem (item : ChatItem) : json :=
  if negb (is_tool_call item) then JNull
  else match content_value item with
       | None => JNull
       | Some content =>
           try_catch
             (parsed ← json_parse content;
              tool_name ← js_prop parsed "tool_name";
              mret (nullish tool_name JNull))
             JNull
       end.

Definition getStepLabelFromItem (item : ChatItem) : json :=
  if negb (is_tool_call item) then JNull
  else match content_value item with
       | None => JNull
       | Some content =>
           try_catch
             (parsed ← json_parse content;
              step_label ← js_prop parsed "step_label";
              mret (nullish step_label JNull))
             JNull
       end.

(** The contents of the user-authored items of the thread that have
    one. *)
Definition userContents (thread : ThreadView) : list json :=
  omap (fun item =>
          if bool_decide (role item = Some "user")
          then content_value item else None)
       (getThreadItems thread).

(** [contents.some((content) => NEWS_QUERY_MARKER_REGEX.test(content))];
    [test] converts its argument to a string. *)
Fixpoint some_news_marker (contents : list json) : result bool :=
  match contents with
  | [] => Ok false
  | content :: rest =>
      text ← js_to_string content;
      if regex_test NEWS_QUERY_MARKER_REGEX text then Ok true
      else some_news_marker rest
  end.

Definition detectStepTemplateInThread (thread : ThreadView)
  : result StepTemplateType :=
  some_news_marker (userContents thread) ≫= fun news : bool =>
  if news then Ok News
  else
    let planningToolNames :=
      filter (fun name => js_truthy (Some name) = true)
             (map getToolNameFromItem (getPlanningToolItems thread)) in
    let hasNewsTool :=
      existsb (js_includes
                 ["web_search"; "get_breaking_news"; "get_financial_news"])
              planningToolNames in
    let hasResearchTool :=
      existsb (js_includes
                 ["fetch_ashare_filings"; "fetch_us_filing_sections"])
              planningToolNames in
    Ok (if hasNewsTool && negb hasResearchTool then News else Analysis).

(** [extractCompanyNameFromText(x)] for a value that need not be a
    string: [x.trim] is a function on strings only. *)
Definition extract_company_name (x : json) : result (option string) :=
  match x with
  | JStr text => Ok (extractCompanyNameFromText text)
  | _ => Throw TypeError
  end.

Fixpoint first_candidate (contents : list json) : result (option string) :=
  match contents with
  | [] => Ok None
  | content :: rest =>
      candidate ← extract_company_name content;
      match truthy_string candidate with
      | Some candidate => Ok (Some candidate)
      | None => first_candidate rest
      end
  end.

Definition detectCompanyNameInThread (thread : ThreadView)
    (fallbackTaskTitle : option json) : result (option string) :=
  candidate ← first_candidate (userContents thread);
  match candidate with
  | Some candidate => Ok (Some candidate)
  | None =>
      match fallbackTaskTitle with
      | Some title =>
          if js_truthy (Some title) then extract_company_name title
          else Ok None
      | None => Ok None
      end
  end.

Definition getToolStepOrderInThread (thread : ThreadView)
    (itemId : string) (currentToolName : option json) : Z :=
  let threadToolItems := getPlanningToolItems thread in
  if decide (length threadToolItems = 0%nat) then
    if js_is_string currentToolName "generate_execution_plan"
    then 1%Z else 0%Z
  else
    match list_find
            (fun item => component_type item = Some "tool_call"
                         /\ item_id item = itemId)
            threadToolItems with
    | Some (existingIndex, _) => (Z.of_nat existingIndex + 1)%Z
    | None => (Z.of_nat (length threadToolItems) + 1)%Z
    end.

(** [a[i]] for a number [i]; out of range is [undefined] *)
Definition js_index {A} (a : list A) (i : Z) : option A :=
  if (i <? 0)%Z then None else a !! Z.to_nat i.

Definition buildPlannedStepLabel (stepOrder : Z)
    (companyName : option string) (templateType : StepTemplateType)
  : option string :=
  let templateTitles :=
    match templateType with
    | News => NEWS_STEP_TITLES
    | Analysis => ANALYSIS_STEP_TITLES
    end in
  let baseTitle :=
    match js_index templateTitles (stepOrder - 1) with
    | Some title => Some title
    | None =>
        match templateType with
        | Analysis => Some ANALYSIS_OVERFLOW_STEP_TITLE
        | News => None
        end
    end in
  match baseTitle with
  | None => None
  | Some baseTitle =>
      if String.eqb baseTitle "" then None
      else
        match templateType, companyName with
        | Analysis, Some companyName =>
            if (2 <=? stepOrder)%Z && negb (String.eqb companyName "")
            then Some (baseTitle +:+ "（" +:+ companyName +:+ "）")
            else Some baseTitle
        | _, _ => Some baseTitle
        end
  end.

Definition shouldApplyAnalysisStepTemplate (thread : ThreadView)
    (currentToolName : option json) : bool :=
  if js_is_string currentToolName "generate_execution_plan" then true
  else
    match getPlanningToolItems thread with
    | [] => false
    | firstToolItem :: _ =>
        let firstToolName := getToolNameFromItem firstToolItem in
        let firstStepLabel := getStepLabelFromItem firstToolItem in
        js_is_string (Some firstToolName) "generate_execution_plan"
        || js_includes STEP_TEMPLATE_START_TITLES
             (nullish (Some firstToolName) (JStr ""))
        || js_includes STEP_TEMPLATE_START_TITLES
             (nullish (Some firstStepLabel) (JStr ""))
    end.

(** *** Paths into the draft *)

Definition empty_task : TaskView := {| items := [] |}.
Definition empty_thread : ThreadView := {| tasks := [] |}.
Definition empty_conversation : ConversationView :=
  {| threads := ∅; sections := ∅ |}.

(** [m[k] ??= v] on a finite map and on an ordered object: a property
    of the object's own is kept; without one, a name that
    Object.prototype defines is found there and nothing is assigned;
    any other name gets [v]. *)
Definition map_ensure {V} (k : string) (v : V) (m : gmap string V)
  : gmap string V :=
  match m !! k with
  | Some _ => m
  | None => if inherited k then m else <[k := v]> m
  end.

Definition obj_ensure {V} (k : string) (v : V) (o : jsobj V) : jsobj V :=
  if obj_has k o || inherited k then o else obj_set k v o.

Definition set_threads (c : ConversationView) (t : gmap string ThreadView)
  : ConversationView :=
  {| threads := t; sections := sections c |}.

Definition set_sections (c : ConversationView) (s : gmap string ThreadView)
  : ConversationView :=
  {| threads := threads c; sections := s |}.

Definition ensure_task (taskId : string) (thread : ThreadView) : ThreadView :=
  {| tasks := obj_ensure taskId empty_task (tasks thread) |}.

(** A mutation [f] of the task that [thread.tasks[taskId]] refers to *)
Definition alter_task (f : TaskView -> TaskView) (taskId : string)
    (thread : ThreadView) : ThreadView :=
  {| tasks := obj_alter f taskId (tasks thread) |}.

(** The task a conversation holds at [threads[threadId].tasks[taskId]]
    and at [sections[componentType].tasks[taskId]], as properties of
    the objects' own. *)
Definition conv_task (conversation : ConversationView)
    (threadId taskId : string) : option TaskView :=
  thread ← threads conversation !! threadId;
  obj_get taskId (tasks thread).

Definition conv_section_task (conversation : ConversationView)
    (componentType taskId : string) : option TaskView :=
  section ← sections conversation !! componentType;
  obj_get taskId (tasks section).

Definition task_at (draft : AgentConversationsStore)
    (conversationId threadId taskId : string) : option TaskView :=
  conversation ← draft !! conversationId;
  conv_task conversation threadId taskId.

Definition section_task_at (draft : AgentConversationsStore)
    (conversationId componentType taskId : string) : option TaskView :=
  conversation ← draft !! conversationId;
  conv_section_task conversation componentType taskId.

(** What the code does through the reference [conversation] it has
    read from [draft[conversationId]].  When the draft has no such
    conversation of its own, what was read is a property of
    Object.prototype: the [threads] and [sections] of it are
    [undefined], and reading a property of those throws. *)
Definition on_conversation
    (f : ConversationView -> result ConversationView)
    (conversationId : string) (draft : AgentConversationsStore)
  : result AgentConversationsStore :=
  match draft !! conversationId with
  | Some conversation =>
      conversation' ← f conversation;
      Ok (<[conversationId := conversation']> draft)
  | None => Throw TypeError
  end.

(** [conversation.threads[threadId] ??= { tasks: {} }] and
    [thread.tasks[taskId] ??= { items: [] }].  When the thread is found
    on Object.prototype, its [tasks] is [undefined] and the second
    statement throws.  When the task is found there, nothing is
    assigned and nothing is thrown: the [task] returned is no task. *)
Definition ensure_thread_task (threadId taskId : string)
    (conversation : ConversationView) : result ConversationView :=
  let threads1 :=
    map_ensure threadId empty_thread (threads conversation) in
  match threads1 !! threadId with
  | Some thread =>
      Ok (set_threads conversation
            (<[threadId := ensure_task taskId thread]> threads1))
  | None => Throw TypeError
  end.

Definition ensurePath (draft : AgentConversationsStore)
    (conversationId threadId taskId : string)
  : result AgentConversationsStore :=
  let draft := map_ensure conversationId empty_conversation draft in
  on_conversation (ensure_thread_task threadId taskId) conversationId draft.

(** The [thread] that [ensurePath] returns, read back from the draft. *)
Definition thread_at (draft : AgentConversationsStore)
    (conversationId threadId : string) : ThreadView :=
  default empty_thread
    (conversation ← draft !! conversationId;
     threads conversation !! threadId).

(** The assignment [f] makes to the task at
    [threads[threadId].tasks[taskId]]. *)
Definition alter_thread_task (f : TaskView -> TaskView)
    (threadId taskId : string) (conversation : ConversationView)
  : ConversationView :=
  set_threads conversation
    (alter (alter_task f taskId) threadId (threads conversation)).

(** A mutation [f] of the task that [ensurePath] returns, which reads
    [task.items] first.  When the thread has no task of its own under
    [taskId], what [ensurePath] returned is a property of
    Object.prototype: its [items] is [undefined], and the read of
    [findIndex] throws. *)
Definition update_thread_task (f : TaskView -> result TaskView)
    (threadId taskId : string) (conversation : ConversationView)
  : result ConversationView :=
  match conv_task conversation threadId taskId with
  | Some task =>
      task' ← f task;
      Ok (alter_thread_task (fun _ => task') threadId taskId conversation)
  | None => Throw TypeError
  end.

(** The conversation after [ensureSection]; the section and its task
    are found as the thread and its task are in [ensurePath]. *)
Definition ensureSection (conversation : ConversationView)
    (componentType taskId : string) : result ConversationView :=
  let sections1 :=
    map_ensure componentType empty_thread (sections conversation) in
  match sections1 !! componentType with
  | Some section =>
      Ok (set_sections conversation
            (<[componentType := ensure_task taskId section]> sections1))
  | None => Throw TypeError
  end.

Definition alter_section (f : TaskView -> TaskView)
    (componentType taskId : string) (conversation : ConversationView)
  : ConversationView :=
  set_sections conversation
    (alter (alter_task f taskId) componentType (sections conversation)).

(** A mutation [f] of the task that [ensureSection] returns. *)
Definition update_section_task (f : TaskView -> result TaskView)
    (componentType taskId : string) (conversation : ConversationView)
  : result ConversationView :=
  match conv_section_task conversation componentType taskId with
  | Some task =>
      task' ← f task;
      Ok (alter_section (fun _ => task') componentType taskId conversation)
  | None => Throw TypeError
  end.

(** *** Reasoning completion *)

(** [JSON.stringify({ ...parsed, isComplete: true })] *)
Definition completed_record (parsed : json) : string :=
  JSON_stringify (JObj (obj_set "isComplete" (JBool true) (js_spread parsed))).

(** [JSON.stringify({ content: raw, isComplete: true })] *)
Definition wrapped_record (raw : json) : string :=
  JSON_stringify (JObj [("content", raw); ("isComplete", JBool true)]).

Definition markReasoningComplete (task : TaskView) (itemId : string)
  : TaskView :=
  match list_find (fun item => item_id item = itemId) (items task) with
  | Some (existingIndex, existing) =>
      match content_value existing with
      | Some content =>
          let content' :=
            try_catch
              (parsed ← json_parse content;
               mret (completed_record parsed))
              (wrapped_record content) in
          {| items :=
               <[existingIndex := set_content existing content']>
                 (items task) |}
      | None => task
      end
  | None => task
  end.

Definition mark_item_complete (item : ChatItem) : ChatItem :=
  if bool_decide (component_type item = Some "reasoning") then
    match content_value item with
    | Some content =>
        try_catch
          (parsed ← json_parse content;
           isComplete ← js_prop parsed "isComplete";
           mret (if negb (js_truthy isComplete)
                 then set_content item (completed_record parsed)
                 else item))
          item
    | None => item
    end
  else item.

Definition markAllReasoningComplete (task : TaskView) : TaskView :=
  {| items := map mark_item_complete (items task) |}.

(** *** The merge policy *)

(** [JSON.stringify({ content: (a.content ?? "") + (b.content ?? ""),
                      isComplete: b.isComplete ?? false })] *)
Definition merged_reasoning (existingParsed newParsed : json)
  : result string :=
  existingContent ← js_prop existingParsed "content";
  newContent ← js_prop newParsed "content";
  content ← js_add (nullish existingContent (JStr ""))
                   (nullish newContent (JStr ""));
  newComplete ← js_prop newParsed "isComplete";
  mret (JSON_stringify
          (JObj [("content", content);
                 ("isComplete", nullish newComplete (JBool false))])).

(** The append of plain contents has no handler: what [+] throws
    leaves the function. *)
Definition addOrUpdateItem (task : TaskView) (newItem : ChatItem)
    (event : MergeEvent) : result TaskView :=
  match list_find (fun item => item_id item = item_id newItem)
                  (items task) with
  | None => Ok {| items := items task ++ [newItem] |}
  | Some (existingIndex, existingItem) =>
      let replaced :=
        {| items := <[existingIndex := newItem]> (items task) |} in
      match event, content_value existingItem, content_value newItem with
      | Append, Some existingContent, Some newContent =>
          content ← js_add existingContent newContent;
          Ok {| items :=
                  <[existingIndex :=
                      set_content_value existingItem content]>
                    (items task) |}
      | AppendReasoning, Some existingContent, Some newContent =>
          Ok (try_catch
                (existingParsed ← json_parse existingContent;
                 newParsed ← json_parse newContent;
                 merged ← merged_reasoning existingParsed newParsed;
                 mret {| items :=
                           <[existingIndex :=
                               set_content existingItem merged]>
                             (items task) |})
                replaced)
      | _, _, _ => Ok replaced
      end
  end.

(** *** The event processor *)

Definition is_section_type (componentType : option string) : bool :=
  match componentType with
  | Some ct =>
      negb (String.eqb ct "")
      && bool_decide (ct ∈ AGENT_SECTION_COMPONENT_TYPE)
  | None => false
  end.

(** [for (const x of l) step(draft, x)] *)
Fixpoint for_each {A S} (step : S -> A -> result S) (l : list A) (s : S)
  : result S :=
  match l with
  | [] => Ok s
  | x :: l' => s' ← step s x; for_each step l' s'
  end.

Definition handleChatItemEvent (draft : AgentConversationsStore)
    (item : ChatItem) (event : MergeEvent)
  : result AgentConversationsStore :=
  draft ← ensurePath draft (conversation_id item) (thread_id item)
            (task_id item);
  on_conversation
    (fun conversation =>
       match component_type item with
       | Some componentType =>
           if is_section_type (Some componentType) then
             conversation ←
               ensureSection conversation componentType (task_id item);
             update_section_task
               (fun sectionTask => addOrUpdateItem sectionTask item event)
               componentType (task_id item) conversation
           else
             update_thread_task
               (fun task => addOrUpdateItem task item event)
               (thread_id item) (task_id item) conversation
       | None =>
           update_thread_task
             (fun task => addOrUpdateItem task item event)
             (thread_id item) (task_id item) conversation
       end)
    (conversation_id item) draft.

Definition MARKDOWN_EVENTS : list string :=
  [ "thread_started"; "message_chunk"; "message"; "task_failed";
    "plan_failed"; "plan_require_user_input" ].

Definition TOOL_CALL_EVENTS : list string :=
  [ "tool_call_started"; "tool_call_completed" ].

(** [{ content: JSON.stringify(record) }] *)
Definition content_payload (record : jobj) : jobj :=
  [("content", JStr (JSON_stringify (JObj record)))].

Definition label_json (label : option string) : json :=
  match label with
  | Some l => JStr l
  | None => JNull
  end.

(** [data.metadata?.task_title] *)
Definition task_title (d : EventData) : option json :=
  metadata ← d_metadata d; obj_get "task_title" metadata.

Definition plannedStepLabel (thread : ThreadView) (d : EventData)
  : result (option string) :=
  let toolName := obj_get "tool_name" (d_payload d) in
  templateType ← detectStepTemplateInThread thread;
  let shouldApplyTemplate :=
    shouldApplyAnalysisStepTemplate thread toolName in
  let stepOrder := getToolStepOrderInThread thread (d_item_id d) toolName in
  companyName ← detectCompanyNameInThread thread (task_title d);
  Ok (if shouldApplyTemplate
      then buildPlannedStepLabel stepOrder companyName templateType
      else None).

Definition processSSEEvent (draft : AgentConversationsStore)
    (sseData : SSEData) : result AgentConversationsStore :=
  let event := event sseData in
  let data := data sseData in
  if decide (event = "component_generator") then
    let component_type := obj_string "component_type" (d_payload data) in
    if bool_decide (component_type = Some "scheduled_task_result")
       || bool_decide (component_type = Some "subagent_conversation")
    then handleChatItemEvent draft (item_of_data component_type data) Replace
    else handleChatItemEvent draft (item_of_data component_type data) Append
  else if bool_decide (event ∈ MARKDOWN_EVENTS) then
    handleChatItemEvent draft (item_of_data (Some "markdown") data) Append
  else if decide (event = "reasoning") then
    handleChatItemEvent draft
      (with_payload (item_of_data (Some "reasoning") data)
         (content_payload
            (obj_lit [("content", obj_get "content" (d_payload data));
                      ("isComplete", Some (JBool false))])))
      AppendReasoning
  else if decide (event = "reasoning_started") then
    handleChatItemEvent draft
      (with_payload (item_of_data (Some "reasoning") data)
         (content_payload
            [("content", JStr ""); ("isComplete", JBool false)]))
      Replace
  else if decide (event = "reasoning_completed") then
    draft ← ensurePath draft (d_conversation_id data) (d_thread_id data)
              (d_task_id data);
    on_conversation
      (update_thread_task
         (fun task => Ok (markReasoningComplete task (d_item_id data)))
         (d_thread_id data) (d_task_id data))
      (d_conversation_id data) draft
  else if bool_decide (event ∈ TOOL_CALL_EVENTS) then
    draft1 ← ensurePath draft (d_conversation_id data) (d_thread_id data)
               (d_task_id data);
    let thread :=
      thread_at draft1 (d_conversation_id data) (d_thread_id data) in
    label ← plannedStepLabel thread data;
    handleChatItemEvent draft1
      (with_payload (item_of_data (Some "tool_call") data)
         (content_payload
            (obj_set "step_label" (label_json label) (d_payload data))))
      Replace
  else Ok draft.

Definition updateAgentConversationsStore (store : AgentConversationsStore)
    (sseData : SSEData) : result AgentConversationsStore :=
  processSSEEvent store sseData.

Definition complete_thread (thread : ThreadView) : ThreadView :=
  {| tasks := map (fun kv => (kv.1, markAllReasoningComplete kv.2))
                  (tasks thread) |}.

Definition complete_conversation (conversation : ConversationView)
  : ConversationView :=
  set_threads conversation (complete_thread <$> threads conversation).

(** [draft[conversationId]] is truthy when the draft has the
    conversation or Object.prototype has the name; [delete] removes a
    property of the draft's own, and the last pass reads the [threads]
    of what it finds. *)
Definition batchUpdateAgentConversationsStore
    (store : AgentConversationsStore) (conversationId : string)
    (sseDataList : list SSEData) (clearHistory : bool)
  : result AgentConversationsStore :=
  let draft :=
    if clearHistory
       && (bool_decide (is_Some (store !! conversationId))
           || inherited conversationId)
    then delete conversationId store else store in
  draft ← for_each processSSEEvent sseDataList draft;
  match draft !! conversationId with
  | Some _ => Ok (alter complete_conversation conversationId draft)
  | None => if inherited conversationId then Throw TypeError else Ok draft
  end.
End Program.

(* ===================================================================== *)
(** ** A reference runtime

    JSON.parse, JSON.stringify and Number.prototype.toString on a
    fragment of JSON, used to run the program on sample inputs.  In the
    fragment a number is an integer below 2^53 in magnitude, written
    with at most 15 digits and neither fraction nor exponent, and a
    [\u] escape names a code unit that is not a surrogate.  On the
    fragment the functions compute what the built-ins compute; a text
    outside it is rejected, and a number outside it prints as [#]. *)

Module RefJSON.

Definition dquote : ascii := ascii_of_nat 34.

Definition is_ws (c : ascii) : bool :=
  let n := nat_of_ascii c in
  (n =? 32)%nat || (n =? 9)%nat || (n =? 10)%nat || (n =? 13)%nat.

Fixpoint skip_ws (s : string) : string :=
  match s with
  | String c s' => if is_ws c then skip_ws s' else s
  | EmptyString => s
  end.

Fixpoint strip_literal (lit s : string) : option string :=
  match lit, s with
  | EmptyString, _ => Some s
  | String a lit', String b s' =>
      if Ascii.eqb a b then strip_literal lit' s' else None
  | String _ _, EmptyString => None
  end.

Definition hex_value (c : ascii) : option N :=
  let n := N_of_ascii c in
  if ((48 <=? n) && (n <=? 57))%N then Some (n - 48)%N
  else if ((65 <=? n) && (n <=? 70))%N then Some (n - 55)%N
  else if ((97 <=? n) && (n <=? 102))%N then Some (n - 87)%N
  else None.

(** The UTF-8 spelling of a code point of the basic plane. *)
Definition utf8_encode (cp : N) : string :=
  if (cp <? 128)%N then String (ascii_of_N cp) ""
  else if (cp <? 2048)%N then
    String (ascii_of_N (192 + cp / 64))
      (String (ascii_of_N (128 + cp mod 64)) "")
  else
    String (ascii_of_N (224 + cp / 4096))
      (String (ascii_of_N (128 + (cp / 64) mod 64))
         (String (ascii_of_N (128 + cp mod 64)) "")).

(** The characters of a string literal after its opening quote. *)
Fixpoint parse_chars (fuel : nat) (s : string) (acc : string)
  : option (string * string) :=
  match fuel, s with
  | O, _ | _, EmptyString => None
  | S fuel', String c s' =>
      if Ascii.eqb c dquote then Some (acc, s')
      else if Ascii.eqb c "\" then
        match s' with
        | String e s'' =>
            let simple (x : ascii) :=
              parse_chars fuel' s'' (acc +:+ String x "") in
            if Ascii.eqb e dquote then simple dquote
            else if Ascii.eqb e "\" then simple "\"%char
            else if Ascii.eqb e "/" then simple "/"%char
            else if Ascii.eqb e "b" then simple (ascii_of_nat 8)
            else if Ascii.eqb e "f" then simple (ascii_of_nat 12)
            else if Ascii.eqb e "n" then simple (ascii_of_nat 10)
            else if Ascii.eqb e "r" then simple (ascii_of_nat 13)
            else if Ascii.eqb e "t" then simple (ascii_of_nat 9)
            else if Ascii.eqb e "u" then
              match s'' with
              | String h1 (String h2 (String h3 (String h4 rest))) =>
                  match hex_value h1, hex_value h2,
                        hex_value h3, hex_value h4 with
                  | Some a, Some b, Some c', Some d =>
                      let cp := (((a * 16 + b) * 16 + c') * 16 + d)%N in
                      if ((55296 <=? cp) && (cp <=? 57343))%N then None
                      else parse_chars fuel' rest (acc +:+ utf8_encode cp)
                  | _, _, _, _ => None
                  end
              | _ => None
              end
            else None
        | EmptyString => None
        end
      else if (nat_of_ascii c <? 32)%nat then None
      else parse_chars fuel' s' (acc +:+ String c "")
  end.

Fixpoint take_digits (s : string) (acc : string) : string * string :=
  match s with
  | String c s' =>
      if is_digit c then take_digits s' (acc +:+ String c "") else (acc, s)
  | EmptyString => (acc, s)
  end.

Definition float_of_N (n : N) : float :=
  PrimFloat.of_uint63 (Uint63.of_Z (Z.of_N n)).

(** An integer literal: no leading zero, no fraction, no exponent. *)
Definition parse_number (s : string) : option (float * string) :=
  let '(negative, s1) :=
    match s with
    | String "-" s' => (true, s')
    | _ => (false, s)
    end in
  let '(ds, rest) := take_digits s1 "" in
  match ds, rest with
  | EmptyString, _ => None
  | String "0" (String _ _), _ => None
  | _, String "." _ | _, String "e" _ | _, String "E" _ => None
  | _, _ =>
      if (15 <? String.length ds)%nat then None
      else match digits_value 0 ds with
           | Some n =>
               Some (if negative then PrimFloat.opp (float_of_N n)
                     else float_of_N n, rest)
           | None => None
           end
  end.

Fixpoint parse_value (fuel : nat) (s : string) : option (json * string) :=
  match fuel with
  | O => None
  | S fuel' =>
      match skip_ws s with
      | EmptyString => None
      | String c rest as s0 =>
          if Ascii.eqb c "n" then
            s' ← strip_literal "null" s0; Some (JNull, s')
          else if Ascii.eqb c "t" then
            s' ← strip_literal "true" s0; Some (JBool true, s')
          else if Ascii.eqb c "f" then
            s' ← strip_literal "false" s0; Some (JBool false, s')
          else if Ascii.eqb c dquote then
            '(str, s') ← parse_chars (String.length rest) rest "";
            Some (JStr str, s')
          else if Ascii.eqb c "[" then
            match skip_ws rest with
            | String "]" s' => Some (JArr [], s')
            | s1 => '(l, s') ← parse_elements fuel' s1 [];
                    Some (JArr l, s')
            end
          else if Ascii.eqb c "{" then
            match skip_ws rest with
            | String "}" s' => Some (JObj [], s')
            | s1 => '(o, s') ← parse_members fuel' s1 [];
                    Some (JObj o, s')
            end
          else
            '(n, s') ← parse_number s0; Some (JNum n, s')
      end
  end
with parse_elements (fuel : nat) (s : string) (acc : list json)
  : option (list json * string) :=
  match fuel with
  | O => None
  | S fuel' =>
      '(v, s1) ← parse_value fuel' s;
      match skip_ws s1 with
      | String "," s2 => parse_elements fuel' s2 (acc ++ [v])
      | String "]" s2 => Some (acc ++ [v], s2)
      | _ => None
      end
  end
with parse_members (fuel : nat) (s : string) (acc : jobj)
  : option (jobj * string) :=
  match fuel with
  | O => None
  | S fuel' =>
      match skip_ws s with
      | String c s1 =>
          if Ascii.eqb c dquote then
            '(key, s2) ← parse_chars (String.length s1) s1 "";
            match skip_ws s2 with
            | String ":" s3 =>
                '(v, s4) ← parse_value fuel' s3;
                match skip_ws s4 with
                | String "," s5 =>
                    parse_members fuel' s5 (obj_set key v acc)
                | String "}" s5 => Some (obj_set key v acc, s5)
                | _ => None
                end
            | _ => None
            end
          else None
      | EmptyString => None
      end
  end.

Definition parse (s : string) : result json :=
  match parse_value (2 * String.length s + 2) s with
  | Some (v, rest) =>
      match skip_ws rest with
      | EmptyString => Ok v
      | String _ _ => Throw SyntaxError
      end
  | None => Throw SyntaxError
  end.

Definition hex_digit (n : N) : ascii :=
  if (n <? 10)%N then ascii_of_N (48 + n) else ascii_of_N (87 + n).

Fixpoint quote_chars (s : string) : string :=
  match s with
  | EmptyString => ""
  | String c s' =>
      let n := N_of_ascii c in
      (if Ascii.eqb c dquote then String "\" (String dquote "")
       else if Ascii.eqb c "\" then "\\"
       else if (n =? 8)%N then "\b"
       else if (n =? 12)%N then "\f"
       else if (n =? 10)%N then "\n"
       else if (n =? 13)%N then "\r"
       else if (n =? 9)%N then "\t"
       else if (n <? 32)%N then
         "\u00" +:+ String (hex_digit (n / 16))
                      (String (hex_digit (n mod 16)) "")
       else String c "") +:+ quote_chars s'
  end.

Definition quote (s : string) : string :=
  String dquote (quote_chars s) +:+ String dquote "".

(** The integer a float denotes, when it denotes one. *)
Definition float_integer (x : float) : option Z :=
  match Prim2SF x with
  | S754_zero _ => Some 0%Z
  | S754_finite negative m e =>
      let sign (z : Z) := if negative then (- z)%Z else z in
      if (0 <=? e)%Z then Some (sign (Z.pos m * 2 ^ e)%Z)
      else if (Z.pos m mod 2 ^ (- e) =? 0)%Z
           then Some (sign (Z.pos m / 2 ^ (- e))%Z)
           else None
  | _ => None
  end.

Definition number_to_string (x : float) : string :=
  match Prim2SF x with
  | S754_nan => "NaN"
  | S754_infinity false => "Infinity"
  | S754_infinity true => "-Infinity"
  | _ =>
      match float_integer x with
      | Some z =>
          if (2 ^ 53 <=? Z.abs z)%Z then "#"
          else if (z <? 0)%Z then "-" +:+ N_string (Z.to_N (- z))
          else N_string (Z.to_N z)
      | None => "#"
      end
  end.

Definition is_finite (x : float) : bool :=
  match Prim2SF x with
  | S754_nan | S754_infinity _ => false
  | _ => true
  end.

Fixpoint stringify (v : json) : string :=
  match v with
  | JNull => "null"
  | JBool true => "true"
  | JBool false => "false"
  | JNum n => if is_finite n then number_to_string n else "null"
  | JStr s => quote s
  | JArr l =>
      "[" +:+ join_with ","
                ((fix elements (l : list json) : list string :=
                    match l with
                    | [] => []
                    | x :: l' => stringify x :: elements l'
                    end) l) +:+ "]"
  | JObj o =>
      "{" +:+ join_with ","
                ((fix members (o : list (string * json)) : list string :=
                    match o with
                    | [] => []
                    | (k, x) :: o' =>
                        (quote k +:+ ":" +:+ stringify x) :: members o'
                    end) o) +:+ "}"
  end.

#[export] Instance runtime : JsRuntime :=
  {| JSON_parse := parse;
     JSON_stringify := stringify;
     Number_toString := number_to_string |}.

End RefJSON.

(* ===================================================================== *)
(** ** Vocabulary of the statements *)

(** The event kinds the dispatcher has a case for. *)
Definition RECOGNIZED_EVENTS : list string :=
  "component_generator" :: MARKDOWN_EVENTS
    ++ ["reasoning"; "reasoning_started"; "reasoning_completed"]
    ++ TOOL_CALL_EVENTS.

(** A name that Object.prototype does not define. *)
Definition ordinary (k : string) : Prop := inherited k = false.

(** [a] is the item that [findIndex] by [id] finds in [l], at index [i]. *)
Definition first_with_id (id : string) (l : list ChatItem) (i : nat)
    (a : ChatItem) : Prop :=
  l !! i = Some a /\ item_id a = id /\
  forall j y, l !! j = Some y -> (j < i)%nat -> item_id y <> id.

Definition no_item_with_id (id : string) (l : list ChatItem) : Prop :=
  forall y, y ∈ l -> item_id y <> id.

(** [a'] is [a] with, at most, another [payload.content]. *)
Definition same_but_content (a a' : ChatItem) : Prop :=
  component_type a' = component_type a /\
  item_id a' = item_id a /\
  conversation_id a' = conversation_id a /\
  thread_id a' = thread_id a /\
  task_id a' = task_id a /\
  role a' = role a /\
  metadata a' = metadata a /\
  forall k, k <> "content" -> obj_get k (payload a') = obj_get k (payload a).

(** Every item of every task of the thread satisfies [P], which may
    depend on the key the task is stored under. *)
Definition thread_items_ok (P : string -> ChatItem -> Prop)
    (th : ThreadView) : Prop :=
  forall kid t it, (kid, t) ∈ tasks th -> it ∈ items t -> P kid it.

(** What an item stored under [sections[kind].tasks[kid]] looks like. *)
Definition section_item (kind kid : string) (it : ChatItem) : Prop :=
  component_type it = Some kind /\ task_id it = kid.

Definition items_of (t : option TaskView) : list ChatItem :=
  default [] (items <$> t).

(** The tool-call items of a thread, in the order [getThreadItems]
    lists them. *)
Definition thread_tool_items (thread : ThreadView) : list ChatItem :=
  filter (fun item => component_type item = Some "tool_call")
         (getThreadItems thread).

(** The title looked up for an ordinal of the analysis template. *)
Definition analysis_title (stepOrder : Z) : string :=
  default ANALYSIS_OVERFLOW_STEP_TITLE
    (js_index ANALYSIS_STEP_TITLES (stepOrder - 1)).

(** The value a computation returns, or [dflt] when it throws. *)
Definition returned {A} (dflt : A) (r : result A) : A :=
  match r with Ok a => a | Throw _ => dflt end.

Section Vocabulary.
Context `{JsRuntime}.
Variable AGENT_SECTION_COMPONENT_TYPE : list string.

Local Abbreviation cfg := AGENT_SECTION_COMPONENT_TYPE.
Implicit Types (d s : AgentConversationsStore) (c : ConversationView).

(** The stores the two entry points can return, starting from the
    empty one. *)
Inductive reachable : AgentConversationsStore -> Prop :=
| reachable_empty : reachable ∅
| reachable_update s sse s' :
    reachable s ->
    updateAgentConversationsStore cfg s sse = Ok s' -> reachable s'
| reachable_batch s cid sseDataList clearHistory s' :
    reachable s ->
    batchUpdateAgentConversationsStore cfg s cid sseDataList clearHistory
      = Ok s' ->
    reachable s'.

(** The items stored at an address of the main tree and of the
    sections; no task, no items. *)
Definition main_items d (cid tid kid : string) : list ChatItem :=
  default [] (items <$> task_at d cid tid kid).

Definition section_items d (cid kind kid : string) : list ChatItem :=
  default [] (items <$> section_task_at d cid kind kid).

(** No item of the main tree has a section-worthy kind. *)
Definition main_ok c : Prop :=
  forall tid th, threads c !! tid = Some th ->
    thread_items_ok
      (fun _ it => forall k, component_type it = Some k -> k ∉ cfg) th.

(** A section exists for section-worthy kinds only, keeps one task per
    task id, and holds items of its kind under their own task id. *)
Definition sections_ok c : Prop :=
  forall kind th, sections c !! kind = Some th ->
    kind ∈ cfg /\ NoDup (tasks th).*1 /\
    thread_items_ok (section_item kind) th.

Definition store_main_ok s : Prop :=
  forall cid c, s !! cid = Some c -> main_ok c.

Definition store_sections_ok s : Prop :=
  forall cid c, s !! cid = Some c -> sections_ok c.

(** What [handleChatItemEvent] does through [conversation] after
    [ensurePath] has returned it. *)
Definition upsert_in_conversation (item : ChatItem) (mode : MergeEvent) c
  : result ConversationView :=
  match component_type item with
  | Some componentType =>
      if is_section_type cfg (Some componentType) then
        c ← ensureSection c componentType (task_id item);
        update_section_task
          (fun sectionTask => addOrUpdateItem sectionTask item mode)
          componentType (task_id item) c
      else
        update_thread_task (fun task => addOrUpdateItem task item mode)
          (thread_id item) (task_id item) c
  | None =>
      update_thread_task (fun task => addOrUpdateItem task item mode)
        (thread_id item) (task_id item) c
  end.

(** What [handleChatItemEvent] does to the conversation it addresses. *)
Definition handle_conversation (item : ChatItem) (mode : MergeEvent) c
  : result ConversationView :=
  c ← ensure_thread_task (thread_id item) (task_id item) c;
  upsert_in_conversation item mode c.

(** A step [g] on the conversation that [ensurePath] creates when the
    draft has none under [cid]. *)
Definition at_conversation
    (g : ConversationView -> result ConversationView) (cid : string) d
  : result AgentConversationsStore :=
  on_conversation g cid (map_ensure cid empty_conversation d).

(** The thread of a conversation; no thread, no tasks. *)
Definition conv_thread c (tid : string) : ThreadView :=
  default empty_thread (threads c !! tid).

Definition conv_section c (kind : string) : ThreadView :=
  default empty_thread (sections c !! kind).

(** The conversation [ensurePath] and [ensureSection] leave when they
    return. *)
Definition with_thread_task (tid kid : string) c : ConversationView :=
  set_threads c (<[tid := ensure_task kid (conv_thread c tid)]> (threads c)).

Definition with_section_task (kind kid : string) c : ConversationView :=
  set_sections c
    (<[kind := ensure_task kid (conv_section c kind)]> (sections c)).

(** The path [cid], [tid], [kid] leads to a task after [ensurePath]:
    each name is a property of its object already, or is none of
    Object.prototype and so can be created. *)
Definition path_resolves d (cid tid kid : string) : Prop :=
  (is_Some (d !! cid) \/ ordinary cid) /\
  (is_Some (threads (default empty_conversation (d !! cid)) !! tid)
   \/ ordinary tid) /\
  (is_Some (task_at d cid tid kid) \/ ordinary kid).

(** The same for [sections[kind].tasks[kid]] after [ensureSection]. *)
Definition section_resolves d (cid kind kid : string) : Prop :=
  (is_Some (sections (default empty_conversation (d !! cid)) !! kind)
   \/ ordinary kind) /\
  (is_Some (section_task_at d cid kind kid) \/ ordinary kid).

(** What [processSSEEvent] does to the conversation a recognized
    event addresses. *)
Definition process_conversation (sseData : SSEData) c
  : result ConversationView :=
  let event := event sseData in
  let data := data sseData in
  if decide (event = "component_generator") then
    let component_type := obj_string "component_type" (d_payload data) in
    if bool_decide (component_type = Some "scheduled_task_result")
       || bool_decide (component_type = Some "subagent_conversation")
    then handle_conversation (item_of_data component_type data) Replace c
    else handle_conversation (item_of_data component_type data) Append c
  else if bool_decide (event ∈ MARKDOWN_EVENTS) then
    handle_conversation (item_of_data (Some "markdown") data) Append c
  else if decide (event = "reasoning") then
    handle_conversation
      (with_payload (item_of_data (Some "reasoning") data)
         (content_payload
            (obj_lit [("content", obj_get "content" (d_payload data));
                      ("isComplete", Some (JBool false))])))
      AppendReasoning c
  else if decide (event = "reasoning_started") then
    handle_conversation
      (with_payload (item_of_data (Some "reasoning") data)
         (content_payload
            [("content", JStr ""); ("isComplete", JBool false)]))
      Replace c
  else if decide (event = "reasoning_completed") then
    c ← ensure_thread_task (d_thread_id data) (d_task_id data) c;
    update_thread_task
      (fun task => Ok (markReasoningComplete task (d_item_id data)))
      (d_thread_id data) (d_task_id data) c
  else if bool_decide (event ∈ TOOL_CALL_EVENTS) then
    c1 ← ensure_thread_task (d_thread_id data) (d_task_id data) c;
    label ← plannedStepLabel (conv_thread c1 (d_thread_id data)) data;
    handle_conversation
      (with_payload (item_of_data (Some "tool_call") data)
         (content_payload
            (obj_set "step_label" (label_json label) (d_payload data))))
      Replace c1
  else Ok c.

(** The conversation under [cid] in the store a computation returns. *)
Definition looked_up (cid : string) (r : result AgentConversationsStore)
  : result (option ConversationView) :=
  d ← r; Ok (d !! cid).

(** The draft a batch replays the events on, and the replay. *)
Definition batch_start s (cid : string) (clearHistory : bool)
  : AgentConversationsStore :=
  if clearHistory && (bool_decide (is_Some (s !! cid)) || inherited cid)
  then delete cid s else s.

Definition replay d (events : list SSEData)
  : result AgentConversationsStore :=
  for_each (processSSEEvent cfg) events d.
End Vocabulary.

(* ===================================================================== *)
(** ** Sample inputs *)

Module Samples.
#[local] Existing Instance RefJSON.runtime.

Definition section_types : list string := ["scheduled_task_result"].

Definition sse (kind item task author : string) (p : jobj) : SSEData :=
  mkSSEData kind (mkEventData item "c1" "t1" task (Some author) p None).

Definition item (kind id task : string) (p : jobj) : ChatItem :=
  mkChatItem (Some kind) id "c1" "t1" task (Some "agent") p None.

(** *** A planning thread *)

Definition user_message : SSEData :=
  sse "message" "u1" "k0" "user"
    [("content", JStr "贵州茅台（600519）基本面怎么样")].

Definition plan_started : SSEData :=
  sse "tool_call_started" "i1" "k1" "agent"
    [("tool_call_id", JStr "call-1");
     ("tool_name", JStr "generate_execution_plan")].

Definition plan_completed : SSEData :=
  sse "tool_call_completed" "i1" "k1" "agent"
    [("tool_call_id", JStr "call-1");
     ("tool_name", JStr "generate_execution_plan");
     ("tool_result", JStr "ok")].

Definition filings_started : SSEData :=
  sse "tool_call_started" "i2" "k1" "agent"
    [("tool_call_id", JStr "call-2");
     ("tool_name", JStr "fetch_ashare_filings")].

Definition inbox : AgentConversationsStore :=
  returned ∅ (updateAgentConversationsStore section_types ∅ user_message).

Definition inbox_conversation : ConversationView :=
  default empty_conversation (inbox !! "c1").

Definition inbox_thread : ThreadView :=
  default empty_thread (threads inbox_conversation !! "t1").

Definition inbox_task : TaskView :=
  default empty_task (obj_get "k0" (tasks inbox_thread)).

Definition inbox_item : ChatItem :=
  item_of_data (Some "markdown") (data user_message).

Definition planned : AgentConversationsStore :=
  returned ∅
    (replay section_types ∅ [user_message; plan_started; plan_completed]).

(** The thread the event processor reads when [filings_started]
    arrives. *)
Definition planned_thread : ThreadView :=
  thread_at (returned ∅ (ensurePath planned "c1" "t1" "k1")) "c1" "t1".

Definition plan_item : ChatItem :=
  item "tool_call" "i1" "k1"
    (content_payload
       [("tool_call_id", JStr "call-1");
        ("tool_name", JStr "generate_execution_plan");
        ("tool_result", JStr "ok");
        ("step_label", JStr "构建分析策略任务规划")]).

Definition filings_item : ChatItem :=
  item "tool_call" "i2" "k1"
    (content_payload
       [("tool_call_id", JStr "call-2");
        ("tool_name", JStr "fetch_ashare_filings");
        ("step_label", JStr "基本面与财务健康度调研（贵州茅台）")]).

(** *** Chunks of one message *)

Definition chunk_a : ChatItem := item "markdown" "m1" "k0" [("content", JStr "Hel")].
Definition chunk_b : ChatItem := item "markdown" "m1" "k0" [("content", JStr "lo")].
Definition bare_b : ChatItem := item "markdown" "m1" "k0" [].
Definition other_item : ChatItem :=
  item "markdown" "m0" "k0" [("content", JStr "hi")].

(** A chunk whose [content] property holds [null]. *)
Definition null_chunk : ChatItem := item "markdown" "m1" "k0" [("content", JNull)].

(** The stores after one upsert on the empty store. *)
Definition stored_chunk : AgentConversationsStore :=
  returned ∅ (handleChatItemEvent section_types ∅ chunk_a Append).

(** *** Reasoning items *)

Definition reasoning_record (text : string) (complete : bool) : jobj :=
  [("content", JStr text); ("isComplete", JBool complete)].

Definition thought (text : string) : ChatItem :=
  item "reasoning" "r1" "k1" (content_payload (reasoning_record text false)).

Definition null_thought : ChatItem :=
  item "reasoning" "r1" "k1" [("content", JStr "null")].

(** A message whose text is [null], under the id of a reasoning item,
    and the reasoning event that follows it. *)
Definition null_message : SSEData :=
  sse "message" "r1" "k1" "agent" [("content", JStr "null")].

Definition null_note : ChatItem :=
  item "markdown" "r1" "k1" [("content", JStr "null")].

Definition reasoning_a : SSEData :=
  sse "reasoning" "r1" "k1" "agent" [("content", JStr "a")].

Definition raw_reasoning : SSEData :=
  sse "component_generator" "r1" "k1" "agent"
    [("content", JStr "thinking"); ("component_type", JStr "reasoning")].

(** The item that [raw_reasoning] stores. *)
Definition raw_reasoning_item : ChatItem :=
  item_of_data (Some "reasoning") (data raw_reasoning).

Definition replayed_raw : AgentConversationsStore :=
  returned ∅
    (batchUpdateAgentConversationsStore section_types ∅ "c1"
       [raw_reasoning] true).

Definition thinking : AgentConversationsStore :=
  returned ∅
    (replay section_types ∅
       [ sse "reasoning_started" "r1" "k1" "agent" [];
         sse "reasoning" "r1" "k1" "agent" [("content", JStr "foo")];
         sse "reasoning" "r1" "k1" "agent" [("content", JStr "bar")] ]).

Definition reasoning_done : SSEData :=
  sse "reasoning_completed" "r1" "k1" "agent" [].

(** A reasoning-completed event that names the user's message, and
    one that names the plan's tool call. *)
Definition message_done : SSEData :=
  sse "reasoning_completed" "u1" "k0" "agent" [].

Definition plan_done : SSEData :=
  sse "reasoning_completed" "i1" "k1" "agent" [].

(** *** Section-worthy results *)

Definition result_payload : jobj :=
  [("content", JStr "done");
   ("component_type", JStr "scheduled_task_result")].

Definition result_item (task : string) : ChatItem :=
  item "scheduled_task_result" "s1" task result_payload.

Definition stored_result : AgentConversationsStore :=
  returned ∅
    (handleChatItemEvent section_types ∅ (result_item "k1") Replace).

Definition two_results : AgentConversationsStore :=
  returned ∅
    (replay section_types ∅
       [ sse "component_generator" "s1" "k1" "agent" result_payload;
         sse "component_generator" "s2" "k2" "agent" result_payload ]).

Definition two_results_conversation : ConversationView :=
  default empty_conversation (two_results !! "c1").

Definition two_results_section : ThreadView :=
  default empty_thread
    (sections two_results_conversation !! "scheduled_task_result").

(** *** An event the dispatcher has no case for *)

Definition heartbeat : SSEData := sse "heartbeat" "h1" "k0" "agent" [].
End Samples.

(* ===================================================================== *)
(** ** Further vocabulary *)

(** The [item_id]s of a task, in render order. *)
Definition item_ids (task : TaskView) : list string :=
  item_id <$> items task.

(** The item lives at the address it carries. *)
Definition at_address (cid tid kid : string) (it : ChatItem) : Prop :=
  conversation_id it = cid /\ thread_id it = tid /\ task_id it = kid.

(** [content_blind P]: [P] does not look at [payload.content].
    A task holds one item per item id and items that satisfy [P]; a
    thread or section holds one task per task id, each well formed
    for the key it is stored under. *)
Definition content_blind (P : ChatItem -> Prop) : Prop :=
  forall it v, P it -> P (set_content_value it v).

Definition task_ok (P : ChatItem -> Prop) (t : TaskView) : Prop :=
  NoDup (item_ids t) /\ forall it, it ∈ items t -> P it.

Definition thread_ok (P : string -> ChatItem -> Prop) (th : ThreadView)
  : Prop :=
  NoDup (tasks th).*1 /\
  forall kid t, (kid, t) ∈ tasks th -> task_ok (P kid) t.

(** What the items stored under a section of conversation [cid] keep of
    their address. *)
Definition section_address (cid kid : string) (it : ChatItem) : Prop :=
  conversation_id it = cid /\ task_id it = kid.

Definition conversation_ok (cid : string) (c : ConversationView) : Prop :=
  (forall tid th, threads c !! tid = Some th ->
                  thread_ok (at_address cid tid) th) /\
  (forall kind th, sections c !! kind = Some th ->
                   thread_ok (section_address cid) th).

Definition store_ok (s : AgentConversationsStore) : Prop :=
  forall cid c, s !! cid = Some c -> conversation_ok cid c.

(** What an event that returns has done to the conversation it
    addresses: upserted an item that carries the event's address and
    item id, or completed the item of that id in the addressed task. *)
Inductive conversation_update `{JsRuntime} (cfg : list string)
    (sse : SSEData) : ConversationView -> ConversationView -> Prop :=
| update_upsert item mode c c' :
    conversation_id item = d_conversation_id (data sse) ->
    thread_id item = d_thread_id (data sse) ->
    task_id item = d_task_id (data sse) ->
    item_id item = d_item_id (data sse) ->
    handle_conversation cfg item mode c = Ok c' ->
    conversation_update cfg sse c c'
| update_complete c c' :
    event sse = "reasoning_completed" ->
    (c1 ← ensure_thread_task (d_thread_id (data sse))
            (d_task_id (data sse)) c;
     update_thread_task
       (fun task => Ok (markReasoningComplete task (d_item_id (data sse))))
       (d_thread_id (data sse)) (d_task_id (data sse)) c1) = Ok c' ->
    conversation_update cfg sse c c'.

(** [grows d d']: every task of [d] is still in [d'], in the thread
    tree and in the sections, with its sequence of item ids extended
    at the end, if at all. *)
Definition grows (d d' : AgentConversationsStore) : Prop :=
  (forall cid tid kid t,
      task_at d cid tid kid = Some t ->
      exists t', task_at d' cid tid kid = Some t' /\
                 item_ids t `prefix_of` item_ids t') /\
  (forall cid kind kid t,
      section_task_at d cid kind kid = Some t ->
      exists t', section_task_at d' cid kind kid = Some t' /\
                 item_ids t `prefix_of` item_ids t').

(** *** Streams *)

(** [e] continues the item that [first] began: same address, same
    item id. *)
Definition same_item (first e : SSEData) : Prop :=
  d_conversation_id (data e) = d_conversation_id (data first) /\
  d_thread_id (data e) = d_thread_id (data first) /\
  d_task_id (data e) = d_task_id (data first) /\
  d_item_id (data e) = d_item_id (data first).

(** A markdown event and a reasoning event that carry the text [s]
    for the item of [first]. *)
Definition markdown_chunk (first e : SSEData) (s : string) : Prop :=
  event e ∈ MARKDOWN_EVENTS /\ same_item first e /\
  obj_string "content" (d_payload (data e)) = Some s.

Definition reasoning_chunk (first e : SSEData) (s : string) : Prop :=
  event e = "reasoning" /\ same_item first e /\
  obj_get "content" (d_payload (data e)) = Some (JStr s).

(** [acc + s1 + s2 + ...], and the texts on the way there. *)
Definition joined (acc : string) (texts : list string) : string :=
  foldl String.append acc texts.

Fixpoint partial_texts (acc : string) (texts : list string) : list string :=
  match texts with
  | [] => [acc]
  | s :: rest => acc :: partial_texts (acc +:+ s) rest
  end.

(** The record a reasoning item serializes. *)
Definition thought_record (s : string) (complete : bool) : jobj :=
  [("content", JStr s); ("isComplete", JBool complete)].

(** The runtime reads back what it wrote. *)
Definition round_trips `{JsRuntime} (v : json) : Prop :=
  JSON_parse (JSON_stringify v) = Ok v.

(** *** Tool calls *)

(** The thread a tool-call event reads once [ensurePath] has returned,
    and the record it serializes into the item it stores. *)
Definition tool_call_thread (d : AgentConversationsStore) (a : EventData)
  : ThreadView :=
  conv_thread
    (with_thread_task (d_thread_id a) (d_task_id a)
       (default empty_conversation (d !! d_conversation_id a)))
    (d_thread_id a).

Definition tool_call_record (a : EventData) (label : option string) : jobj :=
  obj_set "step_label" (label_json label) (d_payload a).

(* ===================================================================== *)
(** ** Sample streams *)

Module StreamSamples.
Import Samples.

(** A message streamed in three chunks *)
Definition hello_first : SSEData :=
  sse "message_chunk" "m1" "k0" "agent" [("content", JStr "Hel")].

Definition hello_rest : list SSEData :=
  [ sse "message_chunk" "m1" "k0" "agent" [("content", JStr "lo")];
    sse "message" "m1" "k0" "agent" [("content", JStr "!")] ].

(** A reasoning item: started, two texts *)
Definition thought_started : SSEData :=
  sse "reasoning_started" "r1" "k1" "agent" [].

Definition thought_chunks : list SSEData :=
  [ sse "reasoning" "r1" "k1" "agent" [("content", JStr "foo")];
    sse "reasoning" "r1" "k1" "agent" [("content", JStr "bar")] ].

(** A message of another conversation *)
Definition elsewhere : SSEData :=
  mkSSEData "message"
    (mkEventData "m9" "c2" "t1" "k0" (Some "user")
       [("content", JStr "hi")] None).

(** A message without content, and the completion that names it *)
Definition bare_message : SSEData := sse "message" "m2" "k0" "agent" [].

Definition bare_done : SSEData :=
  sse "reasoning_completed" "m2" "k0" "agent" [].

(** A message whose thread id is a name that Object.prototype defines,
    and a completion whose task id is one *)
Definition prototype_thread_message : SSEData :=
  mkSSEData "message"
    (mkEventData "m3" "c1" "constructor" "k0" (Some "user")
       [("content", JStr "hi")] None).

Definition prototype_task_done : SSEData :=
  sse "reasoning_completed" "r1" "constructor" "agent" [].

(** A section-worthy result *)
Definition result_event : SSEData :=
  sse "component_generator" "s1" "k1" "agent" result_payload.

(** The conversation, thread and task of the planning sample *)
Definition planned_conversation : ConversationView :=
  default empty_conversation (planned !! "c1").

Definition planned_main_thread : ThreadView :=
  default empty_thread (threads planned_conversation !! "t1").

Definition planned_task : TaskView :=
  default empty_task (obj_get "k1" (tasks planned_main_thread)).
End StreamSamples.

(* ===================================================================== *)
(** ** Properties of ordered objects *)

Section ObjectLemmas.
Context {V : Type}.
Implicit Types (o : jsobj V) (k : string) (v : V).

Lemma obj_has_true k o : obj_has k o = true <-> is_Some (obj_get k o).
Proof.
  unfold obj_has. destruct (obj_get k o); split; intros Hx;
    try done; first [by eexists | by destruct Hx].
Qed.

Lemma obj_has_false k o : obj_has k o = false <-> obj_get k o = None.
Proof. unfold obj_has. by destruct (obj_get k o). Qed.

Lemma obj_get_replace_eq k v o :
  is_Some (obj_get k o) -> obj_get k (obj_replace k v o) = Some v.
Proof.
  induction o as [|[k' v'] o IH]; simpl; intros Hs.
  - by destruct Hs.
  - destruct (decide (k = k')) as [->|Hne]; simpl.
    + by rewrite decide_True.
    + rewrite decide_False by done. auto.
Qed.

Lemma obj_get_replace_ne k k' v o :
  k <> k' -> obj_get k' (obj_replace k v o) = obj_get k' o.
Proof.
  intros Hne. induction o as [|[k0 v0] o IH]; simpl; [done|].
  destruct (decide (k = k0)) as [->|Hk]; simpl.
  - by rewrite !decide_False by congruence.
  - destruct (decide (k' = k0)); [done|]. apply IH.
Qed.

Lemma obj_get_insert_index_eq n k v o :
  obj_get k o = None -> obj_get k (obj_insert_index n k v o) = Some v.
Proof.
  induction o as [|[k' v'] o IH]; simpl; intros Hn.
  - by rewrite decide_True.
  - destruct (decide (k = k')) as [->|Hne]; [done|].
    destruct (array_index k') as [n'|]; [destruct (n <? n')%N|]; simpl;
      rewrite ?decide_True by done; try done.
    rewrite decide_False by done. auto.
Qed.

Lemma obj_get_insert_index_ne n k k' v o :
  k <> k' -> obj_get k' (obj_insert_index n k v o) = obj_get k' o.
Proof.
  intros Hne. induction o as [|[k0 v0] o IH]; simpl.
  - by rewrite decide_False by congruence.
  - destruct (array_index k0) as [n'|]; [destruct (n <? n')%N|]; simpl;
      rewrite ?(decide_False (P := k' = k)) by congruence; try done.
    destruct (decide (k' = k0)); [done|]. apply IH.
Qed.

Lemma obj_get_app_None k o o' :
  obj_get k o = None -> obj_get k (o ++ o') = obj_get k o'.
Proof.
  induction o as [|[k0 v0] o IH]; simpl; [done|].
  destruct (decide (k = k0)); [done|]. apply IH.
Qed.

Lemma obj_get_app_Some k o o' v :
  obj_get k o = Some v -> obj_get k (o ++ o') = Some v.
Proof.
  induction o as [|[k0 v0] o IH]; simpl; [done|].
  destruct (decide (k = k0)); [done|]. apply IH.
Qed.

(** Reading back what was assigned. *)
Lemma obj_get_set_eq k v o : obj_get k (obj_set k v o) = Some v.
Proof.
  unfold obj_set. destruct (obj_has k o) eqn:Hh.
  - apply obj_get_replace_eq. by apply obj_has_true.
  - apply obj_has_false in Hh. destruct (array_index k).
    + by apply obj_get_insert_index_eq.
    + rewrite obj_get_app_None by done. simpl. by rewrite decide_True.
Qed.

(** Assignment leaves the other properties alone. *)
Lemma obj_get_set_ne k k' v o :
  k <> k' -> obj_get k' (obj_set k v o) = obj_get k' o.
Proof.
  intros Hne. unfold obj_set. destruct (obj_has k o).
  - by apply obj_get_replace_ne.
  - destruct (array_index k).
    + by apply obj_get_insert_index_ne.
    + destruct (obj_get k' o) eqn:Hg.
      * by apply obj_get_app_Some.
      * rewrite obj_get_app_None by done. simpl.
        by rewrite decide_False by congruence.
Qed.

Lemma obj_get_alter_eq (f : V -> V) k o :
  obj_get k (obj_alter f k o) = f <$> obj_get k o.
Proof.
  induction o as [|[k0 v0] o IH]; simpl; [done|].
  destruct (decide (k = k0)) as [->|Hne]; simpl.
  - by rewrite decide_True.
  - by rewrite decide_False.
Qed.

Lemma obj_get_alter_ne (f : V -> V) k k' o :
  k <> k' -> obj_get k' (obj_alter f k o) = obj_get k' o.
Proof.
  intros Hne. induction o as [|[k0 v0] o IH]; simpl; [done|].
  destruct (decide (k = k0)) as [->|Hk]; simpl.
  - by rewrite !decide_False by congruence.
  - destruct (decide (k' = k0)); [done|]. apply IH.
Qed.

Lemma obj_get_Some_elem k v o : obj_get k o = Some v -> (k, v) ∈ o.
Proof.
  induction o as [|[k0 v0] o IH]; simpl; [done|].
  destruct (decide (k = k0)) as [->|Hne].
  - intros [= ->]. left.
  - intros Hg. right. auto.
Qed.

Lemma obj_get_None_keys k o : obj_get k o = None <-> k ∉ o.*1.
Proof.
  induction o as [|[k0 v0] o IH]; simpl.
  - split; [intros _; apply not_elem_of_nil|done].
  - rewrite not_elem_of_cons. destruct (decide (k = k0)) as [->|Hne].
    + split; [done|]. by intros [? _].
    + rewrite IH. tauto.
Qed.

Lemma obj_get_elem_NoDup k v o :
  NoDup o.*1 -> (k, v) ∈ o -> obj_get k o = Some v.
Proof.
  induction o as [|[k0 v0] o IH]; simpl; intros Hnd Hin.
  - by apply elem_of_nil in Hin.
  - apply NoDup_cons in Hnd as [Hk0 Hnd].
    apply elem_of_cons in Hin as [[= -> ->]|Hin].
    + by rewrite decide_True.
    + destruct (decide (k = k0)) as [->|Hne]; [|auto].
      exfalso. apply Hk0. apply list_elem_of_fmap. by exists (k0, v).
Qed.

Lemma elem_of_obj_alter (f : V -> V) k k' v' o :
  (k', v') ∈ obj_alter f k o ->
  (k', v') ∈ o \/ (k' = k /\ exists v, (k, v) ∈ o /\ v' = f v).
Proof.
  induction o as [|[k0 v0] o IH]; simpl; [by left|].
  destruct (decide (k = k0)) as [->|Hne].
  - intros [[= -> ->]|Hin]%elem_of_cons.
    + right. split; [done|]. exists v0. split; [left|done].
    + left. by right.
  - intros [[= -> ->]|Hin]%elem_of_cons.
    + left. left.
    + destruct (IH Hin) as [?|(-> & v & ? & ->)].
      * left. by right.
      * right. split; [done|]. exists v. split; [by right|done].
Qed.

Lemma obj_alter_keys (f : V -> V) k o : (obj_alter f k o).*1 = o.*1.
Proof.
  induction o as [|[k0 v0] o IH]; simpl; [done|].
  destruct (decide (k = k0)); csimpl; by rewrite ?IH.
Qed.

Lemma obj_replace_keys k v o : (obj_replace k v o).*1 = o.*1.
Proof.
  induction o as [|[k0 v0] o IH]; simpl; [done|].
  destruct (decide (k = k0)); csimpl; by rewrite ?IH.
Qed.

Lemma obj_insert_index_perm n k v o :
  obj_insert_index n k v o ≡ₚ (k, v) :: o.
Proof.
  induction o as [|[k0 v0] o IH]; simpl; [done|].
  destruct (array_index k0) as [n'|]; [destruct (n <? n')%N|]; try done.
  rewrite IH. apply Permutation_swap.
Qed.

(** A fresh key is added once, somewhere; nothing else changes. *)
Lemma obj_set_fresh_perm k v o :
  obj_get k o = None -> obj_set k v o ≡ₚ (k, v) :: o.
Proof.
  intros Hn. unfold obj_set. apply obj_has_false in Hn. rewrite Hn.
  destruct (array_index k).
  - apply obj_insert_index_perm.
  - by rewrite Permutation_app_comm.
Qed.
End ObjectLemmas.

(* ===================================================================== *)
(** ** Values and contents *)

Section Values.
Context `{JsRuntime}.

Lemma json_parse_string s : json_parse (JStr s) = JSON_parse s.
Proof. done. Qed.

Lemma js_add_strings a b : js_add (JStr a) (JStr b) = Ok (JStr (a +:+ b)).
Proof. done. Qed.

(** The string a value contributes to a concatenation. *)
Lemma to_primitive_string v p :
  to_primitive v = Ok p ->
  exists s, js_to_string p = Ok s /\
            forall q, to_primitive p = Ok q -> q = p.
Proof.
  destruct v as [|[]|n|s|l|o];
    try (intros [= <-]; simpl; eexists; split; [done|];
         by intros q [= <-]);
    unfold to_primitive.
  - destruct (js_to_string (JArr l)) as [s|]; [|done].
    intros [= <-]. simpl. eexists. split; [done|]. by intros q [= <-].
  - destruct (js_to_string (JObj o)) as [s|]; [|done].
    intros [= <-]. simpl. eexists. split; [done|]. by intros q [= <-].
Qed.

Lemma js_add_string_r v s :
  js_add v (JStr s) =
    (p ← to_primitive v; x ← js_to_string p; Ok (JStr (x +:+ s))).
Proof.
  unfold js_add. destruct (to_primitive v) as [p|] eqn:Hp; [|done].
  cbn [mbind result_bind rbind to_primitive].
  destruct (to_primitive_string v p Hp) as (x & Hx & _). rewrite Hx.
  by destruct p.
Qed.

Lemma js_prop_non_null v k :
  v <> JNull ->
  js_prop v k = Ok (match v with JObj o => obj_get k o | _ => None end).
Proof. by destruct v. Qed.

Lemma payload_content_value it s :
  payload_content it = Some s <-> content_value it = Some (JStr s).
Proof.
  unfold payload_content, obj_string, content_value.
  destruct (obj_get "content" (payload it)) as [[]|]; split; try done;
    by intros [= ->].
Qed.

Lemma hasContent_true it :
  hasContent it = true <-> is_Some (content_value it).
Proof.
  unfold hasContent. destruct (content_value it); split; done.
Qed.

Lemma hasContent_false it : hasContent it = false <-> content_value it = None.
Proof. unfold hasContent. by destruct (content_value it). Qed.

Lemma content_value_set_content_value it v :
  content_value (set_content_value it v) = Some v.
Proof.
  unfold content_value, set_content_value; simpl. apply obj_get_set_eq.
Qed.

Lemma payload_content_set_content it s :
  payload_content (set_content it s) = Some s.
Proof.
  apply payload_content_value. apply content_value_set_content_value.
Qed.

Lemma set_content_value_same it v :
  same_but_content it (set_content_value it v).
Proof.
  repeat split. intros k Hk. unfold set_content_value; simpl.
  by apply obj_get_set_ne.
Qed.

Lemma set_content_same it s : same_but_content it (set_content it s).
Proof. apply set_content_value_same. Qed.
End Values.

(* ===================================================================== *)
(** ** The merge policy *)

Section MergePolicy.
Context `{JsRuntime}.

Lemma first_with_id_find id l i a :
  first_with_id id l i a <->
  list_find (fun item => item_id item = id) l = Some (i, a).
Proof. unfold first_with_id. by rewrite list_find_Some. Qed.

Lemma no_item_with_id_find id l :
  no_item_with_id id l <->
  list_find (fun item => item_id item = id) l = None.
Proof.
  unfold no_item_with_id. by rewrite list_find_None, Forall_forall.
Qed.

Lemma addOrUpdateItem_push task b mode :
  no_item_with_id (item_id b) (items task) ->
  addOrUpdateItem task b mode = Ok {| items := items task ++ [b] |}.
Proof.
  intros Hn%no_item_with_id_find. unfold addOrUpdateItem. by rewrite Hn.
Qed.

(** An append when both items have a content: the stored content is
    the sum, and what [+] throws is thrown. *)
Lemma addOrUpdateItem_append_value task b i a va vb :
  first_with_id (item_id b) (items task) i a ->
  content_value a = Some va -> content_value b = Some vb ->
  addOrUpdateItem task b Append =
    (v ← js_add va vb;
     Ok {| items := <[i := set_content_value a v]> (items task) |}).
Proof.
  intros Hf%first_with_id_find Ha Hb. unfold addOrUpdateItem.
  by rewrite Hf, Ha, Hb.
Qed.

Lemma addOrUpdateItem_append_merge task b i a ca cb :
  first_with_id (item_id b) (items task) i a ->
  payload_content a = Some ca -> payload_content b = Some cb ->
  addOrUpdateItem task b Append =
    Ok {| items := <[i := set_content a (ca +:+ cb)]> (items task) |}.
Proof.
  intros Hf Ha%payload_content_value Hb%payload_content_value.
  by rewrite (addOrUpdateItem_append_value _ _ _ _ _ _ Hf Ha Hb).
Qed.

Lemma addOrUpdateItem_append_replace task b i a :
  first_with_id (item_id b) (items task) i a ->
  hasContent a = false \/ hasContent b = false ->
  addOrUpdateItem task b Append =
    Ok {| items := <[i := b]> (items task) |}.
Proof.
  intros Hf%first_with_id_find Hc. unfold addOrUpdateItem. rewrite Hf.
  destruct Hc as [Hc|Hc]; apply hasContent_false in Hc; rewrite Hc;
    [done|]. by destruct (content_value a).
Qed.

Lemma addOrUpdateItem_replace task b i a :
  first_with_id (item_id b) (items task) i a ->
  addOrUpdateItem task b Replace =
    Ok {| items := <[i := b]> (items task) |}.
Proof.
  intros Hf%first_with_id_find. unfold addOrUpdateItem. by rewrite Hf.
Qed.

Lemma first_with_id_snoc l a :
  no_item_with_id (item_id a) l ->
  first_with_id (item_id a) (l ++ [a]) (length l) a.
Proof.
  intros Hn. split; [|split; [done|]].
  - by rewrite lookup_app_r, Nat.sub_diag by lia.
  - intros j y Hj Hlt. rewrite lookup_app_l in Hj by done.
    apply Hn. by eapply list_elem_of_lookup_2.
Qed.

(** C2, amended. Upserting [b] with mode append onto the stored item
    [a] of the same [item_id]: when both have string content, [a]
    stays in place with content [content a + content b] and every
    other field as it was; when either has no [content] property, [b]
    replaces [a]; when both have the property, whatever it holds, the
    stored content is the JavaScript sum of the two and [a] keeps its
    other fields, unless [+] throws, and then the upsert throws; when
    the task has no item of that id, [b] is pushed at the end whatever
    the mode; so two chunks [a], [b] with string content sent in that
    order to a task that knew neither end as one item with the
    concatenated content. *)
Theorem addOrUpdateItem_append_spec (task : TaskView) (b : ChatItem) :
  (forall i a ca cb,
      first_with_id (item_id b) (items task) i a ->
      payload_content a = Some ca -> payload_content b = Some cb ->
      exists a',
        addOrUpdateItem task b Append =
          Ok {| items := <[i := a']> (items task) |} /\
        payload_content a' = Some (ca +:+ cb) /\
        same_but_content a a') /\
  (forall i a,
      first_with_id (item_id b) (items task) i a ->
      hasContent a = false \/ hasContent b = false ->
      addOrUpdateItem task b Append =
        Ok {| items := <[i := b]> (items task) |}) /\
  (forall i a va vb,
      first_with_id (item_id b) (items task) i a ->
      content_value a = Some va -> content_value b = Some vb ->
      (forall v, js_add va vb = Ok v ->
         exists a',
           addOrUpdateItem task b Append =
             Ok {| items := <[i := a']> (items task) |} /\
           content_value a' = Some v /\
           same_but_content a a') /\
      (forall e, js_add va vb = Throw e ->
         addOrUpdateItem task b Append = Throw e)) /\
  (forall mode,
      no_item_with_id (item_id b) (items task) ->
      addOrUpdateItem task b mode = Ok {| items := items task ++ [b] |}) /\
  (forall a mode ca cb,
      item_id a = item_id b ->
      no_item_with_id (item_id a) (items task) ->
      payload_content a = Some ca -> payload_content b = Some cb ->
      exists a',
        (task1 ← addOrUpdateItem task a mode;
         addOrUpdateItem task1 b Append) =
          Ok {| items := items task ++ [a'] |} /\
        payload_content a' = Some (ca +:+ cb) /\
        same_but_content a a').
Proof.
  split; [|split; [|split; [|split]]].
  - intros i a ca cb Hf Ha Hb. exists (set_content a (ca +:+ cb)).
    split; [by eapply addOrUpdateItem_append_merge|].
    split; [apply payload_content_set_content|apply set_content_same].
  - apply addOrUpdateItem_append_replace.
  - intros i a va vb Hf Ha Hb.
    rewrite (addOrUpdateItem_append_value _ _ _ _ _ _ Hf Ha Hb).
    split.
    + intros v ->. exists (set_content_value a v).
      split; [done|].
      split; [apply content_value_set_content_value
             |apply set_content_value_same].
    + by intros e ->.
  - intros mode. apply addOrUpdateItem_push.
  - intros a mode ca cb Hid Hn Ha Hb.
    exists (set_content a (ca +:+ cb)).
    split; [|split; [apply payload_content_set_content
                    |apply set_content_same]].
    rewrite (addOrUpdateItem_push _ _ _ Hn).
    cbn [mbind result_bind rbind].
    rewrite (addOrUpdateItem_append_merge _ b (length (items task)) a ca cb);
      try done.
    + simpl. by rewrite insert_app_r_alt, Nat.sub_diag by lia.
    + rewrite <- Hid. by apply first_with_id_snoc.
Qed.
End MergePolicy.

(* ===================================================================== *)
(** ** Paths *)

Section Paths.
Context `{JsRuntime}.
Variable AGENT_SECTION_COMPONENT_TYPE : list string.

Local Abbreviation cfg := AGENT_SECTION_COMPONENT_TYPE.
Implicit Types (d : AgentConversationsStore) (c : ConversationView).

Lemma bind_Ok {A B} (r : result A) (k : A -> result B) b :
  r ≫= k = Ok b <-> exists a, r = Ok a /\ k a = Ok b.
Proof.
  destruct r as [a|e]; simpl; split.
  - intros Hk. by exists a.
  - by intros (a' & [= <-] & Hk).
  - done.
  - by intros (a' & [=] & _).
Qed.

Lemma lookup_map_ensure_eq {V} (k : string) (v : V) (m : gmap string V) :
  map_ensure k v m !! k =
    match m !! k with
    | Some x => Some x
    | None => if inherited k then None else Some v
    end.
Proof.
  unfold map_ensure. destruct (m !! k) eqn:Hm; [done|].
  destruct (inherited k); [done|]. by rewrite lookup_insert_eq.
Qed.

Lemma lookup_map_ensure_ne {V} (k k' : string) (v : V) (m : gmap string V) :
  k <> k' -> map_ensure k v m !! k' = m !! k'.
Proof.
  intros Hne. unfold map_ensure. destruct (m !! k); [done|].
  destruct (inherited k); [done|]. by rewrite lookup_insert_ne.
Qed.

Lemma insert_map_ensure {V} (k : string) (v x : V) (m : gmap string V) :
  <[k := x]> (map_ensure k v m) = <[k := x]> m.
Proof.
  unfold map_ensure. destruct (m !! k); [done|].
  destruct (inherited k); [done|]. apply insert_insert_eq.
Qed.

Lemma obj_get_ensure_eq {V} (k : string) (v : V) (o : jsobj V) :
  obj_get k (obj_ensure k v o) =
    match obj_get k o with
    | Some x => Some x
    | None => if inherited k then None else Some v
    end.
Proof.
  unfold obj_ensure. destruct (obj_has k o) eqn:Hh; simpl.
  - apply obj_has_true in Hh as [x Hx]. by rewrite Hx.
  - apply obj_has_false in Hh. rewrite Hh.
    destruct (inherited k); [done|]. apply obj_get_set_eq.
Qed.

Lemma obj_get_ensure_ne {V} (k k' : string) (v : V) (o : jsobj V) :
  k <> k' -> obj_get k' (obj_ensure k v o) = obj_get k' o.
Proof.
  intros Hne. unfold obj_ensure.
  destruct (obj_has k o || inherited k); [done|].
  by apply obj_get_set_ne.
Qed.

(** The items under a key are those that were there. *)
Lemma items_of_obj_ensure k k' (o : jsobj TaskView) :
  items_of (obj_get k' (obj_ensure k empty_task o)) = items_of (obj_get k' o).
Proof.
  destruct (decide (k = k')) as [<-|Hne].
  - rewrite obj_get_ensure_eq. destruct (obj_get k o); [done|].
    by destruct (inherited k).
  - by rewrite obj_get_ensure_ne.
Qed.

(** *** The step on the addressed conversation *)

Lemma at_conversation_spec g cid d :
  at_conversation g cid d =
    match d !! cid with
    | Some c => c' ← g c; Ok (<[cid := c']> d)
    | None =>
        if inherited cid then Throw TypeError
        else c' ← g empty_conversation; Ok (<[cid := c']> d)
    end.
Proof.
  unfold at_conversation, on_conversation.
  rewrite lookup_map_ensure_eq.
  destruct (d !! cid) as [c|] eqn:Hd.
  - by destruct (g c); simpl; rewrite ?insert_map_ensure.
  - destruct (inherited cid); [done|].
    by destruct (g _); simpl; rewrite ?insert_map_ensure.
Qed.

Lemma at_conversation_Ok g cid d d' :
  at_conversation g cid d = Ok d' <->
  (is_Some (d !! cid) \/ ordinary cid) /\
  exists c', g (default empty_conversation (d !! cid)) = Ok c' /\
             d' = <[cid := c']> d.
Proof.
  rewrite at_conversation_spec. unfold ordinary.
  destruct (d !! cid) as [c|] eqn:Hd; simpl.
  - rewrite bind_Ok. split.
    + intros (c' & Hg & [= <-]). split; [by left|]. by exists c'.
    + intros (_ & c' & Hg & ->). by exists c'.
  - destruct (inherited cid).
    + split; [done|]. by intros ([[? [=]]|[=]] & _).
    + rewrite bind_Ok. split.
      * intros (c' & Hg & [= <-]). split; [by right|]. by exists c'.
      * intros (_ & c' & Hg & ->). by exists c'.
Qed.

Lemma at_conversation_Throw g cid d :
  d !! cid = None -> inherited cid = true ->
  at_conversation g cid d = Throw TypeError.
Proof. intros Hd Hi. by rewrite at_conversation_spec, Hd, Hi. Qed.

Lemma at_conversation_then_on g h cid d :
  (d1 ← at_conversation g cid d; on_conversation h cid d1) =
    at_conversation (fun c => c1 ← g c; h c1) cid d.
Proof.
  rewrite !at_conversation_spec. unfold on_conversation.
  destruct (d !! cid) as [c|] eqn:Hd.
  - destruct (g c) as [c1|]; simpl; [|done].
    rewrite lookup_insert_eq.
    by destruct (h c1); simpl; rewrite ?insert_insert_eq.
  - destruct (inherited cid); [done|].
    destruct (g _) as [c1|]; simpl; [|done].
    rewrite lookup_insert_eq.
    by destruct (h c1); simpl; rewrite ?insert_insert_eq.
Qed.

Lemma at_conversation_twice g h cid d :
  (d1 ← at_conversation g cid d; at_conversation h cid d1) =
    at_conversation (fun c => c1 ← g c; h c1) cid d.
Proof.
  rewrite (at_conversation_spec g), (at_conversation_spec (fun c => _)).
  destruct (d !! cid) as [c|] eqn:Hd.
  - destruct (g c) as [c1|]; simpl; [|done].
    rewrite at_conversation_spec, lookup_insert_eq.
    by destruct (h c1); simpl; rewrite ?insert_insert_eq.
  - destruct (inherited cid); [done|].
    destruct (g _) as [c1|]; simpl; [|done].
    rewrite at_conversation_spec, lookup_insert_eq.
    by destruct (h c1); simpl; rewrite ?insert_insert_eq.
Qed.

Lemma at_conversation_ext g h cid d :
  (forall c, g c = h c) -> at_conversation g cid d = at_conversation h cid d.
Proof.
  intros Hgh. rewrite !at_conversation_spec.
  destruct (d !! cid) as [c|]; [by rewrite Hgh|].
  destruct (inherited cid); [done|]. by rewrite Hgh.
Qed.

(** An event that returns has touched the addressed conversation
    only. *)
Lemma at_conversation_lookup_ne g cid d d' cid' :
  at_conversation g cid d = Ok d' -> cid <> cid' -> d' !! cid' = d !! cid'.
Proof.
  intros (_ & c' & _ & ->)%at_conversation_Ok Hne.
  by rewrite lookup_insert_ne.
Qed.

Lemma ensurePath_at d cid tid kid :
  ensurePath d cid tid kid =
    at_conversation (ensure_thread_task tid kid) cid d.
Proof. done. Qed.

Lemma handleChatItemEvent_at d item mode :
  handleChatItemEvent cfg d item mode =
    at_conversation (handle_conversation cfg item mode)
      (conversation_id item) d.
Proof.
  unfold handleChatItemEvent. rewrite ensurePath_at.
  exact (at_conversation_then_on _ _ _ _).
Qed.

(** *** Threads and tasks of a conversation *)

Lemma ensure_thread_task_Ok tid kid c c1 :
  ensure_thread_task tid kid c = Ok c1 <->
  (is_Some (threads c !! tid) \/ ordinary tid) /\
  c1 = with_thread_task tid kid c.
Proof.
  unfold ensure_thread_task, with_thread_task, conv_thread, ordinary.
  rewrite lookup_map_ensure_eq.
  destruct (threads c !! tid) as [th|] eqn:Ht; simpl.
  - rewrite insert_map_ensure. split.
    + intros [= <-]. split; [by left|done].
    + by intros (_ & ->).
  - destruct (inherited tid).
    + split; [done|]. by intros ([[? [=]]|[=]] & _).
    + rewrite insert_map_ensure. split.
      * intros [= <-]. split; [by right|done].
      * by intros (_ & ->).
Qed.

Lemma ensure_thread_task_Throw tid kid c :
  threads c !! tid = None -> inherited tid = true ->
  ensure_thread_task tid kid c = Throw TypeError.
Proof.
  intros Ht Hi. unfold ensure_thread_task.
  by rewrite lookup_map_ensure_eq, Ht, Hi.
Qed.

Lemma ensure_thread_task_cases tid kid c :
  ensure_thread_task tid kid c = Ok (with_thread_task tid kid c) \/
  ensure_thread_task tid kid c = Throw TypeError.
Proof.
  destruct (threads c !! tid) as [th|] eqn:Ht.
  - left. apply ensure_thread_task_Ok. split; [|done]. left. by eexists.
  - destruct (inherited tid) eqn:Hi.
    + right. by apply ensure_thread_task_Throw.
    + left. apply ensure_thread_task_Ok. split; [by right|done].
Qed.

Lemma ensureSection_Ok c kind kid c1 :
  ensureSection c kind kid = Ok c1 <->
  (is_Some (sections c !! kind) \/ ordinary kind) /\
  c1 = with_section_task kind kid c.
Proof.
  unfold ensureSection, with_section_task, conv_section, ordinary.
  rewrite lookup_map_ensure_eq.
  destruct (sections c !! kind) as [th|] eqn:Ht; simpl.
  - rewrite insert_map_ensure. split.
    + intros [= <-]. split; [by left|done].
    + by intros (_ & ->).
  - destruct (inherited kind).
    + split; [done|]. by intros ([[? [=]]|[=]] & _).
    + rewrite insert_map_ensure. split.
      * intros [= <-]. split; [by right|done].
      * by intros (_ & ->).
Qed.

Lemma update_thread_task_Ok f tid kid c c' :
  update_thread_task f tid kid c = Ok c' <->
  exists task task',
    conv_task c tid kid = Some task /\ f task = Ok task' /\
    c' = alter_thread_task (fun _ => task') tid kid c.
Proof.
  unfold update_thread_task.
  destruct (conv_task c tid kid) as [task|]; simpl.
  - rewrite bind_Ok. split.
    + intros (task' & Hf & [= <-]). by exists task, task'.
    + intros (? & task' & [= <-] & Hf & ->). by exists task'.
  - split; [done|]. by intros (? & ? & [=] & _).
Qed.

Lemma update_section_task_Ok f kind kid c c' :
  update_section_task f kind kid c = Ok c' <->
  exists task task',
    conv_section_task c kind kid = Some task /\ f task = Ok task' /\
    c' = alter_section (fun _ => task') kind kid c.
Proof.
  unfold update_section_task.
  destruct (conv_section_task c kind kid) as [task|]; simpl.
  - rewrite bind_Ok. split.
    + intros (task' & Hf & [= <-]). by exists task, task'.
    + intros (? & task' & [= <-] & Hf & ->). by exists task'.
  - split; [done|]. by intros (? & ? & [=] & _).
Qed.

Lemma task_at_insert d cid c tid kid :
  task_at (<[cid := c]> d) cid tid kid = conv_task c tid kid.
Proof. unfold task_at. by rewrite lookup_insert_eq. Qed.

Lemma section_task_at_insert d cid c kind kid :
  section_task_at (<[cid := c]> d) cid kind kid =
    conv_section_task c kind kid.
Proof. unfold section_task_at. by rewrite lookup_insert_eq. Qed.

Lemma conv_task_empty tid kid : conv_task empty_conversation tid kid = None.
Proof. done. Qed.

Lemma conv_section_task_empty kind kid :
  conv_section_task empty_conversation kind kid = None.
Proof. done. Qed.

Lemma task_at_conv d cid tid kid :
  task_at d cid tid kid =
    conv_task (default empty_conversation (d !! cid)) tid kid.
Proof. unfold task_at. by destruct (d !! cid). Qed.

Lemma section_task_at_conv d cid kind kid :
  section_task_at d cid kind kid =
    conv_section_task (default empty_conversation (d !! cid)) kind kid.
Proof. unfold section_task_at. by destruct (d !! cid). Qed.

(** The task [ensurePath] returns: the one that was there, a new
    empty one, or none when the name is one of Object.prototype. *)
Lemma conv_task_with_thread_task c tid kid :
  conv_task (with_thread_task tid kid c) tid kid =
    match conv_task c tid kid with
    | Some task => Some task
    | None => if inherited kid then None else Some empty_task
    end.
Proof.
  unfold conv_task, with_thread_task, conv_thread; simpl.
  rewrite lookup_insert_eq; simpl. rewrite obj_get_ensure_eq.
  by destruct (threads c !! tid).
Qed.

Lemma conv_task_with_thread_task_Some c tid kid task :
  conv_task (with_thread_task tid kid c) tid kid = Some task ->
  task = default empty_task (conv_task c tid kid) /\
  (is_Some (conv_task c tid kid) \/ ordinary kid).
Proof.
  rewrite conv_task_with_thread_task. unfold ordinary.
  destruct (conv_task c tid kid) as [t|]; simpl.
  - intros [= <-]. split; [done|]. left. by eexists.
  - destruct (inherited kid); [done|]. intros [= <-]. by split; [|right].
Qed.

Lemma items_with_thread_task c tid kid tid' kid' :
  items_of (conv_task (with_thread_task tid kid c) tid' kid') =
    items_of (conv_task c tid' kid').
Proof.
  unfold conv_task, with_thread_task, conv_thread; simpl.
  destruct (decide (tid = tid')) as [<-|Hne].
  - rewrite lookup_insert_eq; simpl. rewrite items_of_obj_ensure.
    by destruct (threads c !! tid).
  - by rewrite lookup_insert_ne.
Qed.

Lemma conv_section_task_with_thread_task c tid kid kind kid' :
  conv_section_task (with_thread_task tid kid c) kind kid' =
    conv_section_task c kind kid'.
Proof. done. Qed.

Lemma conv_task_with_section_task c kind kid tid kid' :
  conv_task (with_section_task kind kid c) tid kid' = conv_task c tid kid'.
Proof. done. Qed.

Lemma conv_section_task_with_section_task c kind kid :
  conv_section_task (with_section_task kind kid c) kind kid =
    match conv_section_task c kind kid with
    | Some task => Some task
    | None => if inherited kid then None else Some empty_task
    end.
Proof.
  unfold conv_section_task, with_section_task, conv_section; simpl.
  rewrite lookup_insert_eq; simpl. rewrite obj_get_ensure_eq.
  by destruct (sections c !! kind).
Qed.

Lemma conv_section_task_with_section_task_Some c kind kid task :
  conv_section_task (with_section_task kind kid c) kind kid = Some task ->
  task = default empty_task (conv_section_task c kind kid) /\
  (is_Some (conv_section_task c kind kid) \/ ordinary kid).
Proof.
  rewrite conv_section_task_with_section_task. unfold ordinary.
  destruct (conv_section_task c kind kid) as [t|]; simpl.
  - intros [= <-]. split; [done|]. left. by eexists.
  - destruct (inherited kid); [done|]. intros [= <-]. by split; [|right].
Qed.

Lemma items_with_section_task c kind kid kind' kid' :
  items_of (conv_section_task (with_section_task kind kid c) kind' kid') =
    items_of (conv_section_task c kind' kid').
Proof.
  unfold conv_section_task, with_section_task, conv_section; simpl.
  destruct (decide (kind = kind')) as [<-|Hne].
  - rewrite lookup_insert_eq; simpl. rewrite items_of_obj_ensure.
    by destruct (sections c !! kind).
  - by rewrite lookup_insert_ne.
Qed.

Lemma conv_task_alter_eq f c tid kid :
  conv_task (alter_thread_task f tid kid c) tid kid =
    f <$> conv_task c tid kid.
Proof.
  unfold conv_task, alter_thread_task; simpl. rewrite lookup_alter_eq.
  destruct (threads c !! tid) as [th|]; simpl; [|done].
  apply obj_get_alter_eq.
Qed.

Lemma conv_task_alter_ne f c tid kid tid' kid' :
  (tid, kid) <> (tid', kid') ->
  conv_task (alter_thread_task f tid kid c) tid' kid' =
    conv_task c tid' kid'.
Proof.
  intros Hne. unfold conv_task, alter_thread_task; simpl.
  destruct (decide (tid = tid')) as [<-|Hnt].
  - rewrite lookup_alter_eq.
    destruct (threads c !! tid) as [th|]; simpl; [|done].
    apply obj_get_alter_ne. congruence.
  - by rewrite lookup_alter_ne.
Qed.

Lemma conv_section_task_alter_thread_task f c tid kid kind kid' :
  conv_section_task (alter_thread_task f tid kid c) kind kid' =
    conv_section_task c kind kid'.
Proof. done. Qed.

Lemma conv_section_task_alter_eq f c kind kid :
  conv_section_task (alter_section f kind kid c) kind kid =
    f <$> conv_section_task c kind kid.
Proof.
  unfold conv_section_task, alter_section; simpl. rewrite lookup_alter_eq.
  destruct (sections c !! kind) as [th|]; simpl; [|done].
  apply obj_get_alter_eq.
Qed.

Lemma conv_section_task_alter_ne f c kind kid kind' kid' :
  (kind, kid) <> (kind', kid') ->
  conv_section_task (alter_section f kind kid c) kind' kid' =
    conv_section_task c kind' kid'.
Proof.
  intros Hne. unfold conv_section_task, alter_section; simpl.
  destruct (decide (kind = kind')) as [<-|Hnt].
  - rewrite lookup_alter_eq.
    destruct (sections c !! kind) as [th|]; simpl; [|done].
    apply obj_get_alter_ne. congruence.
  - by rewrite lookup_alter_ne.
Qed.

Lemma conv_task_alter_section f c kind kid tid kid' :
  conv_task (alter_section f kind kid c) tid kid' = conv_task c tid kid'.
Proof. done. Qed.

(** The update of the task [ensurePath] has returned. *)
Lemma update_ensured_thread_task_Ok f tid kid c c' :
  (c1 ← ensure_thread_task tid kid c; update_thread_task f tid kid c1)
    = Ok c' <->
  (is_Some (threads c !! tid) \/ ordinary tid) /\
  (is_Some (conv_task c tid kid) \/ ordinary kid) /\
  exists task',
    f (default empty_task (conv_task c tid kid)) = Ok task' /\
    c' = alter_thread_task (fun _ => task') tid kid
           (with_thread_task tid kid c).
Proof.
  rewrite bind_Ok. split.
  - intros (c1 & (Ht & ->)%ensure_thread_task_Ok & Hu).
    apply update_thread_task_Ok in Hu as (task & task' & Hc & Hf & ->).
    apply conv_task_with_thread_task_Some in Hc as [-> Hk].
    split; [done|]. split; [done|]. by exists task'.
  - intros (Ht & Hk & task' & Hf & ->).
    exists (with_thread_task tid kid c).
    split; [by apply ensure_thread_task_Ok|].
    apply update_thread_task_Ok.
    exists (default empty_task (conv_task c tid kid)), task'.
    split; [|done]. rewrite conv_task_with_thread_task.
    destruct (conv_task c tid kid); [done|].
    destruct Hk as [[? [=]]|Hk]. unfold ordinary in Hk. by rewrite Hk.
Qed.

Lemma update_ensured_section_task_Ok f kind kid c c' :
  (c1 ← ensureSection c kind kid; update_section_task f kind kid c1)
    = Ok c' <->
  (is_Some (sections c !! kind) \/ ordinary kind) /\
  (is_Some (conv_section_task c kind kid) \/ ordinary kid) /\
  exists task',
    f (default empty_task (conv_section_task c kind kid)) = Ok task' /\
    c' = alter_section (fun _ => task') kind kid
           (with_section_task kind kid c).
Proof.
  rewrite bind_Ok. split.
  - intros (c1 & (Ht & ->)%ensureSection_Ok & Hu).
    apply update_section_task_Ok in Hu as (task & task' & Hc & Hf & ->).
    apply conv_section_task_with_section_task_Some in Hc as [-> Hk].
    split; [done|]. split; [done|]. by exists task'.
  - intros (Ht & Hk & task' & Hf & ->).
    exists (with_section_task kind kid c).
    split; [by apply ensureSection_Ok|].
    apply update_section_task_Ok.
    exists (default empty_task (conv_section_task c kind kid)), task'.
    split; [|done]. rewrite conv_section_task_with_section_task.
    destruct (conv_section_task c kind kid); [done|].
    destruct Hk as [[? [=]]|Hk]. unfold ordinary in Hk. by rewrite Hk.
Qed.

Lemma thread_at_insert d cid c tid :
  thread_at (<[cid := c]> d) cid tid = conv_thread c tid.
Proof. unfold thread_at. by rewrite lookup_insert_eq. Qed.

Lemma recognized_component_generator : "component_generator" ∈ RECOGNIZED_EVENTS.
Proof. apply list_elem_of_here. Qed.

Lemma recognized_markdown e : e ∈ MARKDOWN_EVENTS -> e ∈ RECOGNIZED_EVENTS.
Proof.
  intros He. apply list_elem_of_further, elem_of_app. by left.
Qed.

Lemma recognized_reasoning e :
  e ∈ ["reasoning"; "reasoning_started"; "reasoning_completed"] ->
  e ∈ RECOGNIZED_EVENTS.
Proof.
  intros He. apply list_elem_of_further, elem_of_app. right.
  apply elem_of_app. by left.
Qed.

Lemma recognized_tool_call e : e ∈ TOOL_CALL_EVENTS -> e ∈ RECOGNIZED_EVENTS.
Proof.
  intros He. apply list_elem_of_further, elem_of_app. right.
  apply elem_of_app. by right.
Qed.

Lemma recognized_cases e :
  e ∈ RECOGNIZED_EVENTS ->
  e = "component_generator" \/ e ∈ MARKDOWN_EVENTS \/ e = "reasoning" \/
  e = "reasoning_started" \/ e = "reasoning_completed" \/
  e ∈ TOOL_CALL_EVENTS.
Proof.
  unfold RECOGNIZED_EVENTS.
  rewrite elem_of_cons, !elem_of_app, !elem_of_cons, elem_of_nil.
  tauto.
Qed.

(** The dispatch is a step on the conversation the event addresses. *)
Lemma processSSEEvent_at d sse :
  processSSEEvent cfg d sse =
    if bool_decide (event sse ∈ RECOGNIZED_EVENTS)
    then at_conversation (process_conversation cfg sse)
           (d_conversation_id (data sse)) d
    else Ok d.
Proof.
  unfold processSSEEvent, process_conversation.
  destruct (decide (event sse = "component_generator")) as [He|He].
  { rewrite (bool_decide_eq_true_2 (event sse ∈ RECOGNIZED_EVENTS))
      by (rewrite He; apply recognized_component_generator).
    destruct (_ || _); apply handleChatItemEvent_at. }
  destruct (bool_decide (event sse ∈ MARKDOWN_EVENTS)) eqn:Hm.
  { apply bool_decide_eq_true in Hm.
    rewrite (bool_decide_eq_true_2 (event sse ∈ RECOGNIZED_EVENTS))
      by by apply recognized_markdown.
    apply handleChatItemEvent_at. }
  apply bool_decide_eq_false in Hm.
  destruct (decide (event sse = "reasoning")) as [Hr|Hr].
  { rewrite (bool_decide_eq_true_2 (event sse ∈ RECOGNIZED_EVENTS))
      by (rewrite Hr; apply recognized_reasoning; set_solver).
    apply handleChatItemEvent_at. }
  destruct (decide (event sse = "reasoning_started")) as [Hs|Hs].
  { rewrite (bool_decide_eq_true_2 (event sse ∈ RECOGNIZED_EVENTS))
      by (rewrite Hs; apply recognized_reasoning; set_solver).
    apply handleChatItemEvent_at. }
  destruct (decide (event sse = "reasoning_completed")) as [Hc|Hc].
  { rewrite (bool_decide_eq_true_2 (event sse ∈ RECOGNIZED_EVENTS))
      by (rewrite Hc; apply recognized_reasoning; set_solver).
    rewrite ensurePath_at. exact (at_conversation_then_on _ _ _ _). }
  destruct (bool_decide (event sse ∈ TOOL_CALL_EVENTS)) eqn:Ht.
  - apply bool_decide_eq_true in Ht.
    rewrite (bool_decide_eq_true_2 (event sse ∈ RECOGNIZED_EVENTS))
      by by apply recognized_tool_call.
    rewrite ensurePath_at, !at_conversation_spec.
    destruct (d !! d_conversation_id (data sse)) as [c|] eqn:Hd.
    + destruct (ensure_thread_task _ _ c) as [c1|]; simpl; [|done].
      rewrite thread_at_insert.
      destruct (plannedStepLabel _ _) as [label|]; simpl; [|done].
      rewrite handleChatItemEvent_at, at_conversation_spec.
      cbn [conversation_id with_payload item_of_data].
      rewrite lookup_insert_eq.
      by destruct (handle_conversation _ _ _ _); simpl;
        rewrite ?insert_insert_eq.
    + destruct (inherited _); [done|].
      destruct (ensure_thread_task _ _ _) as [c1|]; simpl; [|done].
      rewrite thread_at_insert.
      destruct (plannedStepLabel _ _) as [label|]; simpl; [|done].
      rewrite handleChatItemEvent_at, at_conversation_spec.
      cbn [conversation_id with_payload item_of_data].
      rewrite lookup_insert_eq.
      by destruct (handle_conversation _ _ _ _); simpl;
        rewrite ?insert_insert_eq.
  - apply bool_decide_eq_false in Ht.
    rewrite (bool_decide_eq_false_2 (event sse ∈ RECOGNIZED_EVENTS));
      [done|].
    intros Hin%recognized_cases. tauto.
Qed.

Lemma processSSEEvent_unrecognized d sse :
  event sse ∉ RECOGNIZED_EVENTS -> processSSEEvent cfg d sse = Ok d.
Proof.
  intros He. by rewrite processSSEEvent_at, bool_decide_eq_false_2.
Qed.

Lemma processSSEEvent_recognized d sse :
  event sse ∈ RECOGNIZED_EVENTS ->
  processSSEEvent cfg d sse =
    at_conversation (process_conversation cfg sse)
      (d_conversation_id (data sse)) d.
Proof.
  intros He. by rewrite processSSEEvent_at, bool_decide_eq_true_2.
Qed.

(** An event that returns has touched the addressed conversation
    only. *)
Lemma processSSEEvent_lookup_ne d sse d' cid :
  processSSEEvent cfg d sse = Ok d' ->
  d_conversation_id (data sse) <> cid -> d' !! cid = d !! cid.
Proof.
  rewrite processSSEEvent_at. case_bool_decide.
  - apply at_conversation_lookup_ne.
  - by intros [= <-].
Qed.
End Paths.

(* ===================================================================== *)
(** ** Reasoning completion and the structured append *)

Section Reasoning.
Context `{JsRuntime}.
Variable AGENT_SECTION_COMPONENT_TYPE : list string.

Local Abbreviation cfg := AGENT_SECTION_COMPONENT_TYPE.
Implicit Types (d : AgentConversationsStore) (c : ConversationView).

Lemma path_resolves_ordinary d cid tid kid :
  ordinary cid -> ordinary tid -> ordinary kid -> path_resolves d cid tid kid.
Proof. intros. repeat split; by right. Qed.

Lemma path_resolves_task d cid tid kid :
  is_Some (task_at d cid tid kid) -> path_resolves d cid tid kid.
Proof.
  intros Ht. split; [|split; [|by left]]; left;
    destruct Ht as [task Ht]; unfold task_at, conv_task in Ht.
  - destruct (d !! cid); [by eexists|done].
  - destruct (d !! cid) as [c|]; simpl in *; [|done].
    destruct (threads c !! tid); [by eexists|done].
Qed.

(** A step [f] on the task [ensurePath] returns: when it returns, the
    task is there, updated; and it returns when the path resolves and
    [f] returns. *)
Lemma at_task_Ok f cid tid kid d d' :
  at_conversation
    (fun c => c1 ← ensure_thread_task tid kid c;
              update_thread_task f tid kid c1) cid d = Ok d' ->
  path_resolves d cid tid kid /\
  exists task',
    f (default empty_task (task_at d cid tid kid)) = Ok task' /\
    task_at d' cid tid kid = Some task'.
Proof.
  intros (Hc & c' & Hu & ->)%at_conversation_Ok.
  apply update_ensured_thread_task_Ok in Hu as (Ht & Hk & task' & Hf & ->).
  rewrite <- task_at_conv in Hk, Hf. split; [done|].
  exists task'. split; [done|].
  rewrite task_at_insert, conv_task_alter_eq, conv_task_with_thread_task.
  rewrite <- task_at_conv.
  destruct (task_at d cid tid kid); [done|].
  destruct Hk as [[? [=]]|Hk]. unfold ordinary in Hk. by rewrite Hk.
Qed.

Lemma at_task_returns f cid tid kid d task' :
  path_resolves d cid tid kid ->
  f (default empty_task (task_at d cid tid kid)) = Ok task' ->
  exists d',
    at_conversation
      (fun c => c1 ← ensure_thread_task tid kid c;
                update_thread_task f tid kid c1) cid d = Ok d'.
Proof.
  intros (Hc & Ht & Hk) Hf. eexists. apply at_conversation_Ok.
  split; [done|]. eexists. split; [|done].
  apply update_ensured_thread_task_Ok. rewrite <- task_at_conv.
  split; [done|]. split; [done|]. by exists task'.
Qed.

Lemma completed_record_fields v :
  exists record,
    completed_record v = JSON_stringify (JObj record) /\
    record = obj_set "isComplete" (JBool true) (js_spread v) /\
    obj_get "isComplete" record = Some (JBool true) /\
    forall k, k <> "isComplete" -> obj_get k record = obj_get k (js_spread v).
Proof.
  eexists. split; [reflexivity|]. split; [reflexivity|].
  split; [apply obj_get_set_eq|]. intros k Hk. by apply obj_get_set_ne.
Qed.

Lemma markReasoningComplete_found task id i it content :
  first_with_id id (items task) i it ->
  content_value it = Some content ->
  markReasoningComplete task id =
    {| items :=
         <[i := set_content it
                  (try_catch
                     (parsed ← json_parse content;
                      mret (completed_record parsed))
                     (wrapped_record content))]>
           (items task) |}.
Proof.
  intros Hf%first_with_id_find Hc. unfold markReasoningComplete.
  by rewrite Hf, Hc.
Qed.

Lemma markReasoningComplete_no_content task id i it :
  first_with_id id (items task) i it -> hasContent it = false ->
  markReasoningComplete task id = task.
Proof.
  intros Hf%first_with_id_find Hc%hasContent_false.
  unfold markReasoningComplete. by rewrite Hf, Hc.
Qed.

Lemma markReasoningComplete_absent task id :
  no_item_with_id id (items task) -> markReasoningComplete task id = task.
Proof.
  intros Hn%no_item_with_id_find. unfold markReasoningComplete.
  by rewrite Hn.
Qed.

Lemma process_reasoning_completed d sse :
  event sse = "reasoning_completed" ->
  processSSEEvent cfg d sse =
    at_conversation
      (fun c =>
         c1 ← ensure_thread_task (d_thread_id (data sse))
                (d_task_id (data sse)) c;
         update_thread_task
           (fun task =>
              Ok (markReasoningComplete task (d_item_id (data sse))))
           (d_thread_id (data sse)) (d_task_id (data sse)) c1)
      (d_conversation_id (data sse)) d.
Proof.
  intros He. unfold processSSEEvent. rewrite He, ensurePath_at.
  exact (at_conversation_then_on _ _ _ _).
Qed.

(** The completion record of a content, as read back from the item. *)
Lemma completion_of_content it content :
  let it' :=
    set_content it
      (try_catch
         (parsed ← json_parse content; mret (completed_record parsed))
         (wrapped_record content)) in
  same_but_content it it' /\
  (forall v, json_parse content = Ok v ->
     payload_content it' = Some (completed_record v)) /\
  (forall e, json_parse content = Throw e ->
     payload_content it' = Some (wrapped_record content)).
Proof.
  intros it'. split; [apply set_content_same|].
  unfold it'. split.
  - intros v ->. apply payload_content_set_content.
  - intros e ->. apply payload_content_set_content.
Qed.

(** C7. A reasoning-completed event that returns has left, at the
    address the event names, the task that was there (or an empty one)
    with [markReasoningComplete] applied; it returns when that task
    exists, or when the names of the address are none of
    Object.prototype.  In the task, the item found by the event's
    [item_id], when it has a [content] property, keeps its place and
    every other field, and the content read back from it is: when the
    old content deserializes, the serialized record with [isComplete:
    true] and every other key as the spread of the parsed value has it
    (for a parsed object: as the object has it, the accumulated
    [content] among them); when it does not, the serialized record
    [{content: raw, isComplete: true}].  A task with no such item, or
    an item with no [content] property, stays as it is. *)
Theorem markReasoningComplete_spec (d : AgentConversationsStore)
    (sse : SSEData) :
  event sse = "reasoning_completed" ->
  let cid := d_conversation_id (data sse) in
  let tid := d_thread_id (data sse) in
  let kid := d_task_id (data sse) in
  let id := d_item_id (data sse) in
  let task := default empty_task (task_at d cid tid kid) in
  (forall d', processSSEEvent cfg d sse = Ok d' ->
     task_at d' cid tid kid = Some (markReasoningComplete task id)) /\
  (path_resolves d cid tid kid ->
     exists d', processSSEEvent cfg d sse = Ok d') /\
  (is_Some (task_at d cid tid kid) \/
   (ordinary cid /\ ordinary tid /\ ordinary kid) ->
     path_resolves d cid tid kid) /\
  (forall i it content,
     first_with_id id (items task) i it ->
     content_value it = Some content ->
     exists it',
       markReasoningComplete task id =
         {| items := <[i := it']> (items task) |} /\
       same_but_content it it' /\
       (forall v, json_parse content = Ok v ->
          exists record,
            payload_content it' = Some (JSON_stringify (JObj record)) /\
            obj_get "isComplete" record = Some (JBool true) /\
            (forall k, k <> "isComplete" ->
               obj_get k record = obj_get k (js_spread v)) /\
            (forall o k, v = JObj o -> k <> "isComplete" ->
               obj_get k record = obj_get k o)) /\
       (forall e, json_parse content = Throw e ->
          payload_content it' =
            Some (JSON_stringify
                    (JObj [("content", content);
                           ("isComplete", JBool true)])))) /\
  (forall i it,
     first_with_id id (items task) i it -> hasContent it = false ->
     markReasoningComplete task id = task) /\
  (no_item_with_id id (items task) ->
   markReasoningComplete task id = task).
Proof.
  intros He cid tid kid id task.
  split; [|split; [|split; [|split; [|split]]]].
  - intros d' Hd'. rewrite process_reasoning_completed in Hd' by done.
    apply at_task_Ok in Hd' as (_ & task' & [= <-] & Ht). exact Ht.
  - intros Hp. rewrite process_reasoning_completed by done.
    by eapply at_task_returns.
  - intros [Ht|(Hc & Ht & Hk)];
      [by apply path_resolves_task|by apply path_resolves_ordinary].
  - intros i it content Hf Hc. eexists.
    split; [by eapply markReasoningComplete_found|].
    destruct (completion_of_content it content) as (Hsame & Hok & Hthrow).
    split; [exact Hsame|]. split.
    + intros v Hv.
      destruct (completed_record_fields v) as (record & Hr & _ & Hic & Hk).
      exists record. rewrite <- Hr. split; [by apply Hok|].
      split; [done|]. split; [done|]. intros o k -> Hne. by apply Hk.
    + intros e Hv. by eapply Hthrow.
  - intros i it. apply markReasoningComplete_no_content.
  - apply markReasoningComplete_absent.
Qed.

(** C10. The completion looks at the [item_id] only: whatever the
    component kind of the item found in the addressed task, if it has
    string content the event returns and has rewritten that content,
    read back from the item left in its place with every other field
    as it was, to a serialized record with [isComplete: true]: when
    the content deserializes, the spread of the parsed value with
    [isComplete] set (for a parsed object, every other key as the
    object has it); otherwise the raw string under [content]. *)
Theorem reasoning_completed_ignores_kind (d : AgentConversationsStore)
    (sse : SSEData) (task : TaskView) (i : nat) (it : ChatItem)
    (c : string) :
  event sse = "reasoning_completed" ->
  task_at d (d_conversation_id (data sse)) (d_thread_id (data sse))
    (d_task_id (data sse)) = Some task ->
  first_with_id (d_item_id (data sse)) (items task) i it ->
  payload_content it = Some c ->
  exists d' it' record,
    processSSEEvent cfg d sse = Ok d' /\
    task_at d' (d_conversation_id (data sse)) (d_thread_id (data sse))
      (d_task_id (data sse))
    = Some {| items := <[i := it']> (items task) |} /\
    same_but_content it it' /\
    payload_content it' = Some (JSON_stringify (JObj record)) /\
    obj_get "isComplete" record = Some (JBool true) /\
    (forall v, JSON_parse c = Ok v ->
       record = obj_set "isComplete" (JBool true) (js_spread v) /\
       forall o k, v = JObj o -> k <> "isComplete" ->
                   obj_get k record = obj_get k o) /\
    (forall e, JSON_parse c = Throw e ->
       record = [("content", JStr c); ("isComplete", JBool true)]).
Proof.
  intros He Ht Hf Hc%payload_content_value.
  destruct (at_task_returns
              (fun task =>
                 Ok (markReasoningComplete task (d_item_id (data sse))))
              _ _ _ d _
              (path_resolves_task _ _ _ _ (mk_is_Some _ _ Ht)) eq_refl)
    as [d' Hd'].
  pose proof Hd' as Hd.
  apply at_task_Ok in Hd as (_ & task' & [= <-] & Htask).
  rewrite Ht in Htask; simpl in Htask.
  rewrite (markReasoningComplete_found _ _ _ _ _ Hf Hc) in Htask.
  rewrite json_parse_string in Htask.
  rewrite <- process_reasoning_completed in Hd' by done.
  exists d'. destruct (JSON_parse c) as [v|e] eqn:Hp.
  - exists (set_content it (completed_record v)),
           (obj_set "isComplete" (JBool true) (js_spread v)).
    split; [done|]. split; [done|]. split; [apply set_content_same|].
    split; [apply payload_content_set_content|].
    split; [apply obj_get_set_eq|]. split; [|done].
    intros ? [= <-]. split; [done|].
    intros o k -> Hne. by apply obj_get_set_ne.
  - exists (set_content it (wrapped_record (JStr c))),
           [("content", JStr c); ("isComplete", JBool true)].
    split; [done|]. split; [done|]. split; [apply set_content_same|].
    split; [apply payload_content_set_content|].
    split; [done|]. split; [done|]. by intros ? [= <-].
Qed.

(** *** The structured append *)

Lemma merged_reasoning_non_null va vb :
  va <> JNull -> vb <> JNull ->
  exists ea eb ic,
    js_prop va "content" = Ok ea /\ js_prop vb "content" = Ok eb /\
    js_prop vb "isComplete" = Ok ic /\
    merged_reasoning va vb =
      (sum ← js_add (nullish ea (JStr "")) (nullish eb (JStr ""));
       Ok (JSON_stringify
             (JObj [("content", sum);
                    ("isComplete", nullish ic (JBool false))]))).
Proof.
  intros Ha Hb. do 3 eexists. unfold merged_reasoning.
  rewrite !js_prop_non_null by done. by repeat split.
Qed.

Lemma merged_reasoning_null va vb :
  va = JNull \/ vb = JNull -> exists e, merged_reasoning va vb = Throw e.
Proof.
  unfold merged_reasoning. intros [-> | ->]; [by eexists|].
  destruct va; by eexists.
Qed.

Lemma addOrUpdateItem_reasoning_found task b i a ca cb :
  first_with_id (item_id b) (items task) i a ->
  payload_content a = Some ca -> payload_content b = Some cb ->
  addOrUpdateItem task b AppendReasoning =
    Ok (try_catch
          (existingParsed ← JSON_parse ca;
           newParsed ← JSON_parse cb;
           merged ← merged_reasoning existingParsed newParsed;
           mret {| items := <[i := set_content a merged]> (items task) |})
          {| items := <[i := b]> (items task) |}).
Proof.
  intros Hf%first_with_id_find Ha%payload_content_value
    Hb%payload_content_value.
  unfold addOrUpdateItem. by rewrite Hf, Ha, Hb.
Qed.

(** The structured append never throws. *)
Lemma addOrUpdateItem_reasoning_returns task b :
  exists task', addOrUpdateItem task b AppendReasoning = Ok task'.
Proof.
  unfold addOrUpdateItem.
  destruct (list_find _ _) as [[i a]|]; [|by eexists].
  destruct (content_value a); [|by eexists].
  destruct (content_value b); by eexists.
Qed.

(** C3, amended. An append-reasoning upsert onto the stored item [a]
    of a task, both with string content.  When both contents
    deserialize to values other than [null]: if the JavaScript sum of
    the two parsed [content] fields (each defaulting to the empty
    string) is a value, [a] keeps its place and every other field and
    its content, read back, is the serialized record with that sum as
    [content] and the new item's [isComplete] (defaulting to false);
    if the sum throws, the new item replaces [a].  The sum of two
    strings is their concatenation.  When either content fails to
    deserialize or deserializes to [null], the new item replaces [a].
    The upsert returns a task whatever the task and the item are: no
    failure reaches the caller. *)
Theorem addOrUpdateItem_append_reasoning_spec (task : TaskView)
    (b : ChatItem) :
  (forall i a ca cb,
     first_with_id (item_id b) (items task) i a ->
     payload_content a = Some ca -> payload_content b = Some cb ->
     (forall va vb,
        JSON_parse ca = Ok va -> JSON_parse cb = Ok vb ->
        va <> JNull -> vb <> JNull ->
        exists ea eb ic,
          js_prop va "content" = Ok ea /\ js_prop vb "content" = Ok eb /\
          js_prop vb "isComplete" = Ok ic /\
          (forall sum,
             js_add (nullish ea (JStr "")) (nullish eb (JStr "")) = Ok sum ->
             exists a',
               addOrUpdateItem task b AppendReasoning =
                 Ok {| items := <[i := a']> (items task) |} /\
               same_but_content a a' /\
               payload_content a' =
                 Some (JSON_stringify
                         (JObj [("content", sum);
                                ("isComplete",
                                 nullish ic (JBool false))]))) /\
          (forall e,
             js_add (nullish ea (JStr "")) (nullish eb (JStr ""))
               = Throw e ->
             addOrUpdateItem task b AppendReasoning =
               Ok {| items := <[i := b]> (items task) |})) /\
     (forall oa ob sa sb,
        JSON_parse ca = Ok (JObj oa) -> JSON_parse cb = Ok (JObj ob) ->
        obj_get "content" oa = Some (JStr sa) ->
        obj_get "content" ob = Some (JStr sb) ->
        exists a',
          addOrUpdateItem task b AppendReasoning =
            Ok {| items := <[i := a']> (items task) |} /\
          same_but_content a a' /\
          payload_content a' =
            Some (JSON_stringify
                    (JObj [("content", JStr (sa +:+ sb));
                           ("isComplete",
                            nullish (obj_get "isComplete" ob)
                                    (JBool false))]))) /\
     ((exists e, JSON_parse ca = Throw e) \/
      (exists e, JSON_parse cb = Throw e) \/
      JSON_parse ca = Ok JNull \/ JSON_parse cb = Ok JNull ->
      addOrUpdateItem task b AppendReasoning =
        Ok {| items := <[i := b]> (items task) |}) /\
     (exists a',
        addOrUpdateItem task b AppendReasoning =
          Ok {| items := <[i := a']> (items task) |} /\
        (a' = b \/ same_but_content a a'))) /\
  (exists task', addOrUpdateItem task b AppendReasoning = Ok task').
Proof.
  split; [|apply addOrUpdateItem_reasoning_returns].
  intros i a ca cb Hf Ha Hb.
  rewrite (addOrUpdateItem_reasoning_found _ _ _ _ _ _ Hf Ha Hb).
  split; [|split; [|split]].
  - intros va vb -> -> Hna Hnb. simpl.
    destruct (merged_reasoning_non_null va vb Hna Hnb)
      as (ea & eb & ic & H1 & H2 & H3 & ->).
    exists ea, eb, ic. split; [done|]. split; [done|]. split; [done|].
    split.
    + intros sum ->. simpl. eexists. split; [done|].
      split; [apply set_content_same|apply payload_content_set_content].
    + by intros e ->.
  - intros oa ob sa sb -> -> Hsa Hsb. simpl.
    unfold merged_reasoning; simpl. rewrite Hsa, Hsb. simpl.
    eexists. split; [done|].
    split; [apply set_content_same|apply payload_content_set_content].
  - intros [[e He]|[[e He]|[Hn|Hn]]].
    + by rewrite He.
    + rewrite He. by destruct (JSON_parse ca).
    + rewrite Hn. by destruct (JSON_parse cb).
    + rewrite Hn. destruct (JSON_parse ca) as [va|]; [|done].
      cbn [try_catch mbind result_bind rbind].
      by destruct (merged_reasoning_null va JNull (or_intror eq_refl))
        as [e ->].
  - destruct (JSON_parse ca) as [va|]; simpl; [|by eauto].
    destruct (JSON_parse cb) as [vb|]; simpl; [|by eauto].
    destruct (merged_reasoning va vb); simpl; [|by eauto].
    eexists. split; [done|]. right. apply set_content_same.
Qed.
End Reasoning.

(* ===================================================================== *)
(** ** The step-template heuristic *)

Section Heuristic.
Context `{JsRuntime}.

Lemma js_is_string_true x s :
  js_is_string x s = true <-> x = Some (JStr s).
Proof.
  unfold js_is_string. destruct x as [[]|]; try (split; [done|by intros]).
  rewrite bool_decide_eq_true. split; [by intros ->|by intros [= ->]].
Qed.

Lemma js_is_string_false x s :
  js_is_string x s = false <-> x <> Some (JStr s).
Proof.
  rewrite <- js_is_string_true. by destruct (js_is_string x s).
Qed.

(** The backward loop stops at the last anchor below [n]. *)
Lemma last_anchor_below_Some l n i :
  last_anchor_below l n = Some i ->
  (i < n)%nat /\
  (exists a, l !! i = Some a /\ isPlanningAnchorTool a = true) /\
  forall j x, (i < j < n)%nat -> l !! j = Some x ->
              isPlanningAnchorTool x = false.
Proof.
  induction n as [|n IH]; simpl; [done|].
  destruct (l !! n) as [x|] eqn:Hx.
  - destruct (isPlanningAnchorTool x) eqn:Ha.
    + intros [= <-]. split; [lia|]. split; [by exists x|]. intros; lia.
    + intros (Hlt & Hex & Hafter)%IH.
      split; [lia|]. split; [done|]. intros j y Hj Hy.
      destruct (decide (j = n)) as [->|]; [congruence|].
      apply (Hafter j); [lia|done].
  - intros (Hlt & Hex & Hafter)%IH.
    split; [lia|]. split; [done|]. intros j y Hj Hy.
    destruct (decide (j = n)) as [->|]; [congruence|].
    apply (Hafter j); [lia|done].
Qed.

Lemma last_anchor_below_None l n :
  last_anchor_below l n = None ->
  forall j x, (j < n)%nat -> l !! j = Some x ->
              isPlanningAnchorTool x = false.
Proof.
  induction n as [|n IH]; simpl; [intros; lia|].
  destruct (l !! n) as [x|] eqn:Hx.
  - destruct (isPlanningAnchorTool x) eqn:Ha; [done|].
    intros Hn j y Hj Hy. destruct (decide (j = n)) as [->|]; [congruence|].
    apply (IH Hn j); [lia|done].
  - intros Hn j y Hj Hy. destruct (decide (j = n)) as [->|]; [congruence|].
    apply (IH Hn j); [lia|done].
Qed.


(** The planning run is the suffix of the thread's tool-call items that
    starts at the last anchor, and is empty when there is no anchor. *)
Lemma getPlanningToolItems_spec thread :
  (Forall (fun x => isPlanningAnchorTool x = false)
          (thread_tool_items thread) /\
   getPlanningToolItems thread = []) \/
  (exists pre a rest,
      thread_tool_items thread = pre ++ a :: rest /\
      isPlanningAnchorTool a = true /\
      Forall (fun x => isPlanningAnchorTool x = false) rest /\
      getPlanningToolItems thread = a :: rest).
Proof.
  unfold getPlanningToolItems. fold (thread_tool_items thread).
  set (tools := thread_tool_items thread).
  destruct (last_anchor_below tools (length tools)) as [i|] eqn:Hl.
  - right. apply last_anchor_below_Some in Hl
      as (Hlt & (a & Ha & Hanchor) & Hafter).
    exists (take i tools), a, (drop (S i) tools).
    rewrite <- (drop_S _ _ _ Ha). split; [by rewrite take_drop|].
    split; [done|]. split; [|done].
    apply Forall_lookup. intros j x Hj. rewrite lookup_drop in Hj.
    apply (Hafter (S i + j)%nat); [|done].
    split; [lia|]. by eapply lookup_lt_is_Some_1.
  - left. split; [|done]. apply Forall_lookup. intros j x Hj.
    eapply last_anchor_below_None; [done| |done].
    by eapply lookup_lt_is_Some_1.
Qed.

Lemma getPlanningToolItems_tool_calls thread :
  Forall (fun x => component_type x = Some "tool_call")
         (getPlanningToolItems thread).
Proof.
  assert (Forall (fun x => component_type x = Some "tool_call")
                 (thread_tool_items thread)) as Hall.
  { apply Forall_forall. by intros x [? _]%list_elem_of_filter. }
  destruct (getPlanningToolItems_spec thread)
    as [[_ ->]|(pre & a & rest & Heq & _ & _ & ->)]; [done|].
  rewrite Heq in Hall. by apply Forall_app in Hall as [_ ?].
Qed.

(** C4. The step ordinal of a tool-call event: with an empty planning
    run it is 1 for the plan-generation tool and 0 for any other; with
    a non-empty run it is one more than the position of the first item
    of the run carrying the event's [item_id], and the length of the
    run plus one when no item of the run carries it.  The planning run
    is the suffix of the thread's tool-call items from the last
    planning anchor on. *)
Theorem getToolStepOrderInThread_spec (thread : ThreadView)
    (itemId : string) (currentToolName : option json) :
  let run := getPlanningToolItems thread in
  let order := getToolStepOrderInThread thread itemId currentToolName in
  ((Forall (fun x => isPlanningAnchorTool x = false)
           (thread_tool_items thread) /\ run = []) \/
   (exists pre a rest,
       thread_tool_items thread = pre ++ a :: rest /\
       isPlanningAnchorTool a = true /\
       Forall (fun x => isPlanningAnchorTool x = false) rest /\
       run = a :: rest)) /\
  (run = [] -> currentToolName = Some (JStr "generate_execution_plan") ->
   order = 1%Z) /\
  (run = [] -> currentToolName <> Some (JStr "generate_execution_plan") ->
   order = 0%Z) /\
  (forall i it, first_with_id itemId run i it ->
                order = (Z.of_nat i + 1)%Z) /\
  (run <> [] -> no_item_with_id itemId run ->
   order = (Z.of_nat (length run) + 1)%Z).
Proof.
  intros run order. split; [apply getPlanningToolItems_spec|].
  subst order. unfold getToolStepOrderInThread. fold run.
  pose proof (getPlanningToolItems_tool_calls thread) as Htool.
  fold run in Htool. clearbody run.
  split; [|split; [|split]].
  - intros -> ->. reflexivity.
  - intros -> Hne. simpl. apply js_is_string_false in Hne. by rewrite Hne.
  - intros i it (Hi & Hid & Hfirst).
    rewrite decide_False
      by (intros Hlen; apply lookup_lt_Some in Hi; lia).
    assert (list_find
              (fun item => component_type item = Some "tool_call" /\
                           item_id item = itemId) run = Some (i, it)) as ->;
      [|done].
    apply list_find_Some. split; [done|]. split.
    + split; [|done]. exact (Forall_lookup_1 _ _ _ _ Htool Hi).
    + intros j y Hj Hlt [_ Hy]. by eapply Hfirst.
  - intros Hne Hno.
    rewrite decide_False by (by destruct run).
    assert (list_find
              (fun item => component_type item = Some "tool_call" /\
                           item_id item = itemId) run = None) as ->; [|done].
    apply list_find_None, Forall_forall. intros y Hy [_ Hid].
    by eapply Hno.
Qed.

(** *** Labels *)

Lemma buildPlannedStepLabel_news stepOrder companyName :
  buildPlannedStepLabel stepOrder companyName News =
    js_index NEWS_STEP_TITLES (stepOrder - 1).
Proof.
  unfold buildPlannedStepLabel.
  destruct (js_index NEWS_STEP_TITLES (stepOrder - 1)) as [t|] eqn:Ht;
    [|done].
  assert (t ∈ NEWS_STEP_TITLES) as Hin.
  { unfold js_index in Ht. destruct (stepOrder - 1 <? 0)%Z; [done|].
    by eapply list_elem_of_lookup_2. }
  unfold NEWS_STEP_TITLES in Hin.
  repeat (apply elem_of_cons in Hin as [->|Hin]; [done|]).
  by apply elem_of_nil in Hin.
Qed.


Lemma analysis_title_nonempty stepOrder :
  String.eqb (analysis_title stepOrder) "" = false.
Proof.
  unfold analysis_title.
  destruct (js_index ANALYSIS_STEP_TITLES (stepOrder - 1)) as [t|] eqn:Ht;
    [|done].
  assert (t ∈ ANALYSIS_STEP_TITLES) as Hin.
  { unfold js_index in Ht. destruct (stepOrder - 1 <? 0)%Z; [done|].
    by eapply list_elem_of_lookup_2. }
  unfold ANALYSIS_STEP_TITLES in Hin. simpl.
  repeat (apply elem_of_cons in Hin as [->|Hin]; [done|]).
  by apply elem_of_nil in Hin.
Qed.

Lemma buildPlannedStepLabel_analysis stepOrder companyName :
  buildPlannedStepLabel stepOrder companyName Analysis =
    match companyName with
    | Some name =>
        if (2 <=? stepOrder)%Z && negb (String.eqb name "")
        then Some (analysis_title stepOrder +:+ "（" +:+ name +:+ "）")
        else Some (analysis_title stepOrder)
    | None => Some (analysis_title stepOrder)
    end.
Proof.
  pose proof (analysis_title_nonempty stepOrder) as Hne.
  unfold buildPlannedStepLabel, analysis_title in *.
  destruct (js_index ANALYSIS_STEP_TITLES (stepOrder - 1)) as [t|];
    simpl in *.
  - rewrite Hne. by destruct companyName.
  - by destruct companyName.
Qed.
End Heuristic.

(* ===================================================================== *)
(** ** Events the dispatcher does not know *)

Section Unknown.
Context `{JsRuntime}.
Variable AGENT_SECTION_COMPONENT_TYPE : list string.

(** C9. An event whose kind is none of the recognized discriminators
    leaves the store as it was: the update throws nothing and returns
    its input, whatever the event carries. *)
Theorem unknown_event_noop (store : AgentConversationsStore)
    (sse : SSEData) :
  event sse ∉ RECOGNIZED_EVENTS ->
  updateAgentConversationsStore AGENT_SECTION_COMPONENT_TYPE store sse
  = Ok store.
Proof.
  intros Hn. unfold updateAgentConversationsStore, processSSEEvent.
  unfold RECOGNIZED_EVENTS in Hn.
  rewrite not_elem_of_cons, !not_elem_of_app in Hn.
  destruct Hn as (H1 & H2 & H3 & H4).
  rewrite !not_elem_of_cons in H3. destruct H3 as (? & ? & ? & _).
  rewrite decide_False by done.
  rewrite (bool_decide_eq_false_2 _ H2).
  rewrite !decide_False by done.
  by rewrite (bool_decide_eq_false_2 _ H4).
Qed.
End Unknown.

(* ===================================================================== *)
(** ** What the operations do to the items of a task *)

Section TaskItems.
Context `{JsRuntime}.

Lemma elem_of_list_insert_inv {A} (l : list A) i x y :
  x ∈ <[i := y]> l -> x = y \/ x ∈ l.
Proof.
  intros [j Hj]%list_elem_of_lookup_1.
  apply list_lookup_insert_Some in Hj as [(-> & -> & _)|[_ Hj]].
  - by left.
  - right. by eapply list_elem_of_lookup_2.
Qed.

Lemma list_find_elem {A} (P : A -> Prop) `{!forall x, Decision (P x)}
    (l : list A) i x :
  list_find P l = Some (i, x) -> x ∈ l.
Proof.
  intros (Hi & _)%list_find_Some. by eapply list_elem_of_lookup_2.
Qed.

(** An upsert that returns stores the new item, or an old one with
    other content. *)
Lemma elem_of_addOrUpdateItem task new mode task' it :
  addOrUpdateItem task new mode = Ok task' ->
  it ∈ items task' ->
  it ∈ items task \/ it = new \/
  exists old v, old ∈ items task /\ it = set_content_value old v.
Proof.
  unfold addOrUpdateItem.
  destruct (list_find _ (items task)) as [[i old]|] eqn:Hf; simpl.
  - apply list_find_elem in Hf.
    assert (forall v, it ∈ <[i := set_content_value old v]> (items task) ->
              it ∈ items task \/ it = new \/
              exists old v, old ∈ items task /\ it = set_content_value old v)
      as Hmerge.
    { intros v [->|?]%elem_of_list_insert_inv; [|by left].
      right; right. by exists old, v. }
    assert (it ∈ <[i := new]> (items task) ->
            it ∈ items task \/ it = new \/
            exists old v, old ∈ items task /\ it = set_content_value old v)
      as Hreplace.
    { intros [->|?]%elem_of_list_insert_inv; [by right; left|by left]. }
    destruct mode, (content_value old) as [va|], (content_value new) as [vb|];
      simpl; try (intros [= <-]; simpl; done).
    + destruct (js_add va vb) as [v|]; simpl; [|done].
      intros [= <-]. apply Hmerge.
    + intros [= <-].
      destruct (json_parse va) as [pa|]; simpl; [|done].
      destruct (json_parse vb) as [pb|]; simpl; [|done].
      destruct (merged_reasoning pa pb); simpl; [apply Hmerge|done].
  - intros [= <-]; simpl. intros [?|Hin]%elem_of_app; [by left|].
    apply list_elem_of_singleton in Hin. by right; left.
Qed.

(** After an upsert that returns, the task holds an item with the new
    item's id: the one that was found, with the content the mode
    gives it, or the new item. *)
Lemma addOrUpdateItem_has_id task new mode task' :
  addOrUpdateItem task new mode = Ok task' ->
  exists it, it ∈ items task' /\ item_id it = item_id new.
Proof.
  unfold addOrUpdateItem.
  destruct (list_find _ (items task)) as [[i old]|] eqn:Hf; simpl.
  - apply list_find_Some in Hf as (Hi & Hid & _).
    assert (i < length (items task))%nat as Hlt
      by (by eapply lookup_lt_Some).
    assert (forall x, item_id x = item_id new ->
              exists it, it ∈ <[i := x]> (items task) /\
                         item_id it = item_id new) as Hins.
    { intros x Hx. exists x. split; [by apply list_elem_of_insert|done]. }
    destruct mode, (content_value old) as [va|], (content_value new) as [vb|];
      simpl; try (intros [= <-]; simpl; by apply Hins).
    + destruct (js_add va vb) as [v|]; simpl; [|done].
      intros [= <-]. by apply Hins.
    + intros [= <-].
      destruct (json_parse va) as [pa|]; simpl; [|by apply Hins].
      destruct (json_parse vb) as [pb|]; simpl; [|by apply Hins].
      destruct (merged_reasoning pa pb); simpl; by apply Hins.
  - intros [= <-]. exists new. split; [|done]. apply elem_of_app. right. left.
Qed.

(** An upsert with mode replace, or of an item no item of the task
    shares the id of, leaves the item itself in the task. *)
Lemma addOrUpdateItem_stores task new mode task' :
  addOrUpdateItem task new mode = Ok task' ->
  mode = Replace \/ no_item_with_id (item_id new) (items task) ->
  new ∈ items task'.
Proof.
  unfold addOrUpdateItem.
  destruct (list_find _ (items task)) as [[i old]|] eqn:Hf; simpl.
  - intros Htask [->|Hn%no_item_with_id_find]; [|congruence].
    injection Htask as <-. simpl. apply list_elem_of_insert.
    apply list_find_Some in Hf as (Hi & _). by eapply lookup_lt_Some.
  - intros [= <-] _. apply elem_of_app. right. left.
Qed.

(** An upsert never throws unless it sums two contents. *)
Lemma addOrUpdateItem_returns task new mode :
  mode <> Append \/ hasContent new = false \/
    (exists s, payload_content new = Some s /\
       forall old, old ∈ items task -> hasContent old = true ->
                   exists s', payload_content old = Some s') ->
  exists task', addOrUpdateItem task new mode = Ok task'.
Proof.
  unfold addOrUpdateItem.
  destruct (list_find _ (items task)) as [[i old]|] eqn:Hf; simpl;
    [|by eexists].
  apply list_find_elem in Hf.
  intros [Hm|[Hc%hasContent_false|(s & Hs%payload_content_value & Hall)]].
  - destruct mode; [done| |];
      destruct (content_value old), (content_value new); by eexists.
  - rewrite Hc. destruct mode, (content_value old); by eexists.
  - rewrite Hs. destruct (content_value old) as [va|] eqn:Hva;
      [|destruct mode; by eexists].
    assert (hasContent old = true) as Hold
      by (apply hasContent_true; by eexists).
    destruct (Hall old Hf Hold) as [s' Hs'%payload_content_value].
    rewrite Hs' in Hva. injection Hva as <-.
    destruct mode; by eexists.
Qed.

Lemma elem_of_markReasoningComplete task id it :
  it ∈ items (markReasoningComplete task id) ->
  it ∈ items task \/
  exists old v, old ∈ items task /\ it = set_content_value old v.
Proof.
  unfold markReasoningComplete.
  destruct (list_find _ (items task)) as [[i old]|] eqn:Hf; [|by left].
  apply list_find_elem in Hf.
  destruct (content_value old); [|by left]. simpl.
  intros [->|?]%elem_of_list_insert_inv; [|by left].
  right. unfold set_content. eauto.
Qed.

Lemma mark_item_complete_cases it :
  mark_item_complete it = it \/
  exists s, mark_item_complete it = set_content it s.
Proof.
  unfold mark_item_complete. case_bool_decide; [|by left].
  destruct (content_value it) as [c|]; [|by left].
  destruct (json_parse c) as [v|]; simpl; [|by left].
  destruct (js_prop v "isComplete") as [ic|]; simpl; [|by left].
  destruct (js_truthy ic); simpl; [by left|]. right. eauto.
Qed.

Lemma elem_of_markAllReasoningComplete task it :
  it ∈ items (markAllReasoningComplete task) ->
  it ∈ items task \/
  exists old v, old ∈ items task /\ it = set_content_value old v.
Proof.
  simpl. intros (old & -> & Hold)%list_elem_of_fmap.
  destruct (mark_item_complete_cases old) as [->|[s ->]]; [by left|].
  right. unfold set_content. eauto.
Qed.
End TaskItems.

(* ===================================================================== *)
(** ** Threads under the path operations *)

Section ThreadItems.
Variable P : string -> ChatItem -> Prop.

Lemma thread_items_ok_empty : thread_items_ok P empty_thread.
Proof. intros kid t it Hin. by apply elem_of_nil in Hin. Qed.

Lemma elem_of_obj_ensure {V} (k k' : string) (v v' : V) (o : jsobj V) :
  (k', v') ∈ obj_ensure k v o -> (k', v') ∈ o \/ (k', v') = (k, v).
Proof.
  unfold obj_ensure. destruct (obj_has k o) eqn:Hh; [by left|].
  destruct (inherited k); [by left|]. simpl.
  apply obj_has_false in Hh. rewrite (obj_set_fresh_perm k v o Hh).
  intros [->|?]%elem_of_cons; [by right|by left].
Qed.

Lemma thread_items_ok_ensure_task kid th :
  thread_items_ok P th -> thread_items_ok P (ensure_task kid th).
Proof.
  intros Hok kid' t it Hin Hit. simpl in Hin.
  apply elem_of_obj_ensure in Hin as [Hin|[= -> ->]].
  - by eapply Hok.
  - by apply elem_of_nil in Hit.
Qed.

Lemma thread_items_ok_alter_task f kid th :
  (forall t it, it ∈ items (f t) ->
                (forall x, x ∈ items t -> P kid x) -> P kid it) ->
  thread_items_ok P th -> thread_items_ok P (alter_task f kid th).
Proof.
  intros Hf Hok kid' t it Hin Hit. simpl in Hin.
  apply elem_of_obj_alter in Hin as [Hin|(-> & t0 & Hin & ->)].
  - by eapply Hok.
  - eapply Hf; [done|]. intros x Hx. by eapply Hok.
Qed.

Lemma NoDup_ensure_task kid th :
  NoDup (tasks th).*1 -> NoDup (tasks (ensure_task kid th)).*1.
Proof.
  intros Hnd. simpl. unfold obj_ensure.
  destruct (obj_has kid (tasks th)) eqn:Hh; [done|].
  destruct (inherited kid); [done|]. simpl.
  apply obj_has_false in Hh.
  rewrite (obj_set_fresh_perm kid empty_task _ Hh). simpl.
  apply NoDup_cons. split; [by apply obj_get_None_keys|done].
Qed.

Lemma NoDup_alter_task f kid th :
  NoDup (tasks th).*1 -> NoDup (tasks (alter_task f kid th)).*1.
Proof. simpl. by rewrite obj_alter_keys. Qed.
End ThreadItems.

(* ===================================================================== *)
(** ** The store under the event processor *)

Section Store.
Context `{JsRuntime}.
Variable AGENT_SECTION_COMPONENT_TYPE : list string.

Local Abbreviation cfg := AGENT_SECTION_COMPONENT_TYPE.
Implicit Types (d s : AgentConversationsStore) (c : ConversationView).

Lemma is_section_type_true ct :
  is_section_type cfg ct = true <->
  exists k, ct = Some k /\ k <> "" /\ k ∈ cfg.
Proof.
  unfold is_section_type. destruct ct as [k|].
  - rewrite andb_true_iff, negb_true_iff, bool_decide_eq_true.
    rewrite String.eqb_neq. split.
    + intros [? ?]. by exists k.
    + by intros (? & [= <-] & ? & ?).
  - split; [done|]. by intros (? & ? & _).
Qed.

Lemma is_section_type_false ct k :
  "" ∉ cfg -> is_section_type cfg ct = false -> ct = Some k -> k ∉ cfg.
Proof.
  intros Hcfg Hs -> Hin.
  assert (is_section_type cfg (Some k) = true) as Ht; [|congruence].
  apply is_section_type_true. exists k. split; [done|].
  split; [|done]. by intros ->.
Qed.

(** *** The two ways of an upsert *)

Lemma handle_conversation_section item mode c kind :
  component_type item = Some kind ->
  is_section_type cfg (Some kind) = true ->
  handle_conversation cfg item mode c =
    (c1 ← ensure_thread_task (thread_id item) (task_id item) c;
     c2 ← ensureSection c1 kind (task_id item);
     update_section_task
       (fun sectionTask => addOrUpdateItem sectionTask item mode)
       kind (task_id item) c2).
Proof.
  intros Hk Hs. unfold handle_conversation, upsert_in_conversation.
  by rewrite Hk, Hs.
Qed.

Lemma handle_conversation_main item mode c :
  is_section_type cfg (component_type item) = false ->
  handle_conversation cfg item mode c =
    (c1 ← ensure_thread_task (thread_id item) (task_id item) c;
     update_thread_task (fun task => addOrUpdateItem task item mode)
       (thread_id item) (task_id item) c1).
Proof.
  intros Hs. unfold handle_conversation, upsert_in_conversation.
  destruct (component_type item); [|done]. by rewrite Hs.
Qed.

Lemma handle_conversation_section_Ok item mode c kind c' :
  component_type item = Some kind ->
  is_section_type cfg (Some kind) = true ->
  handle_conversation cfg item mode c = Ok c' <->
  (is_Some (threads c !! thread_id item) \/ ordinary (thread_id item)) /\
  (is_Some (sections c !! kind) \/ ordinary kind) /\
  (is_Some (conv_section_task c kind (task_id item))
   \/ ordinary (task_id item)) /\
  exists task',
    addOrUpdateItem
      (default empty_task (conv_section_task c kind (task_id item)))
      item mode = Ok task' /\
    c' = alter_section (fun _ => task') kind (task_id item)
           (with_section_task kind (task_id item)
              (with_thread_task (thread_id item) (task_id item) c)).
Proof.
  intros Hk Hs. rewrite (handle_conversation_section _ _ _ _ Hk Hs).
  rewrite bind_Ok. split.
  - intros (c1 & (Ht & ->)%ensure_thread_task_Ok & Hu).
    by apply update_ensured_section_task_Ok in Hu as (? & ? & ?).
  - intros (Ht & Hkind & Hkid & Htask). eexists.
    split; [by apply ensure_thread_task_Ok|].
    by apply update_ensured_section_task_Ok.
Qed.

Lemma handle_conversation_main_Ok item mode c c' :
  is_section_type cfg (component_type item) = false ->
  handle_conversation cfg item mode c = Ok c' <->
  (is_Some (threads c !! thread_id item) \/ ordinary (thread_id item)) /\
  (is_Some (conv_task c (thread_id item) (task_id item))
   \/ ordinary (task_id item)) /\
  exists task',
    addOrUpdateItem
      (default empty_task (conv_task c (thread_id item) (task_id item)))
      item mode = Ok task' /\
    c' = alter_thread_task (fun _ => task') (thread_id item) (task_id item)
           (with_thread_task (thread_id item) (task_id item) c).
Proof.
  intros Hs. rewrite (handle_conversation_main _ _ _ Hs).
  apply update_ensured_thread_task_Ok.
Qed.

(** *** The invariants are kept at each step *)

Lemma main_ok_empty : main_ok cfg empty_conversation.
Proof. intros tid th Hth. simpl in Hth. by rewrite lookup_empty in Hth. Qed.

Lemma sections_ok_empty : sections_ok cfg empty_conversation.
Proof.
  intros kind th Hth. simpl in Hth. by rewrite lookup_empty in Hth.
Qed.

Lemma main_ok_with_thread_task tid kid c :
  main_ok cfg c -> main_ok cfg (with_thread_task tid kid c).
Proof.
  intros Hok tid' th. unfold with_thread_task, conv_thread; simpl.
  destruct (decide (tid = tid')) as [<-|Hne];
    [|rewrite lookup_insert_ne by done; apply Hok].
  rewrite lookup_insert_eq.
  intros [= <-]. apply thread_items_ok_ensure_task.
  destruct (threads c !! tid) as [th|] eqn:Hth.
  - by eapply Hok.
  - apply thread_items_ok_empty.
Qed.

Lemma main_ok_with_section_task kind kid c :
  main_ok cfg c -> main_ok cfg (with_section_task kind kid c).
Proof. done. Qed.

Lemma main_ok_alter_section f kind kid c :
  main_ok cfg c -> main_ok cfg (alter_section f kind kid c).
Proof. done. Qed.

Lemma sections_ok_with_thread_task tid kid c :
  sections_ok cfg c -> sections_ok cfg (with_thread_task tid kid c).
Proof. done. Qed.

Lemma sections_ok_alter_thread_task f tid kid c :
  sections_ok cfg c -> sections_ok cfg (alter_thread_task f tid kid c).
Proof. done. Qed.

Lemma thread_items_ok_set_task (P : string -> ChatItem -> Prop) task' kid th :
  (forall it, it ∈ items task' -> P kid it) ->
  thread_items_ok P th ->
  thread_items_ok P (alter_task (fun _ => task') kid th).
Proof.
  intros Hf Hok kid' t it Hin Hit. simpl in Hin.
  apply elem_of_obj_alter in Hin as [Hin|(-> & t0 & Hin & ->)].
  - by eapply Hok.
  - by apply Hf.
Qed.

(** The items of the task at an address, or of the empty one, are
    among those the invariant speaks of. *)
Lemma main_ok_task_items c tid kid it k :
  main_ok cfg c ->
  it ∈ items (default empty_task (conv_task c tid kid)) ->
  component_type it = Some k -> k ∉ cfg.
Proof.
  intros Hok. unfold conv_task.
  destruct (threads c !! tid) as [th|] eqn:Hth; simpl;
    [|by intros ?%elem_of_nil].
  destruct (obj_get kid (tasks th)) as [t|] eqn:Ht; simpl;
    [|by intros ?%elem_of_nil].
  intros Hit Hk.
  exact (Hok _ _ Hth kid t it (obj_get_Some_elem _ _ _ Ht) Hit k Hk).
Qed.

Lemma sections_ok_task_items c kind kid it :
  sections_ok cfg c ->
  it ∈ items (default empty_task (conv_section_task c kind kid)) ->
  section_item kind kid it.
Proof.
  intros Hok. unfold conv_section_task.
  destruct (sections c !! kind) as [th|] eqn:Hth; simpl;
    [|by intros ?%elem_of_nil].
  destruct (obj_get kid (tasks th)) as [t|] eqn:Ht; simpl;
    [|by intros ?%elem_of_nil].
  intros Hit. destruct (Hok _ _ Hth) as (_ & _ & Hitems).
  exact (Hitems kid t it (obj_get_Some_elem _ _ _ Ht) Hit).
Qed.

Lemma main_ok_set_thread_task task' tid kid c :
  (forall it k, it ∈ items task' -> component_type it = Some k -> k ∉ cfg) ->
  main_ok cfg c ->
  main_ok cfg (alter_thread_task (fun _ => task') tid kid c).
Proof.
  intros Hf Hok tid' th. unfold alter_thread_task; simpl.
  rewrite lookup_alter. destruct (decide (tid = tid')) as [<-|]; [|apply Hok].
  destruct (threads c !! tid) as [th0|] eqn:Hth; [|done].
  intros [= <-]. apply thread_items_ok_set_task; [|by eapply Hok].
  intros it Hit k. by apply Hf.
Qed.

Lemma sections_ok_with_section_task c kind kid :
  kind ∈ cfg -> sections_ok cfg c ->
  sections_ok cfg (with_section_task kind kid c).
Proof.
  intros Hkind Hok kind' th. unfold with_section_task, conv_section; simpl.
  destruct (decide (kind = kind')) as [<-|Hne];
    [|rewrite lookup_insert_ne by done; apply Hok].
  rewrite lookup_insert_eq.
  intros [= <-]. split; [done|].
  set (th0 := default empty_thread (sections c !! kind)).
  assert (NoDup (tasks th0).*1 /\ thread_items_ok (section_item kind) th0)
    as [Hnd Hitems].
  { subst th0. destruct (sections c !! kind) as [th|] eqn:Hth; simpl.
    - by destruct (Hok _ _ Hth) as (_ & ? & ?).
    - split; [apply NoDup_nil_2|apply thread_items_ok_empty]. }
  split; [by apply NoDup_ensure_task|by apply thread_items_ok_ensure_task].
Qed.

Lemma sections_ok_set_section_task task' kind kid c :
  (forall it, it ∈ items task' -> section_item kind kid it) ->
  sections_ok cfg c ->
  sections_ok cfg (alter_section (fun _ => task') kind kid c).
Proof.
  intros Hf Hok kind' th. unfold alter_section; simpl.
  rewrite lookup_alter.
  destruct (decide (kind = kind')) as [<-|]; [|apply Hok].
  destruct (sections c !! kind) as [th0|] eqn:Hth; [|done].
  intros [= <-]. destruct (Hok _ _ Hth) as (? & Hnd & Hitems).
  split; [done|]. split; [by apply NoDup_alter_task|].
  by apply thread_items_ok_set_task.
Qed.

Lemma main_ok_handle_conversation item mode c c' :
  "" ∉ cfg -> main_ok cfg c ->
  handle_conversation cfg item mode c = Ok c' -> main_ok cfg c'.
Proof.
  intros Hcfg Hok.
  destruct (is_section_type cfg (component_type item)) eqn:Hs.
  - pose proof Hs as (kind & Hk & _)%is_section_type_true.
    rewrite Hk in Hs.
    intros Hh.
    apply (handle_conversation_section_Ok _ _ _ kind) in Hh
      as (_ & _ & _ & task' & _ & ->); [|done..].
    by apply main_ok_alter_section, main_ok_with_section_task,
      main_ok_with_thread_task.
  - intros (_ & _ & task' & Htask & ->)%handle_conversation_main_Ok;
      [|done].
    apply main_ok_set_thread_task; [|by apply main_ok_with_thread_task].
    intros it k Hit Hk.
    destruct (elem_of_addOrUpdateItem _ _ _ _ _ Htask Hit)
      as [Hit'|[->|(old & v & Hold & ->)]].
    + by eapply main_ok_task_items.
    + by eapply is_section_type_false.
    + by eapply main_ok_task_items.
Qed.

Lemma sections_ok_handle_conversation item mode c c' :
  sections_ok cfg c ->
  handle_conversation cfg item mode c = Ok c' -> sections_ok cfg c'.
Proof.
  intros Hok.
  destruct (is_section_type cfg (component_type item)) eqn:Hs.
  - pose proof Hs as (kind & Hk & Hne & Hin)%is_section_type_true.
    rewrite Hk in Hs.
    intros Hh.
    apply (handle_conversation_section_Ok _ _ _ kind) in Hh
      as (_ & _ & _ & task' & Htask & ->); [|done..].
    apply sections_ok_set_section_task;
      [|by apply sections_ok_with_section_task,
          sections_ok_with_thread_task].
    intros it Hit.
    destruct (elem_of_addOrUpdateItem _ _ _ _ _ Htask Hit)
      as [Hit'|[->|(old & v & Hold & ->)]].
    + by eapply sections_ok_task_items.
    + by split.
    + by eapply (sections_ok_task_items _ _ _ old).
  - intros (_ & _ & task' & _ & ->)%handle_conversation_main_Ok; [|done].
    by apply sections_ok_alter_thread_task, sections_ok_with_thread_task.
Qed.

Lemma main_ok_ensure_thread_task tid kid c c' :
  main_ok cfg c -> ensure_thread_task tid kid c = Ok c' -> main_ok cfg c'.
Proof.
  intros Hok (_ & ->)%ensure_thread_task_Ok.
  by apply main_ok_with_thread_task.
Qed.

Lemma sections_ok_ensure_thread_task tid kid c c' :
  sections_ok cfg c -> ensure_thread_task tid kid c = Ok c' ->
  sections_ok cfg c'.
Proof. by intros Hok (_ & ->)%ensure_thread_task_Ok. Qed.

Lemma main_ok_process_conversation sse c c' :
  "" ∉ cfg -> main_ok cfg c ->
  process_conversation cfg sse c = Ok c' -> main_ok cfg c'.
Proof.
  intros Hcfg Hok. unfold process_conversation.
  destruct (decide (event sse = "component_generator")).
  { destruct (_ || _); by apply main_ok_handle_conversation. }
  destruct (bool_decide (event sse ∈ MARKDOWN_EVENTS));
    [by apply main_ok_handle_conversation|].
  destruct (decide (event sse = "reasoning"));
    [by apply main_ok_handle_conversation|].
  destruct (decide (event sse = "reasoning_started"));
    [by apply main_ok_handle_conversation|].
  destruct (decide (event sse = "reasoning_completed")).
  { intros (_ & _ & task' & [= <-] & ->)%update_ensured_thread_task_Ok.
    apply main_ok_set_thread_task; [|by apply main_ok_with_thread_task].
    intros it k Hit Hk.
    apply elem_of_markReasoningComplete in Hit
      as [Hit|(old & v & Hold & ->)]; by eapply main_ok_task_items. }
  destruct (bool_decide (event sse ∈ TOOL_CALL_EVENTS)); [|by intros [= <-]].
  intros (c1 & Hc1 & (label & _ & Hh)%bind_Ok)%bind_Ok.
  eapply main_ok_handle_conversation; [done| |exact Hh].
  by eapply main_ok_ensure_thread_task.
Qed.

Lemma sections_ok_process_conversation sse c c' :
  sections_ok cfg c ->
  process_conversation cfg sse c = Ok c' -> sections_ok cfg c'.
Proof.
  intros Hok. unfold process_conversation.
  destruct (decide (event sse = "component_generator")).
  { destruct (_ || _); by apply sections_ok_handle_conversation. }
  destruct (bool_decide (event sse ∈ MARKDOWN_EVENTS));
    [by apply sections_ok_handle_conversation|].
  destruct (decide (event sse = "reasoning"));
    [by apply sections_ok_handle_conversation|].
  destruct (decide (event sse = "reasoning_started"));
    [by apply sections_ok_handle_conversation|].
  destruct (decide (event sse = "reasoning_completed")).
  { intros (_ & _ & task' & _ & ->)%update_ensured_thread_task_Ok.
    by apply sections_ok_alter_thread_task, sections_ok_with_thread_task. }
  destruct (bool_decide (event sse ∈ TOOL_CALL_EVENTS)); [|by intros [= <-]].
  intros (c1 & Hc1 & (label & _ & Hh)%bind_Ok)%bind_Ok.
  eapply sections_ok_handle_conversation; [|exact Hh].
  by eapply sections_ok_ensure_thread_task.
Qed.

(** *** From conversations to stores *)

Lemma default_ok (Q : ConversationView -> Prop) s cid :
  Q empty_conversation -> (forall cid c, s !! cid = Some c -> Q c) ->
  Q (default empty_conversation (s !! cid)).
Proof. intros He Hs. destruct (s !! cid) eqn:Hc; [by eapply Hs|done]. Qed.

(** A property [Q] of the conversations of a store, which may depend
    on the name a conversation is stored under, is kept by a step on
    one conversation that keeps it. *)
Lemma at_conversation_ok (Q : string -> ConversationView -> Prop) g cid d d' :
  Q cid empty_conversation ->
  (forall c c', Q cid c -> g c = Ok c' -> Q cid c') ->
  (forall i c, d !! i = Some c -> Q i c) ->
  at_conversation g cid d = Ok d' ->
  forall i c, d' !! i = Some c -> Q i c.
Proof.
  intros He Hg Hd (_ & c' & Hc' & ->)%at_conversation_Ok i c.
  destruct (decide (cid = i)) as [<-|Hne].
  - rewrite lookup_insert_eq. intros [= <-].
    eapply Hg; [|done].
    destruct (d !! cid) as [c0|] eqn:Hc0; simpl; [by apply Hd|done].
  - rewrite lookup_insert_ne by done. apply Hd.
Qed.

Lemma process_ok (Q : string -> ConversationView -> Prop) d sse d' :
  Q (d_conversation_id (data sse)) empty_conversation ->
  (forall c c', Q (d_conversation_id (data sse)) c ->
                process_conversation cfg sse c = Ok c' ->
                Q (d_conversation_id (data sse)) c') ->
  (forall i c, d !! i = Some c -> Q i c) ->
  processSSEEvent cfg d sse = Ok d' ->
  forall i c, d' !! i = Some c -> Q i c.
Proof.
  intros He Hg Hd. rewrite processSSEEvent_at. case_bool_decide.
  - by apply at_conversation_ok.
  - by intros [= <-].
Qed.

Lemma store_main_ok_process d sse d' :
  "" ∉ cfg -> store_main_ok cfg d ->
  processSSEEvent cfg d sse = Ok d' -> store_main_ok cfg d'.
Proof.
  intros Hcfg Hok Hp.
  exact (process_ok (fun _ => main_ok cfg) d sse d' main_ok_empty
           (fun c c' Hc => main_ok_process_conversation sse c c' Hcfg Hc)
           Hok Hp).
Qed.

Lemma store_sections_ok_process d sse d' :
  store_sections_ok cfg d ->
  processSSEEvent cfg d sse = Ok d' -> store_sections_ok cfg d'.
Proof.
  intros Hok Hp.
  exact (process_ok (fun _ => sections_ok cfg) d sse d' sections_ok_empty
           (fun c c' Hc => sections_ok_process_conversation sse c c' Hc)
           Hok Hp).
Qed.

Lemma replay_cons d sse events :
  replay cfg d (sse :: events) =
    (d1 ← processSSEEvent cfg d sse; replay cfg d1 events).
Proof. done. Qed.

Lemma replay_ok (Q : AgentConversationsStore -> Prop) events :
  (forall d sse d', Q d -> processSSEEvent cfg d sse = Ok d' -> Q d') ->
  forall d d', Q d -> replay cfg d events = Ok d' -> Q d'.
Proof.
  intros Hstep. induction events as [|sse events IH]; intros d d' Hd.
  - by intros [= <-].
  - rewrite replay_cons. intros (d1 & Hd1 & Hrest)%bind_Ok.
    eapply IH; [|done]. by eapply Hstep.
Qed.

Lemma elem_of_complete_thread th kid t :
  (kid, t) ∈ tasks (complete_thread th) ->
  exists t0, (kid, t0) ∈ tasks th /\ t = markAllReasoningComplete t0.
Proof.
  simpl. intros ([kid0 t0] & [= -> ->] & Hin)%list_elem_of_fmap. eauto.
Qed.

Lemma complete_thread_keys th : (tasks (complete_thread th)).*1 = (tasks th).*1.
Proof.
  simpl. rewrite <- list_fmap_compose. by apply list_fmap_ext.
Qed.

Lemma main_ok_complete_conversation c :
  main_ok cfg c -> main_ok cfg (complete_conversation c).
Proof.
  intros Hok tid th. unfold complete_conversation; simpl.
  rewrite lookup_fmap. destruct (threads c !! tid) as [th0|] eqn:Hth; [|done].
  intros [= <-] kid t it (t0 & Hin & ->)%elem_of_complete_thread Hit k Hk.
  apply elem_of_markAllReasoningComplete in Hit
    as [Hit|(old & s & Hold & ->)].
  - by eapply (Hok _ _ Hth).
  - exact (Hok _ _ Hth _ _ _ Hin Hold k Hk).
Qed.

(** What a batch that returns has done. *)
Lemma batch_Ok s cid events clear s' :
  batchUpdateAgentConversationsStore cfg s cid events clear = Ok s' <->
  exists d,
    replay cfg (batch_start s cid clear) events = Ok d /\
    (is_Some (d !! cid) \/ ordinary cid) /\
    s' = alter complete_conversation cid d.
Proof.
  unfold batchUpdateAgentConversationsStore, replay, batch_start, ordinary.
  rewrite bind_Ok. split.
  - intros (d & Hd & Hfin). exists d. split; [done|].
    destruct (d !! cid) as [c|] eqn:Hc.
    + injection Hfin as <-. split; [by left|done].
    + destruct (inherited cid); [done|]. injection Hfin as <-.
      split; [by right|]. apply map_eq. intros i.
      rewrite lookup_alter. case_decide; [subst i|done]. by rewrite Hc.
  - intros (d & Hd & Hown & ->). exists d. split; [done|].
    destruct (d !! cid) as [c|] eqn:Hc; [done|].
    destruct Hown as [[? [=]]| ->]. f_equal. apply map_eq. intros i.
    rewrite lookup_alter. case_decide; [subst i|done]. by rewrite Hc.
Qed.

Lemma batch_ok (Q : string -> ConversationView -> Prop) s cid events clear
    s' :
  (forall d sse d', (forall i c, d !! i = Some c -> Q i c) ->
                    processSSEEvent cfg d sse = Ok d' ->
                    forall i c, d' !! i = Some c -> Q i c) ->
  (forall i c, Q i c -> Q i (complete_conversation c)) ->
  (forall i c, s !! i = Some c -> Q i c) ->
  batchUpdateAgentConversationsStore cfg s cid events clear = Ok s' ->
  forall i c, s' !! i = Some c -> Q i c.
Proof.
  intros Hstep Hcomplete Hs (d & Hd & _ & ->)%batch_Ok i c.
  assert (forall i c, batch_start s cid clear !! i = Some c -> Q i c) as Hd0.
  { unfold batch_start. destruct (_ && _); [|done].
    intros j cj [_ Hj]%lookup_delete_Some. by eapply Hs. }
  pose proof (replay_ok (fun d => forall i c, d !! i = Some c -> Q i c)
                events Hstep _ _ Hd0 Hd) as Hfold.
  rewrite lookup_alter.
  case_decide as Hi; [|apply Hfold]. subst i.
  destruct (d !! cid) as [c0|] eqn:Hc0; [|done].
  intros [= <-]. by eapply Hcomplete, Hfold.
Qed.

Lemma reachable_main_ok s : "" ∉ cfg -> reachable cfg s -> store_main_ok cfg s.
Proof.
  intros Hcfg. induction 1 as [|s sse s' _ IH Hs|s cid events clear s' _ IH Hs].
  - intros cid c Hc. by rewrite lookup_empty in Hc.
  - by eapply store_main_ok_process.
  - exact (batch_ok (fun _ => main_ok cfg) s cid events clear s'
             (fun d sse d' Hd => store_main_ok_process d sse d' Hcfg Hd)
             (fun _ => main_ok_complete_conversation) IH Hs).
Qed.

Lemma reachable_replay s events s' :
  reachable cfg s -> replay cfg s events = Ok s' -> reachable cfg s'.
Proof.
  revert s. induction events as [|sse events IH]; intros s Hs.
  - by intros [= <-].
  - rewrite replay_cons. intros (s1 & Hs1 & Hrest)%bind_Ok.
    eapply IH; [|done]. by eapply reachable_update.
Qed.

Lemma reachable_sections_ok s : reachable cfg s -> store_sections_ok cfg s.
Proof.
  induction 1 as [|s sse s' _ IH Hs|s cid events clear s' _ IH Hs].
  - intros cid c Hc. by rewrite lookup_empty in Hc.
  - by eapply store_sections_ok_process.
  - exact (batch_ok (fun _ => sections_ok cfg) s cid events clear s'
             (fun d sse d' Hd => store_sections_ok_process d sse d' Hd)
             (fun _ c Hc => Hc) IH Hs).
Qed.
End Store.

(* ===================================================================== *)
(** ** Where an item goes *)

Section Projection.
Context `{JsRuntime}.
Variable AGENT_SECTION_COMPONENT_TYPE : list string.

Local Abbreviation cfg := AGENT_SECTION_COMPONENT_TYPE.
Implicit Types (d s : AgentConversationsStore) (c : ConversationView).

Lemma main_items_insert d cid c cid' tid kid :
  main_items (<[cid := c]> d) cid' tid kid =
    if decide (cid = cid') then items_of (conv_task c tid kid)
    else main_items d cid' tid kid.
Proof.
  unfold main_items, task_at. case_decide as Hc.
  - subst cid'. by rewrite lookup_insert_eq.
  - by rewrite lookup_insert_ne.
Qed.

Lemma section_items_insert d cid c cid' kind kid :
  section_items (<[cid := c]> d) cid' kind kid =
    if decide (cid = cid') then items_of (conv_section_task c kind kid)
    else section_items d cid' kind kid.
Proof.
  unfold section_items, section_task_at. case_decide as Hc.
  - subst cid'. by rewrite lookup_insert_eq.
  - by rewrite lookup_insert_ne.
Qed.

Lemma main_items_conv d cid tid kid :
  main_items d cid tid kid =
    items_of (conv_task (default empty_conversation (d !! cid)) tid kid).
Proof. unfold main_items. by rewrite task_at_conv. Qed.

Lemma section_items_conv d cid kind kid :
  section_items d cid kind kid =
    items_of
      (conv_section_task (default empty_conversation (d !! cid)) kind kid).
Proof. unfold section_items. by rewrite section_task_at_conv. Qed.

Lemma section_kind item k :
  component_type item = Some k -> k <> "" -> k ∈ cfg ->
  is_section_type cfg (Some k) = true.
Proof. intros Hk Hne Hin. apply is_section_type_true. by exists k. Qed.

Lemma main_kind item :
  (forall k, component_type item = Some k -> k ∉ cfg) ->
  is_section_type cfg (component_type item) = false.
Proof.
  intros Hk.
  destruct (is_section_type cfg (component_type item)) eqn:Hs; [|done].
  apply is_section_type_true in Hs as (k & Hct & _ & Hin).
  by destruct (Hk k Hct).
Qed.

(** An item of a section-worthy kind goes to its section and nowhere
    else. *)
Lemma handle_section_item d item mode k d' :
  component_type item = Some k -> k <> "" -> k ∈ cfg ->
  handleChatItemEvent cfg d item mode = Ok d' ->
  exists task',
    addOrUpdateItem
      (default empty_task
         (section_task_at d (conversation_id item) k (task_id item)))
      item mode = Ok task' /\
    section_task_at d' (conversation_id item) k (task_id item) = Some task' /\
    forall cid tid kid, main_items d' cid tid kid = main_items d cid tid kid.
Proof.
  intros Hk Hne Hin. rewrite handleChatItemEvent_at.
  intros (_ & c' & Hh & ->)%at_conversation_Ok.
  apply (handle_conversation_section_Ok _ _ _ _ k) in Hh
    as (_ & _ & Hkid & task' & Htask & ->);
    [|done|by eapply section_kind].
  rewrite <- section_task_at_conv in Htask, Hkid.
  exists task'. split; [done|]. split.
  - rewrite section_task_at_insert, conv_section_task_alter_eq.
    rewrite conv_section_task_with_section_task.
    rewrite conv_section_task_with_thread_task, <- section_task_at_conv.
    destruct (section_task_at d _ k _); [done|].
    destruct Hkid as [[? [=]]|Hkid]. unfold ordinary in Hkid.
    by rewrite Hkid.
  - intros cid tid kid. rewrite main_items_insert.
    case_decide as Hc; [subst cid|done].
    rewrite conv_task_alter_section, conv_task_with_section_task.
    by rewrite items_with_thread_task, main_items_conv.
Qed.

(** An item of any other kind goes to the main tree and nowhere else. *)
Lemma handle_main_item d item mode d' :
  is_section_type cfg (component_type item) = false ->
  handleChatItemEvent cfg d item mode = Ok d' ->
  exists task',
    addOrUpdateItem
      (default empty_task
         (task_at d (conversation_id item) (thread_id item) (task_id item)))
      item mode = Ok task' /\
    task_at d' (conversation_id item) (thread_id item) (task_id item)
      = Some task' /\
    forall cid kind kid,
      section_items d' cid kind kid = section_items d cid kind kid.
Proof.
  intros Hs. rewrite handleChatItemEvent_at.
  intros (_ & c' & Hh & ->)%at_conversation_Ok.
  apply handle_conversation_main_Ok in Hh
    as (_ & Hkid & task' & Htask & ->); [|done].
  rewrite <- task_at_conv in Htask, Hkid.
  exists task'. split; [done|]. split.
  - rewrite task_at_insert, conv_task_alter_eq.
    rewrite conv_task_with_thread_task, <- task_at_conv.
    destruct (task_at d _ _ _); [done|].
    destruct Hkid as [[? [=]]|Hkid]. unfold ordinary in Hkid.
    by rewrite Hkid.
  - intros cid kind kid. rewrite section_items_insert.
    case_decide as Hc; [subst cid|done].
    rewrite conv_section_task_alter_thread_task.
    by rewrite conv_section_task_with_thread_task, section_items_conv.
Qed.

(** The upsert returns when the paths resolve and the merge returns. *)
Lemma handle_section_returns d item mode k task' :
  component_type item = Some k -> k <> "" -> k ∈ cfg ->
  path_resolves d (conversation_id item) (thread_id item) (task_id item) ->
  section_resolves d (conversation_id item) k (task_id item) ->
  addOrUpdateItem
    (default empty_task
       (section_task_at d (conversation_id item) k (task_id item)))
    item mode = Ok task' ->
  exists d', handleChatItemEvent cfg d item mode = Ok d'.
Proof.
  intros Hk Hne Hin (Hc & Ht & _) (Hkind & Hkid) Htask.
  eexists. rewrite handleChatItemEvent_at. apply at_conversation_Ok.
  split; [done|]. eexists. split; [|done].
  apply (handle_conversation_section_Ok _ _ _ _ k);
    [done|by eapply section_kind|].
  rewrite <- section_task_at_conv.
  split; [done|]. split; [done|]. split; [done|]. by exists task'.
Qed.

Lemma handle_main_returns d item mode task' :
  is_section_type cfg (component_type item) = false ->
  path_resolves d (conversation_id item) (thread_id item) (task_id item) ->
  addOrUpdateItem
    (default empty_task
       (task_at d (conversation_id item) (thread_id item) (task_id item)))
    item mode = Ok task' ->
  exists d', handleChatItemEvent cfg d item mode = Ok d'.
Proof.
  intros Hs (Hc & Ht & Hkid) Htask.
  eexists. rewrite handleChatItemEvent_at. apply at_conversation_Ok.
  split; [done|]. eexists. split; [|done].
  apply handle_conversation_main_Ok; [done|].
  rewrite <- task_at_conv.
  split; [done|]. split; [done|]. by exists task'.
Qed.

(** C1. With a configuration that does not list the empty kind.  An
    event with an item of a section-worthy kind, when it returns, has
    upserted the item with the event's merge mode into
    [sections[kind].tasks[task_id]] of its conversation: that task is
    what [addOrUpdateItem] makes of the task that was there (or of an
    empty one), it holds an item with the event's [item_id], and the
    item itself when the mode is replace or the id is new there; and
    the items of every thread/task are as they were.  An event with an
    item of any other kind does the same to
    [threads[thread_id].tasks[task_id]], and the items of every
    section are as they were.  Both return when the names of the path
    resolve and the merge returns.  Hence no reachable store has an
    item of a section-worthy kind under [conversation.threads]. *)
Theorem section_kinds_stay_out_of_threads :
  "" ∉ AGENT_SECTION_COMPONENT_TYPE ->
  (forall d item mode k d',
      component_type item = Some k -> k ∈ AGENT_SECTION_COMPONENT_TYPE ->
      handleChatItemEvent AGENT_SECTION_COMPONENT_TYPE d item mode = Ok d' ->
      exists task',
        addOrUpdateItem
          (default empty_task
             (section_task_at d (conversation_id item) k (task_id item)))
          item mode = Ok task' /\
        section_task_at d' (conversation_id item) k (task_id item)
          = Some task' /\
        (exists it, it ∈ section_items d' (conversation_id item) k
                           (task_id item) /\
                    item_id it = item_id item) /\
        (mode = Replace \/
         no_item_with_id (item_id item)
           (section_items d (conversation_id item) k (task_id item)) ->
         item ∈ section_items d' (conversation_id item) k (task_id item)) /\
        forall cid tid kid,
          main_items d' cid tid kid = main_items d cid tid kid) /\
  (forall d item mode d',
      (forall k, component_type item = Some k ->
                 k ∉ AGENT_SECTION_COMPONENT_TYPE) ->
      handleChatItemEvent AGENT_SECTION_COMPONENT_TYPE d item mode = Ok d' ->
      exists task',
        addOrUpdateItem
          (default empty_task
             (task_at d (conversation_id item) (thread_id item)
                (task_id item)))
          item mode = Ok task' /\
        task_at d' (conversation_id item) (thread_id item) (task_id item)
          = Some task' /\
        (exists it, it ∈ main_items d' (conversation_id item)
                           (thread_id item) (task_id item) /\
                    item_id it = item_id item) /\
        (mode = Replace \/
         no_item_with_id (item_id item)
           (main_items d (conversation_id item) (thread_id item)
              (task_id item)) ->
         item ∈ main_items d' (conversation_id item) (thread_id item)
                  (task_id item)) /\
        forall cid kind kid,
          section_items d' cid kind kid = section_items d cid kind kid) /\
  (forall d item mode k task',
      component_type item = Some k -> k ∈ AGENT_SECTION_COMPONENT_TYPE ->
      path_resolves d (conversation_id item) (thread_id item)
        (task_id item) ->
      section_resolves d (conversation_id item) k (task_id item) ->
      addOrUpdateItem
        (default empty_task
           (section_task_at d (conversation_id item) k (task_id item)))
        item mode = Ok task' ->
      exists d',
        handleChatItemEvent AGENT_SECTION_COMPONENT_TYPE d item mode
          = Ok d') /\
  (forall d item mode task',
      (forall k, component_type item = Some k ->
                 k ∉ AGENT_SECTION_COMPONENT_TYPE) ->
      path_resolves d (conversation_id item) (thread_id item)
        (task_id item) ->
      addOrUpdateItem
        (default empty_task
           (task_at d (conversation_id item) (thread_id item)
              (task_id item)))
        item mode = Ok task' ->
      exists d',
        handleChatItemEvent AGENT_SECTION_COMPONENT_TYPE d item mode
          = Ok d') /\
  (forall s, reachable AGENT_SECTION_COMPONENT_TYPE s ->
     forall cid c tid th kid t it k,
       s !! cid = Some c -> threads c !! tid = Some th ->
       (kid, t) ∈ tasks th -> it ∈ items t ->
       component_type it = Some k -> k ∉ AGENT_SECTION_COMPONENT_TYPE).
Proof.
  intros Hcfg. split; [|split; [|split; [|split]]].
  - intros d item mode k d' Hk Hin Hd'.
    assert (k <> "") as Hne by (by intros ->).
    destruct (handle_section_item d item mode k d' Hk Hne Hin Hd')
      as (task' & Htask & Hat & Hmain).
    exists task'. split; [done|]. split; [done|].
    unfold section_items at 1 3. rewrite Hat. simpl.
    split; [by eapply addOrUpdateItem_has_id|]. split; [|done].
    intros Hm. eapply addOrUpdateItem_stores; [done|].
    destruct Hm as [Hm|Hm]; [by left|right].
    unfold section_items in Hm. by destruct (section_task_at d _ _ _).
  - intros d item mode d' Hk Hd'.
    destruct (handle_main_item d item mode d' (main_kind item Hk) Hd')
      as (task' & Htask & Hat & Hsec).
    exists task'. split; [done|]. split; [done|].
    unfold main_items at 1 3. rewrite Hat. simpl.
    split; [by eapply addOrUpdateItem_has_id|]. split; [|done].
    intros Hm. eapply addOrUpdateItem_stores; [done|].
    destruct Hm as [Hm|Hm]; [by left|right].
    unfold main_items in Hm. by destruct (task_at d _ _ _).
  - intros d item mode k task' Hk Hin.
    apply handle_section_returns; [done| |done]. by intros ->.
  - intros d item mode task' Hk. apply handle_main_returns.
    by apply main_kind.
  - intros s Hs cid c tid th kid t it k Hc Hth Ht Hit Hk.
    by eapply (reachable_main_ok _ s Hcfg Hs cid c Hc tid th Hth kid t it).
Qed.

(** C8, amended. In every reachable store a conversation's [sections]
    has entries for section-worthy kinds only; the entry of a kind is
    a thread-shaped container that holds one task per task id, each
    with the items of that kind delivered under that task id; and an
    item of a section-worthy kind finds, after its event has returned,
    the task of its own task id in the entry of its kind; the event
    returns when the names of its path and of its section resolve and
    the merge returns. *)
Theorem sections_one_task_per_kind_and_task_id :
  (forall s, reachable AGENT_SECTION_COMPONENT_TYPE s ->
     forall cid c kind th,
       s !! cid = Some c -> sections c !! kind = Some th ->
       kind ∈ AGENT_SECTION_COMPONENT_TYPE /\
       NoDup (tasks th).*1 /\
       forall kid t it,
         (kid, t) ∈ tasks th -> it ∈ items t ->
         component_type it = Some kind /\ task_id it = kid) /\
  (forall d item mode k d',
      component_type item = Some k -> k <> "" ->
      k ∈ AGENT_SECTION_COMPONENT_TYPE ->
      handleChatItemEvent AGENT_SECTION_COMPONENT_TYPE d item mode = Ok d' ->
      exists t it,
        section_task_at d' (conversation_id item) k (task_id item)
          = Some t /\
        it ∈ items t /\ item_id it = item_id item) /\
  (forall d item mode k task',
      component_type item = Some k -> k <> "" ->
      k ∈ AGENT_SECTION_COMPONENT_TYPE ->
      path_resolves d (conversation_id item) (thread_id item)
        (task_id item) ->
      section_resolves d (conversation_id item) k (task_id item) ->
      addOrUpdateItem
        (default empty_task
           (section_task_at d (conversation_id item) k (task_id item)))
        item mode = Ok task' ->
      exists d',
        handleChatItemEvent AGENT_SECTION_COMPONENT_TYPE d item mode
          = Ok d').
Proof.
  split; [|split; [|apply handle_section_returns]].
  - intros s Hs cid c kind th Hc Hth.
    exact (reachable_sections_ok _ s Hs cid c Hc kind th Hth).
  - intros d item mode k d' Hk Hne Hin Hd'.
    destruct (handle_section_item d item mode k d' Hk Hne Hin Hd')
      as (task' & Htask & Hat & _).
    destruct (addOrUpdateItem_has_id _ _ _ _ Htask) as (it & Hit & Hid).
    eauto.
Qed.
End Projection.

(* ===================================================================== *)
(** ** Batches *)

Section Batch.
Context `{JsRuntime}.
Variable AGENT_SECTION_COMPONENT_TYPE : list string.

Local Abbreviation cfg := AGENT_SECTION_COMPONENT_TYPE.
Implicit Types (d s : AgentConversationsStore) (c : ConversationView).

Lemma looked_up_Ok cid r o :
  looked_up cid r = Ok o <-> exists d, r = Ok d /\ d !! cid = o.
Proof.
  unfold looked_up. rewrite bind_Ok. split.
  - intros (d & -> & [= <-]). by exists d.
  - intros (d & -> & <-). by exists d.
Qed.

Lemma looked_up_eq cid (r1 r2 : result AgentConversationsStore) :
  looked_up cid r1 = looked_up cid r2 <->
  match r1, r2 with
  | Ok d1, Ok d2 => d1 !! cid = d2 !! cid
  | Throw e1, Throw e2 => e1 = e2
  | _, _ => False
  end.
Proof.
  destruct r1, r2; simpl; split; try done; try congruence.
Qed.

(** What an event does to a conversation depends on that conversation
    only. *)
Lemma process_local d1 d2 sse cid d1' d2' :
  d1 !! cid = d2 !! cid ->
  processSSEEvent cfg d1 sse = Ok d1' ->
  processSSEEvent cfg d2 sse = Ok d2' ->
  d1' !! cid = d2' !! cid.
Proof.
  intros Hd. rewrite !processSSEEvent_at. case_bool_decide.
  - intros (_ & c1 & Hc1 & ->)%at_conversation_Ok
           (_ & c2 & Hc2 & ->)%at_conversation_Ok.
    destruct (decide (d_conversation_id (data sse) = cid)) as [Hc|Hc].
    + rewrite Hc in *. rewrite !lookup_insert_eq. rewrite Hd in Hc1.
      congruence.
    + by rewrite !lookup_insert_ne.
  - by intros [= <-] [= <-].
Qed.

(** Whether an event returns depends on the conversation it addresses
    only. *)
Lemma process_same d1 d2 sse :
  d1 !! d_conversation_id (data sse) = d2 !! d_conversation_id (data sse) ->
  looked_up (d_conversation_id (data sse)) (processSSEEvent cfg d1 sse) =
  looked_up (d_conversation_id (data sse)) (processSSEEvent cfg d2 sse).
Proof.
  intros Hd. rewrite !processSSEEvent_at. case_bool_decide.
  - rewrite !at_conversation_spec, Hd.
    destruct (d2 !! _) as [c|].
    + destruct (process_conversation _ _ c); simpl; [|done].
      by rewrite !lookup_insert_eq.
    + destruct (inherited _); [done|].
      destruct (process_conversation _ _ _); simpl; [|done].
      by rewrite !lookup_insert_eq.
  - simpl. by rewrite Hd.
Qed.

Lemma replay_local events d1 d2 cid d1' d2' :
  d1 !! cid = d2 !! cid ->
  replay cfg d1 events = Ok d1' -> replay cfg d2 events = Ok d2' ->
  d1' !! cid = d2' !! cid.
Proof.
  revert d1 d2. induction events as [|sse events IH]; intros d1 d2 Hd.
  - by intros [= <-] [= <-].
  - rewrite !replay_cons.
    intros (e1 & He1 & Hr1)%bind_Ok (e2 & He2 & Hr2)%bind_Ok.
    eapply IH; [|done..]. by eapply process_local.
Qed.

Lemma replay_same events d1 d2 cid :
  (forall sse, sse ∈ events -> d_conversation_id (data sse) = cid) ->
  d1 !! cid = d2 !! cid ->
  looked_up cid (replay cfg d1 events) = looked_up cid (replay cfg d2 events).
Proof.
  revert d1 d2. induction events as [|sse events IH]; intros d1 d2 Hall Hd.
  - simpl. by rewrite Hd.
  - rewrite !replay_cons.
    assert (d_conversation_id (data sse) = cid) as Hc
      by (apply Hall; left).
    pose proof (process_same d1 d2 sse) as Hs. rewrite Hc in Hs.
    specialize (Hs Hd). apply looked_up_eq in Hs.
    destruct (processSSEEvent cfg d1 sse) as [e1|],
             (processSSEEvent cfg d2 sse) as [e2|]; simpl; try done.
    + apply IH; [|done]. intros x Hx. apply Hall. by right.
    + by rewrite Hs.
Qed.

Lemma replay_lookup_ne events d d' cid :
  (forall sse, sse ∈ events -> d_conversation_id (data sse) <> cid) ->
  replay cfg d events = Ok d' -> d' !! cid = d !! cid.
Proof.
  revert d. induction events as [|sse events IH]; intros d Hall.
  - by intros [= <-].
  - rewrite replay_cons. intros (d1 & Hd1 & Hr)%bind_Ok.
    rewrite (IH d1); [| |done].
    + eapply processSSEEvent_lookup_ne; [done|]. apply Hall. left.
    + intros x Hx. apply Hall. by right.
Qed.

Lemma batch_start_clear s cid : batch_start s cid true !! cid = None.
Proof.
  unfold batch_start. simpl. destruct (_ || _) eqn:Hs.
  - apply lookup_delete_eq.
  - apply orb_false_iff in Hs as [Hs _].
    apply bool_decide_eq_false in Hs. by apply eq_None_not_Some.
Qed.

Lemma batch_start_lookup_ne s cid clear cid' :
  cid <> cid' -> batch_start s cid clear !! cid' = s !! cid'.
Proof.
  intros Hne. unfold batch_start. destruct (_ && _); [|done].
  by rewrite lookup_delete_ne.
Qed.

Lemma batch_start_keep s cid : batch_start s cid false = s.
Proof. done. Qed.

Lemma batch_spec s cid events clear :
  batchUpdateAgentConversationsStore cfg s cid events clear =
    (d ← replay cfg (batch_start s cid clear) events;
     match d !! cid with
     | Some _ => Ok (alter complete_conversation cid d)
     | None => if inherited cid then Throw TypeError else Ok d
     end).
Proof. done. Qed.

Lemma lookup_batch s cid events clear s' d :
  batchUpdateAgentConversationsStore cfg s cid events clear = Ok s' ->
  replay cfg (batch_start s cid clear) events = Ok d ->
  s' !! cid = complete_conversation <$> d !! cid.
Proof.
  intros (d0 & Hd0 & _ & ->)%batch_Ok Hd. rewrite Hd0 in Hd.
  injection Hd as ->. by rewrite lookup_alter_eq.
Qed.

Lemma obj_get_fmap_values {V W} (f : V -> W) (k : string) (o : jsobj V) :
  obj_get k ((fun kv => (kv.1, f kv.2)) <$> o) = f <$> obj_get k o.
Proof.
  induction o as [|[k0 v0] o IH]; simpl; [done|].
  by destruct (decide (k = k0)).
Qed.

Lemma conv_task_complete c tid kid :
  conv_task (complete_conversation c) tid kid =
    markAllReasoningComplete <$> conv_task c tid kid.
Proof.
  unfold conv_task, complete_conversation; simpl. rewrite lookup_fmap.
  destruct (threads c !! tid) as [th|]; simpl; [|done].
  apply obj_get_fmap_values.
Qed.

Lemma task_at_alter_complete d cid tid kid :
  task_at (alter complete_conversation cid d) cid tid kid =
    markAllReasoningComplete <$> task_at d cid tid kid.
Proof.
  unfold task_at. rewrite lookup_alter_eq.
  destruct (d !! cid) as [c|]; simpl; [|done]. apply conv_task_complete.
Qed.

Lemma section_task_at_alter_complete d cid cid' kind kid :
  section_task_at (alter complete_conversation cid d) cid' kind kid =
    section_task_at d cid' kind kid.
Proof.
  unfold section_task_at. rewrite lookup_alter. case_decide; [|done].
  subst cid'. by destruct (d !! cid).
Qed.

Lemma mark_item_complete_marks it content v ic :
  component_type it = Some "reasoning" ->
  content_value it = Some content ->
  json_parse content = Ok v -> js_prop v "isComplete" = Ok ic ->
  js_truthy ic = false ->
  mark_item_complete it = set_content it (completed_record v).
Proof.
  intros Hk Hc Hv Hic Ht. unfold mark_item_complete.
  rewrite bool_decide_eq_true_2 by done. rewrite Hc, Hv. simpl.
  rewrite Hic. simpl. by rewrite Ht.
Qed.

Lemma mark_item_complete_skips it :
  component_type it <> Some "reasoning" \/
  hasContent it = false \/
  (exists content,
      content_value it = Some content /\
      ((exists e, json_parse content = Throw e) \/
       json_parse content = Ok JNull \/
       exists v ic, json_parse content = Ok v /\
                    js_prop v "isComplete" = Ok ic /\
                    js_truthy ic = true)) ->
  mark_item_complete it = it.
Proof.
  unfold mark_item_complete.
  intros [Hk|[Hc%hasContent_false|(content & Hc & Hp)]].
  - by rewrite bool_decide_eq_false_2.
  - rewrite Hc. by case_bool_decide.
  - rewrite Hc. case_bool_decide; [|done].
    destruct Hp as [[e ->]|[->|(v & ic & -> & Hic & Ht)]]; try done.
    simpl. rewrite Hic. simpl. by rewrite Ht.
Qed.

(** The batch with [clearHistory] does to the conversation what it
    does from the empty store. *)
Lemma batch_clear_local s1 s2 cid events s1' s2' :
  batchUpdateAgentConversationsStore cfg s1 cid events true = Ok s1' ->
  batchUpdateAgentConversationsStore cfg s2 cid events true = Ok s2' ->
  s1' !! cid = s2' !! cid.
Proof.
  intros (d1 & Hd1 & _ & ->)%batch_Ok (d2 & Hd2 & _ & ->)%batch_Ok.
  rewrite !lookup_alter_eq. f_equal.
  eapply replay_local; [|done..]. by rewrite !batch_start_clear.
Qed.

Lemma batch_clear_same s1 s2 cid events :
  (forall sse, sse ∈ events -> d_conversation_id (data sse) = cid) ->
  looked_up cid (batchUpdateAgentConversationsStore cfg s1 cid events true) =
  looked_up cid (batchUpdateAgentConversationsStore cfg s2 cid events true).
Proof.
  intros Hall. rewrite !batch_spec.
  pose proof (replay_same events (batch_start s1 cid true)
                (batch_start s2 cid true) cid Hall) as Hs.
  rewrite !batch_start_clear in Hs. specialize (Hs eq_refl).
  apply looked_up_eq in Hs.
  destruct (replay cfg (batch_start s1 cid true) events) as [d1|],
           (replay cfg (batch_start s2 cid true) events) as [d2|];
    simpl; try done; [|by rewrite Hs].
  rewrite Hs. destruct (d2 !! cid) as [c|] eqn:Hc; simpl.
  - by rewrite !lookup_alter_eq, Hs, Hc.
  - destruct (inherited cid); [done|]. simpl. by rewrite Hs, Hc.
Qed.

(** C6, amended. A batch with [clearHistory] forgets what the store
    held for the conversation: when it returns, the conversation it
    returns is the one the same events build from the empty store, and
    when every event addresses the conversation it returns, or throws,
    as it does from the empty store.  A batch that returns has
    replayed the events in order on the draft and then, in each task
    of the conversation's threads, applied [mark_item_complete] to
    every item; the sections are not visited.  That completion
    rewrites a reasoning item whose content deserializes to a value
    other than [null] with a falsy [isComplete]: the item keeps every
    other field, and the content read back from it is the serialized
    record with [isComplete: true] and every other key as the spread
    of the parsed value has it, which is what the targeted completion
    writes for it.  An item that is not of the reasoning kind, has no
    [content] property, has content that does not deserialize or
    deserializes to [null], or is already complete, stays as it is. *)
Theorem batch_clear_then_complete (store : AgentConversationsStore)
    (cid : string) (events : list SSEData) :
  (forall s1 s2,
     batchUpdateAgentConversationsStore AGENT_SECTION_COMPONENT_TYPE store
       cid events true = Ok s1 ->
     batchUpdateAgentConversationsStore AGENT_SECTION_COMPONENT_TYPE ∅
       cid events true = Ok s2 ->
     s1 !! cid = s2 !! cid) /\
  ((forall sse, sse ∈ events -> d_conversation_id (data sse) = cid) ->
   looked_up cid
     (batchUpdateAgentConversationsStore AGENT_SECTION_COMPONENT_TYPE store
        cid events true) =
   looked_up cid
     (batchUpdateAgentConversationsStore AGENT_SECTION_COMPONENT_TYPE ∅
        cid events true)) /\
  (forall clear result,
     batchUpdateAgentConversationsStore AGENT_SECTION_COMPONENT_TYPE
       store cid events clear = Ok result <->
     exists replayed,
       replay cfg (batch_start store cid clear) events = Ok replayed /\
       (is_Some (replayed !! cid) \/ ordinary cid) /\
       result = alter complete_conversation cid replayed) /\
  (forall replayed tid kid,
     items <$> task_at (alter complete_conversation cid replayed) cid tid kid
       = (fun t => mark_item_complete <$> items t)
           <$> task_at replayed cid tid kid /\
     forall kind,
       section_task_at (alter complete_conversation cid replayed)
         cid kind kid =
       section_task_at replayed cid kind kid) /\
  (forall it content v ic,
      component_type it = Some "reasoning" ->
      content_value it = Some content ->
      json_parse content = Ok v -> js_prop v "isComplete" = Ok ic ->
      js_truthy ic = false ->
      exists record,
        same_but_content it (mark_item_complete it) /\
        payload_content (mark_item_complete it)
          = Some (JSON_stringify (JObj record)) /\
        obj_get "isComplete" record = Some (JBool true) /\
        (forall k, k <> "isComplete" ->
           obj_get k record = obj_get k (js_spread v)) /\
        (forall o k, v = JObj o -> k <> "isComplete" ->
           obj_get k record = obj_get k o) /\
        forall task i,
          first_with_id (item_id it) (items task) i it ->
          markReasoningComplete task (item_id it) =
            {| items := <[i := mark_item_complete it]> (items task) |}) /\
  (forall it,
      component_type it <> Some "reasoning" \/
      hasContent it = false \/
      (exists content,
          content_value it = Some content /\
          ((exists e, json_parse content = Throw e) \/
           json_parse content = Ok JNull \/
           exists v ic, json_parse content = Ok v /\
                        js_prop v "isComplete" = Ok ic /\
                        js_truthy ic = true)) ->
      mark_item_complete it = it).
Proof.
  split; [|split; [|split; [|split; [|split]]]].
  - intros s1 s2. apply batch_clear_local.
  - apply batch_clear_same.
  - intros clear result. apply batch_Ok.
  - intros replayed tid kid. split.
    + rewrite task_at_alter_complete.
      by destruct (task_at replayed cid tid kid).
    + intros kind. apply section_task_at_alter_complete.
  - intros it content v ic Hk Hc Hv Hic Ht.
    rewrite (mark_item_complete_marks it content v ic) by done.
    destruct (completed_record_fields v) as (record & Hr & _ & Hrec & Hkeys).
    exists record. split; [apply set_content_same|].
    split; [by rewrite <- Hr; apply payload_content_set_content|].
    split; [done|]. split; [done|].
    split; [intros o k -> Hne; by apply Hkeys|].
    intros task i Hf.
    rewrite (markReasoningComplete_found _ _ _ _ _ Hf Hc). by rewrite Hv.
  - apply mark_item_complete_skips.
Qed.
End Batch.

(* ===================================================================== *)
(** ** The properties on the sample inputs *)

Section OnSamples.
Import Samples.
#[local] Existing Instance RefJSON.runtime.

Lemma not_elem_of_computed (x : string) (l : list string) :
  bool_decide (x ∈ l) = false -> x ∉ l.
Proof. apply bool_decide_eq_false. Defined.

Lemma elem_of_computed (x : string) (l : list string) :
  bool_decide (x ∈ l) = true -> x ∈ l.
Proof. apply bool_decide_eq_true. Defined.

Lemma inbox_returned :
  updateAgentConversationsStore section_types ∅ user_message = Ok inbox.
Proof. vm_compute. reflexivity. Qed.

Lemma planned_returned :
  replay section_types ∅ [user_message; plan_started; plan_completed]
    = Ok planned.
Proof. vm_compute. reflexivity. Qed.

Lemma thinking_returned :
  replay section_types ∅
    [ sse "reasoning_started" "r1" "k1" "agent" [];
      sse "reasoning" "r1" "k1" "agent" [("content", JStr "foo")];
      sse "reasoning" "r1" "k1" "agent" [("content", JStr "bar")] ]
    = Ok thinking.
Proof. vm_compute. reflexivity. Qed.

Lemma two_results_returned :
  replay section_types ∅
    [ sse "component_generator" "s1" "k1" "agent" result_payload;
      sse "component_generator" "s2" "k2" "agent" result_payload ]
    = Ok two_results.
Proof. vm_compute. reflexivity. Qed.

Lemma replayed_raw_returned :
  batchUpdateAgentConversationsStore section_types ∅ "c1" [raw_reasoning]
    true = Ok replayed_raw.
Proof. vm_compute. reflexivity. Qed.

Lemma stored_result_returned :
  handleChatItemEvent section_types ∅ (result_item "k1") Replace
    = Ok stored_result.
Proof. vm_compute. reflexivity. Qed.

Lemma stored_chunk_returned :
  handleChatItemEvent section_types ∅ chunk_a Append = Ok stored_chunk.
Proof. vm_compute. reflexivity. Qed.

Lemma inbox_reachable : reachable section_types inbox.
Proof.
  exact (reachable_update _ _ _ _ (reachable_empty _) inbox_returned).
Qed.

Lemma two_results_reachable : reachable section_types two_results.
Proof.
  exact (reachable_replay _ _ _ _ (reachable_empty _) two_results_returned).
Qed.

(** C5, amended. On the sample thread, whose first tool-call item
    names the plan-generation tool and whose user message names a
    subject and has no news marker, the third tool-call event gets the
    second analysis title followed by the subject in fullwidth
    parentheses.  For the analysis template an ordinal of at least 2
    with a subject name that is neither null nor empty appends the
    parenthesized subject to the looked-up title; a news label is the
    bare title of its ordinal, or none. *)
Theorem planned_step_label_spec :
  (replay section_types ∅ [user_message; plan_started; plan_completed]
     = Ok planned /\
   ensurePath planned "c1" "t1" "k1" = Ok planned /\
   getPlanningToolItems planned_thread = [plan_item] /\
   detectStepTemplateInThread planned_thread = Ok Analysis /\
   detectCompanyNameInThread planned_thread None = Ok (Some "贵州茅台") /\
   getToolStepOrderInThread planned_thread (d_item_id (data filings_started))
     (obj_get "tool_name" (d_payload (data filings_started))) = 2%Z /\
   (exists title,
       ANALYSIS_STEP_TITLES !! 1%nat = Some title /\
       plannedStepLabel planned_thread (data filings_started) =
         Ok (Some (title +:+ "（" +:+ "贵州茅台" +:+ "）"))) /\
   exists d,
     processSSEEvent section_types planned filings_started = Ok d /\
     task_at d "c1" "t1" "k1"
       = Some {| items := [plan_item; filings_item] |}) /\
  (forall stepOrder name,
      (2 <= stepOrder)%Z -> name <> "" ->
      buildPlannedStepLabel stepOrder (Some name) Analysis =
        Some (analysis_title stepOrder +:+ "（" +:+ name +:+ "）")) /\
  (forall stepOrder name,
      buildPlannedStepLabel stepOrder name News =
        js_index NEWS_STEP_TITLES (stepOrder - 1)).
Proof.
  split; [|split].
  - do 6 (split; [vm_compute; reflexivity|]).
    split.
    + exists "基本面与财务健康度调研". split; vm_compute; reflexivity.
    + eexists. split; vm_compute; reflexivity.
  - intros stepOrder name Hge Hne.
    rewrite buildPlannedStepLabel_analysis.
    apply Z.leb_le in Hge. apply String.eqb_neq in Hne.
    by rewrite Hge, Hne.
  - apply buildPlannedStepLabel_news.
Qed.

Lemma planned_step_label_witness :
  (2 <= 2)%Z /\ "贵州茅台" <> "" /\
  buildPlannedStepLabel 2 (Some "贵州茅台") Analysis =
    Some (analysis_title 2 +:+ "（" +:+ "贵州茅台" +:+ "）").
Proof.
  assert ((2 <= 2)%Z) as Hge by lia.
  assert ("贵州茅台" <> "") as Hne by discriminate.
  split; [exact Hge|]. split; [exact Hne|].
  exact (proj1 (proj2 planned_step_label_spec) 2%Z "贵州茅台" Hge Hne).
Defined.

(** C5 as stated fails for the empty subject name, which is not null:
    the title comes back without parentheses. *)
Lemma empty_subject_is_not_appended :
  buildPlannedStepLabel 2 (Some "") Analysis = Some (analysis_title 2) /\
  Some (analysis_title 2) <>
    Some (analysis_title 2 +:+ "（" +:+ "" +:+ "）").
Proof. split; [reflexivity|]. vm_compute. discriminate. Qed.

(** C2 as stated fails for a new item whose [content] property holds
    [null]: it exposes no string content, yet the upsert does not
    replace the stored item; it appends the text [null] to the stored
    content in place. *)
Lemma append_null_content_concatenates :
  payload_content chunk_a = Some "Hel" /\
  payload_content null_chunk = None /\
  hasContent null_chunk = true /\
  first_with_id (item_id null_chunk) [chunk_a] 0 chunk_a /\
  addOrUpdateItem {| items := [chunk_a] |} null_chunk Append
    = Ok {| items := [set_content chunk_a "Helnull"] |} /\
  addOrUpdateItem {| items := [chunk_a] |} null_chunk Append
    <> Ok {| items := <[0%nat := null_chunk]> [chunk_a] |}.
Proof.
  do 3 (split; [vm_compute; reflexivity|]).
  split; [by apply first_with_id_find|].
  split; [vm_compute; reflexivity|].
  vm_compute. discriminate.
Qed.

(** C3 as stated fails when the stored content deserializes to
    [null]: both contents deserialize, yet the item the reasoning
    event builds replaces the stored one, whose other fields are
    lost, instead of being merged into it. *)
Lemma append_reasoning_null_replaces :
  payload_content null_note = Some "null" /\
  JSON_parse "null" = Ok JNull /\
  payload_content (thought "a")
    = Some (JSON_stringify (JObj (reasoning_record "a" false))) /\
  JSON_parse (JSON_stringify (JObj (reasoning_record "a" false)))
    = Ok (JObj (reasoning_record "a" false)) /\
  first_with_id (item_id (thought "a")) [null_note] 0 null_note /\
  addOrUpdateItem {| items := [null_note] |} (thought "a") AppendReasoning
    = Ok {| items := [thought "a"] |} /\
  (forall s, thought "a" <> set_content null_note s) /\
  exists d,
    replay section_types ∅ [null_message; reasoning_a] = Ok d /\
    task_at d "c1" "t1" "k1" = Some {| items := [thought "a"] |}.
Proof.
  do 4 (split; [vm_compute; reflexivity|]).
  split; [by apply first_with_id_find|].
  split; [vm_compute; reflexivity|].
  split; [intros s Heq; by injection Heq|].
  eexists. split; vm_compute; reflexivity.
Qed.

(** C6 as stated fails for a reasoning item whose content does not
    deserialize: the batch leaves it as it is, where the targeted
    completion would wrap it. *)
Lemma batch_skips_unparseable_reasoning :
  batchUpdateAgentConversationsStore section_types ∅ "c1" [raw_reasoning]
    true = Ok replayed_raw /\
  task_at replayed_raw "c1" "t1" "k1"
    = Some {| items := [raw_reasoning_item] |} /\
  component_type raw_reasoning_item = Some "reasoning" /\
  payload_content raw_reasoning_item = Some "thinking" /\
  JSON_parse "thinking" = Throw SyntaxError /\
  markReasoningComplete {| items := [raw_reasoning_item] |} "r1"
    = {| items := [set_content raw_reasoning_item
                     (wrapped_record (JStr "thinking"))] |} /\
  set_content raw_reasoning_item (wrapped_record (JStr "thinking"))
    <> raw_reasoning_item.
Proof.
  do 6 (split; [vm_compute; reflexivity|]).
  vm_compute. discriminate.
Qed.

(** C8 as stated fails as soon as two task ids deliver items of one
    section-worthy kind: the section of that kind holds two tasks. *)
Lemma section_holds_a_task_per_task_id :
  reachable section_types two_results /\
  two_results !! "c1" = Some two_results_conversation /\
  sections two_results_conversation !! "scheduled_task_result"
    = Some two_results_section /\
  (tasks two_results_section).*1 = ["k1"; "k2"].
Proof.
  split; [exact two_results_reachable|].
  do 2 (split; [vm_compute; reflexivity|]). vm_compute; reflexivity.
Qed.

(** *** Instances *)

Lemma section_kinds_stay_out_of_threads_witness :
  ("" ∉ section_types) /\
  (exists task',
     section_task_at stored_result "c1" "scheduled_task_result" "k1"
       = Some task' /\
     result_item "k1" ∈ section_items stored_result "c1"
                          "scheduled_task_result" "k1" /\
     main_items stored_result "c1" "t1" "k1" = main_items ∅ "c1" "t1" "k1") /\
  (exists task',
     task_at stored_chunk "c1" "t1" "k0" = Some task' /\
     chunk_a ∈ main_items stored_chunk "c1" "t1" "k0" /\
     section_items stored_chunk "c1" "scheduled_task_result" "k0"
       = section_items ∅ "c1" "scheduled_task_result" "k0") /\
  (exists d',
     handleChatItemEvent section_types stored_result (result_item "k1")
       Replace = Ok d') /\
  "markdown" ∉ section_types.
Proof.
  assert ("" ∉ section_types) as Hcfg.
  { apply not_elem_of_computed. reflexivity. }
  assert ("scheduled_task_result" ∈ section_types) as Hkind.
  { apply elem_of_computed. reflexivity. }
  assert (forall k, Some "markdown" = Some k -> k ∉ section_types) as Hmd.
  { intros k [= <-]. apply not_elem_of_computed. reflexivity. }
  destruct (section_kinds_stay_out_of_threads section_types Hcfg)
    as (Hsection & Hmain & Hsreturns & Hmreturns & Hreach).
  split; [exact Hcfg|]. split; [|split; [|split]].
  - destruct (Hsection ∅ (result_item "k1") Replace "scheduled_task_result"
                stored_result eq_refl Hkind stored_result_returned)
      as (task' & _ & Hat & _ & Hstored & Hm).
    exists task'. split; [exact Hat|].
    split; [exact (Hstored (or_introl eq_refl))|exact (Hm "c1" "t1" "k1")].
  - destruct (Hmain ∅ chunk_a Append stored_chunk Hmd
                stored_chunk_returned)
      as (task' & _ & Hat & _ & Hstored & Hs).
    exists task'. split; [exact Hat|]. split.
    + apply Hstored. right. intros y Hy. by apply elem_of_nil in Hy.
    + exact (Hs "c1" "scheduled_task_result" "k0").
  - refine (Hsreturns stored_result (result_item "k1") Replace
              "scheduled_task_result" _ eq_refl Hkind _ _ _).
    + apply path_resolves_ordinary; reflexivity.
    + split; right; reflexivity.
    + vm_compute. reflexivity.
  - refine (Hreach inbox inbox_reachable
              "c1" inbox_conversation "t1" inbox_thread "k0" inbox_task
              inbox_item "markdown" eq_refl eq_refl _ _ eq_refl).
    + apply obj_get_Some_elem. reflexivity.
    + apply (list_elem_of_lookup_2 _ 0%nat). reflexivity.
Defined.

Lemma addOrUpdateItem_append_witness :
  (exists a',
      addOrUpdateItem {| items := [other_item; chunk_a] |} chunk_b Append
        = Ok {| items := <[1%nat := a']> [other_item; chunk_a] |} /\
      payload_content a' = Some ("Hel" +:+ "lo") /\
      same_but_content chunk_a a') /\
  addOrUpdateItem {| items := [other_item; chunk_a] |} bare_b Append
    = Ok {| items := <[1%nat := bare_b]> [other_item; chunk_a] |} /\
  (exists a',
      addOrUpdateItem {| items := [other_item; chunk_a] |} null_chunk Append
        = Ok {| items := <[1%nat := a']> [other_item; chunk_a] |} /\
      content_value a' = Some (JStr "Helnull") /\
      same_but_content chunk_a a') /\
  addOrUpdateItem {| items := [other_item] |} chunk_b Replace
    = Ok {| items := [other_item] ++ [chunk_b] |} /\
  (exists a',
      (task1 ← addOrUpdateItem {| items := [other_item] |} chunk_a Replace;
       addOrUpdateItem task1 chunk_b Append)
        = Ok {| items := [other_item] ++ [a'] |} /\
      payload_content a' = Some ("Hel" +:+ "lo") /\
      same_but_content chunk_a a').
Proof.
  assert (first_with_id "m1" [other_item; chunk_a] 1 chunk_a) as Hfirst.
  { apply first_with_id_find. reflexivity. }
  assert (no_item_with_id "m1" [other_item]) as Hnone.
  { apply no_item_with_id_find. reflexivity. }
  split; [|split; [|split; [|split]]].
  - exact (proj1 (addOrUpdateItem_append_spec
                    {| items := [other_item; chunk_a] |} chunk_b)
             1%nat chunk_a "Hel" "lo" Hfirst eq_refl eq_refl).
  - exact (proj1 (proj2 (addOrUpdateItem_append_spec
                           {| items := [other_item; chunk_a] |} bare_b))
             1%nat chunk_a Hfirst (or_intror eq_refl)).
  - exact (proj1 (proj1 (proj2 (proj2 (addOrUpdateItem_append_spec
                           {| items := [other_item; chunk_a] |} null_chunk)))
                    1%nat chunk_a (JStr "Hel") JNull Hfirst eq_refl eq_refl)
             (JStr "Helnull") eq_refl).
  - exact (proj1 (proj2 (proj2 (proj2 (addOrUpdateItem_append_spec
                                  {| items := [other_item] |} chunk_b))))
             Replace Hnone).
  - exact (proj2 (proj2 (proj2 (proj2 (addOrUpdateItem_append_spec
                                  {| items := [other_item] |} chunk_b))))
             chunk_a Replace "Hel" "lo" eq_refl Hnone eq_refl eq_refl).
Defined.

Lemma addOrUpdateItem_append_reasoning_witness :
  first_with_id (item_id (thought "bar")) [thought "foo"] 0 (thought "foo") /\
  (exists a',
     addOrUpdateItem {| items := [thought "foo"] |} (thought "bar")
       AppendReasoning
     = Ok {| items := <[0%nat := a']> [thought "foo"] |} /\
     same_but_content (thought "foo") a' /\
     payload_content a' =
       Some (JSON_stringify
               (JObj [("content", JStr ("foo" +:+ "bar"));
                      ("isComplete",
                       nullish
                         (obj_get "isComplete" (reasoning_record "bar" false))
                         (JBool false))]))) /\
  addOrUpdateItem {| items := [null_note] |} (thought "a") AppendReasoning
  = Ok {| items := <[0%nat := thought "a"]> [null_note] |} /\
  exists task',
    addOrUpdateItem {| items := [null_note] |} (thought "a") AppendReasoning
      = Ok task'.
Proof.
  assert (first_with_id "r1" [thought "foo"] 0 (thought "foo")) as Hfirst.
  { apply first_with_id_find. reflexivity. }
  assert (first_with_id "r1" [null_note] 0 null_note) as Hnote.
  { apply first_with_id_find. reflexivity. }
  split; [exact Hfirst|]. split; [|split].
  - refine (proj1 (proj2 (proj1 (addOrUpdateItem_append_reasoning_spec
              {| items := [thought "foo"] |} (thought "bar")) 0%nat
              (thought "foo") _ _ Hfirst eq_refl eq_refl))
              (reasoning_record "foo" false) (reasoning_record "bar" false)
              "foo" "bar" _ _ eq_refl eq_refl); vm_compute; reflexivity.
  - refine (proj1 (proj2 (proj2 (proj1 (addOrUpdateItem_append_reasoning_spec
              {| items := [null_note] |} (thought "a")) 0%nat
              null_note _ _ Hnote eq_refl eq_refl))) _).
    right; right; left. vm_compute. reflexivity.
  - exact (proj2 (addOrUpdateItem_append_reasoning_spec
                    {| items := [null_note] |} (thought "a"))).
Defined.

Lemma getToolStepOrderInThread_witness :
  getToolStepOrderInThread empty_thread "i1"
    (Some (JStr "generate_execution_plan")) = 1%Z /\
  getToolStepOrderInThread empty_thread "i1" (Some (JStr "web_search"))
    = 0%Z /\
  getToolStepOrderInThread planned_thread "i1"
    (Some (JStr "generate_execution_plan")) = (Z.of_nat 0 + 1)%Z /\
  getToolStepOrderInThread planned_thread "i2"
    (Some (JStr "fetch_ashare_filings"))
  = (Z.of_nat (length (getPlanningToolItems planned_thread)) + 1)%Z.
Proof.
  split; [|split; [|split]].
  - exact (proj1 (proj2 (getToolStepOrderInThread_spec empty_thread "i1"
                           (Some (JStr "generate_execution_plan"))))
             eq_refl eq_refl).
  - refine (proj1 (proj2 (proj2 (getToolStepOrderInThread_spec empty_thread
                                   "i1" (Some (JStr "web_search")))))
              eq_refl _).
    discriminate.
  - refine (proj1 (proj2 (proj2 (proj2 (getToolStepOrderInThread_spec
              planned_thread "i1"
              (Some (JStr "generate_execution_plan"))))))
              0%nat plan_item _).
    apply first_with_id_find. vm_compute. reflexivity.
  - refine (proj2 (proj2 (proj2 (proj2 (getToolStepOrderInThread_spec
              planned_thread "i2"
              (Some (JStr "fetch_ashare_filings")))))) _ _).
    + vm_compute. discriminate.
    + apply no_item_with_id_find. vm_compute. reflexivity.
Defined.

Lemma batch_clear_then_complete_witness :
  (exists record,
     same_but_content (thought "foo") (mark_item_complete (thought "foo")) /\
     payload_content (mark_item_complete (thought "foo"))
       = Some (JSON_stringify (JObj record)) /\
     obj_get "isComplete" record = Some (JBool true) /\
     obj_get "content" record = Some (JStr "foo") /\
     markReasoningComplete {| items := [thought "foo"] |} "r1"
       = {| items := <[0%nat := mark_item_complete (thought "foo")]>
                       [thought "foo"] |}) /\
  (exists s1,
     batchUpdateAgentConversationsStore section_types inbox "c1"
       [raw_reasoning] true = Ok s1 /\
     s1 !! "c1" = replayed_raw !! "c1") /\
  mark_item_complete raw_reasoning_item = raw_reasoning_item /\
  mark_item_complete chunk_a = chunk_a /\
  mark_item_complete null_chunk = null_chunk.
Proof.
  destruct (batch_clear_then_complete section_types inbox "c1"
              [raw_reasoning])
    as (Hlocal & _ & _ & _ & Hmark & Hskip).
  assert (json_parse
            (JStr (JSON_stringify (JObj (reasoning_record "foo" false))))
          = Ok (JObj (reasoning_record "foo" false))) as Hparse
    by (vm_compute; reflexivity).
  destruct (Hmark (thought "foo") _ _ (Some (JBool false))
              eq_refl eq_refl Hparse eq_refl eq_refl)
    as (record & Hsame & Hread & Hic & _ & Hkeys & Htask).
  split; [|split; [|split; [|split]]].
  - exists record. split; [exact Hsame|]. split; [exact Hread|].
    split; [exact Hic|]. split.
    + refine (Hkeys _ "content" eq_refl _). discriminate.
    + apply (Htask {| items := [thought "foo"] |} 0%nat).
      apply first_with_id_find. vm_compute. reflexivity.
  - eexists. split; [vm_compute; reflexivity|].
    refine (Hlocal _ replayed_raw _ replayed_raw_returned).
    vm_compute. reflexivity.
  - apply Hskip. right; right. exists (JStr "thinking").
    split; [reflexivity|]. left. exists SyntaxError.
    vm_compute. reflexivity.
  - apply Hskip. left. discriminate.
  - apply Hskip. left. discriminate.
Defined.

Lemma markReasoningComplete_witness :
  event reasoning_done = "reasoning_completed" /\
  (exists d',
     processSSEEvent section_types thinking reasoning_done = Ok d' /\
     task_at d' "c1" "t1" "k1"
       = Some (markReasoningComplete
                 (default empty_task (task_at thinking "c1" "t1" "k1"))
                 "r1")) /\
  (exists it' record,
      markReasoningComplete {| items := [thought "foobar"] |} "r1"
        = {| items := <[0%nat := it']> [thought "foobar"] |} /\
      same_but_content (thought "foobar") it' /\
      payload_content it' = Some (JSON_stringify (JObj record)) /\
      obj_get "isComplete" record = Some (JBool true) /\
      obj_get "content" record = Some (JStr "foobar")) /\
  (exists it',
     markReasoningComplete {| items := [raw_reasoning_item] |} "r1"
       = {| items := <[0%nat := it']> [raw_reasoning_item] |} /\
     payload_content it'
       = Some (JSON_stringify
                 (JObj [("content", JStr "thinking");
                        ("isComplete", JBool true)]))).
Proof.
  split; [reflexivity|].
  destruct (markReasoningComplete_spec section_types thinking reasoning_done
              eq_refl) as (Htask & Hreturns & Hresolves & Hitem & _ & _).
  split; [|split].
  - destruct (Hreturns (Hresolves (or_introl
                (mk_is_Some _ {| items := [thought "foobar"] |}
                   ltac:(vm_compute; reflexivity))))) as [d' Hd'].
    exists d'. split; [exact Hd'|exact (Htask d' Hd')].
  - destruct (Hitem 0%nat (thought "foobar") _
                ltac:(apply first_with_id_find; vm_compute; reflexivity)
                eq_refl) as (it' & Hmark & Hsame & Hparsed & _).
    destruct (Hparsed (JObj (reasoning_record "foobar" false))
                ltac:(vm_compute; reflexivity))
      as (record & Hr & Hic & _ & Hcontent).
    exists it', record. split; [exact Hmark|]. split; [exact Hsame|].
    split; [exact Hr|]. split; [exact Hic|].
    refine (Hcontent _ "content" eq_refl _). discriminate.
  - destruct (markReasoningComplete_spec section_types replayed_raw
                reasoning_done eq_refl) as (_ & _ & _ & Hraw & _ & _).
    destruct (Hraw 0%nat raw_reasoning_item (JStr "thinking")
                ltac:(apply first_with_id_find; vm_compute; reflexivity)
                eq_refl) as (it' & Hmark & _ & _ & Hunparsed).
    exists it'. split; [exact Hmark|].
    apply (Hunparsed SyntaxError). vm_compute. reflexivity.
Defined.

Lemma sections_one_task_per_kind_and_task_id_witness :
  ("scheduled_task_result" ∈ section_types /\
   NoDup (tasks two_results_section).*1) /\
  exists d' t it,
    handleChatItemEvent section_types two_results (result_item "k3") Replace
      = Ok d' /\
    section_task_at d' "c1" "scheduled_task_result" "k3" = Some t /\
    it ∈ items t /\ item_id it = "s1".
Proof.
  destruct (sections_one_task_per_kind_and_task_id section_types)
    as (Hreach & Hhandle & Hreturns).
  split.
  - destruct (Hreach two_results two_results_reachable
                "c1" two_results_conversation "scheduled_task_result"
                two_results_section eq_refl eq_refl) as (Hin & Hnd & _).
    split; [exact Hin|exact Hnd].
  - destruct (Hreturns two_results (result_item "k3") Replace
                "scheduled_task_result" {| items := [result_item "k3"] |}
                eq_refl ltac:(discriminate)
                (elem_of_computed "scheduled_task_result" section_types
                   eq_refl)) as [d' Hd'].
    { split; [|split]; right; reflexivity. }
    { split; right; reflexivity. }
    { vm_compute. reflexivity. }
    exists d'.
    destruct (Hhandle two_results (result_item "k3") Replace
                "scheduled_task_result" d' eq_refl
                ltac:(discriminate)
                (elem_of_computed "scheduled_task_result" section_types
                   eq_refl) Hd') as (t & it & Ht & Hit & Hid).
    exists t, it. split; [exact Hd'|]. split; [exact Ht|].
    split; [exact Hit|exact Hid].
Defined.

Lemma unknown_event_noop_witness :
  (event heartbeat ∉ RECOGNIZED_EVENTS) /\
  updateAgentConversationsStore section_types inbox heartbeat = Ok inbox.
Proof.
  assert (event heartbeat ∉ RECOGNIZED_EVENTS) as Hunknown.
  { apply not_elem_of_computed. reflexivity. }
  split; [exact Hunknown|].
  exact (unknown_event_noop section_types inbox heartbeat Hunknown).
Defined.

Lemma reasoning_completed_ignores_kind_witness :
  (component_type plan_item = Some "tool_call" /\
   exists d' it' record,
     processSSEEvent section_types planned plan_done = Ok d' /\
     task_at d' "c1" "t1" "k1"
       = Some {| items := <[0%nat := it']> [plan_item] |} /\
     same_but_content plan_item it' /\
     payload_content it' = Some (JSON_stringify (JObj record)) /\
     obj_get "isComplete" record = Some (JBool true) /\
     obj_get "tool_name" record = Some (JStr "generate_execution_plan") /\
     obj_get "step_label" record = Some (JStr "构建分析策略任务规划")) /\
  (component_type inbox_item = Some "markdown" /\
   exists d' it',
     processSSEEvent section_types inbox message_done = Ok d' /\
     task_at d' "c1" "t1" "k0"
       = Some {| items := <[0%nat := it']> (items inbox_task) |} /\
     same_but_content inbox_item it' /\
     payload_content it'
       = Some (JSON_stringify
                 (JObj [("content", JStr "贵州茅台（600519）基本面怎么样");
                        ("isComplete", JBool true)]))).
Proof.
  split; split; try reflexivity.
  - destruct (reasoning_completed_ignores_kind section_types planned
                plan_done {| items := [plan_item] |} 0%nat plan_item
                _ eq_refl
                ltac:(vm_compute; reflexivity)
                ltac:(apply first_with_id_find; vm_compute; reflexivity)
                eq_refl)
      as (d' & it' & record & Hd' & Htask & Hsame & Hcontent & Hcomplete
          & Hparsed & _).
    exists d', it', record.
    split; [exact Hd'|]. split; [exact Htask|]. split; [exact Hsame|].
    split; [exact Hcontent|]. split; [exact Hcomplete|].
    destruct (Hparsed
                (JObj [("tool_call_id", JStr "call-1");
                       ("tool_name", JStr "generate_execution_plan");
                       ("tool_result", JStr "ok");
                       ("step_label", JStr "构建分析策略任务规划")])
                ltac:(vm_compute; reflexivity)) as [_ Hkeys].
    split.
    + refine (Hkeys _ "tool_name" eq_refl _). discriminate.
    + refine (Hkeys _ "step_label" eq_refl _). discriminate.
  - destruct (reasoning_completed_ignores_kind section_types inbox
                message_done inbox_task 0%nat inbox_item
                "贵州茅台（600519）基本面怎么样" eq_refl eq_refl
                ltac:(apply first_with_id_find; vm_compute; reflexivity)
                eq_refl)
      as (d' & it' & record & Hd' & Htask & Hsame & Hcontent & _ & _
          & Hraw).
    exists d', it'.
    split; [exact Hd'|]. split; [exact Htask|]. split; [exact Hsame|].
    rewrite (Hraw SyntaxError ltac:(vm_compute; reflexivity)) in Hcontent.
    exact Hcontent.
Defined.
End OnSamples.

(* ===================================================================== *)
(** ** The path resolver *)

Section PathResolver.
Context `{JsRuntime}.
Implicit Types (d : AgentConversationsStore) (c : ConversationView).

Lemma obj_ensure_present {V} (k : string) (v : V) (o : jsobj V) :
  is_Some (obj_get k o) -> obj_ensure k v o = o.
Proof.
  intros Hs. unfold obj_ensure. apply obj_has_true in Hs. by rewrite Hs.
Qed.

Lemma obj_ensure_idem {V} (k : string) (v : V) (o : jsobj V) :
  obj_ensure k v (obj_ensure k v o) = obj_ensure k v o.
Proof.
  destruct (inherited k) eqn:Hi.
  - unfold obj_ensure. by rewrite Hi, !orb_true_r.
  - destruct (obj_get k o) as [x|] eqn:Hx.
    + by rewrite !obj_ensure_present by (by rewrite ?obj_ensure_present, Hx).
    + apply obj_ensure_present. rewrite obj_get_ensure_eq, Hx, Hi.
      by eexists.
Qed.

Lemma ensure_task_present kid th :
  is_Some (obj_get kid (tasks th)) -> ensure_task kid th = th.
Proof.
  intros Hs. unfold ensure_task. rewrite obj_ensure_present by done.
  by destruct th.
Qed.

Lemma ensure_task_idem kid th :
  ensure_task kid (ensure_task kid th) = ensure_task kid th.
Proof. unfold ensure_task; simpl. by rewrite obj_ensure_idem. Qed.

Lemma with_thread_task_present c tid kid :
  is_Some (conv_task c tid kid) -> with_thread_task tid kid c = c.
Proof.
  unfold conv_task. intros [x Hx].
  destruct (threads c !! tid) as [th|] eqn:Hth; [|done]. simpl in Hx.
  unfold with_thread_task, conv_thread. rewrite Hth; simpl.
  rewrite ensure_task_present by (by rewrite Hx).
  rewrite insert_id by done. by destruct c.
Qed.

Lemma with_thread_task_idem c tid kid :
  with_thread_task tid kid (with_thread_task tid kid c) =
    with_thread_task tid kid c.
Proof.
  unfold with_thread_task at 1 3. unfold conv_thread, set_threads; simpl.
  rewrite lookup_insert_eq; simpl.
  by rewrite ensure_task_idem, insert_insert_eq.
Qed.

Lemma with_section_task_present c kind kid :
  is_Some (conv_section_task c kind kid) -> with_section_task kind kid c = c.
Proof.
  unfold conv_section_task. intros [x Hx].
  destruct (sections c !! kind) as [th|] eqn:Hth; [|done]. simpl in Hx.
  unfold with_section_task, conv_section. rewrite Hth; simpl.
  rewrite ensure_task_present by (by rewrite Hx).
  rewrite insert_id by done. by destruct c.
Qed.

Lemma with_section_task_idem c kind kid :
  with_section_task kind kid (with_section_task kind kid c) =
    with_section_task kind kid c.
Proof.
  unfold with_section_task at 1 3. unfold conv_section, set_sections; simpl.
  rewrite lookup_insert_eq; simpl.
  by rewrite ensure_task_idem, insert_insert_eq.
Qed.

Lemma threads_with_thread_task_own c tid kid :
  is_Some (threads (with_thread_task tid kid c) !! tid).
Proof. unfold with_thread_task; simpl. rewrite lookup_insert_eq. by eexists. Qed.

Lemma sections_with_section_task_own c kind kid :
  is_Some (sections (with_section_task kind kid c) !! kind).
Proof.
  unfold with_section_task; simpl. rewrite lookup_insert_eq. by eexists.
Qed.

Lemma ensure_thread_task_idem c tid kid :
  (c1 ← ensure_thread_task tid kid c; ensure_thread_task tid kid c1) =
    ensure_thread_task tid kid c.
Proof.
  destruct (ensure_thread_task_cases tid kid c) as [Hc|Hc]; rewrite Hc;
    [|done].
  simpl. apply ensure_thread_task_Ok.
  split; [left; apply threads_with_thread_task_own|].
  by rewrite with_thread_task_idem.
Qed.

Lemma ensurePath_Ok d cid tid kid d' :
  ensurePath d cid tid kid = Ok d' <->
  (is_Some (d !! cid) \/ ordinary cid) /\
  (is_Some (threads (default empty_conversation (d !! cid)) !! tid)
   \/ ordinary tid) /\
  d' = <[cid := with_thread_task tid kid
                  (default empty_conversation (d !! cid))]> d.
Proof.
  rewrite ensurePath_at, at_conversation_Ok. split.
  - intros (Hc & c' & (Ht & ->)%ensure_thread_task_Ok & ->). done.
  - intros (Hc & Ht & ->). split; [done|]. eexists. split; [|done].
    by apply ensure_thread_task_Ok.
Qed.

Lemma ensurePath_cases d cid tid kid :
  (exists d', ensurePath d cid tid kid = Ok d') \/
  ensurePath d cid tid kid = Throw TypeError.
Proof.
  rewrite ensurePath_at, at_conversation_spec.
  destruct (d !! cid) as [c|].
  - destruct (ensure_thread_task_cases tid kid c) as [-> | ->];
      [left; by eexists|by right].
  - destruct (inherited cid); [by right|].
    destruct (ensure_thread_task_cases tid kid empty_conversation)
      as [-> | ->]; [left; by eexists|by right].
Qed.

Lemma ensurePath_present d cid tid kid :
  is_Some (task_at d cid tid kid) -> ensurePath d cid tid kid = Ok d.
Proof.
  intros Ht. destruct (path_resolves_task _ _ _ _ Ht) as (Hc & Hth & _).
  apply ensurePath_Ok. split; [done|]. split; [done|].
  rewrite task_at_conv in Ht. rewrite with_thread_task_present by done.
  destruct Ht as [x Hx]. destruct (d !! cid) as [c|] eqn:Hd; [|done].
  by rewrite insert_id.
Qed.

Lemma ensurePath_idem d cid tid kid :
  (d1 ← ensurePath d cid tid kid; ensurePath d1 cid tid kid) =
    ensurePath d cid tid kid.
Proof.
  transitivity
    (at_conversation
       (fun c => c1 ← ensure_thread_task tid kid c;
                 ensure_thread_task tid kid c1) cid d).
  - exact (at_conversation_twice (ensure_thread_task tid kid)
             (ensure_thread_task tid kid) cid d).
  - rewrite ensurePath_at. apply at_conversation_ext. intros c.
    apply ensure_thread_task_idem.
Qed.

(** Resolving an address that is already there changes nothing, so
    resolving twice is resolving once. *)
Theorem ensurePath_idempotent d cid tid kid :
  (is_Some (task_at d cid tid kid) -> ensurePath d cid tid kid = Ok d) /\
  (d1 ← ensurePath d cid tid kid; ensurePath d1 cid tid kid) =
    ensurePath d cid tid kid.
Proof. split; [apply ensurePath_present|apply ensurePath_idem]. Qed.

Lemma conv_task_with_thread_task_ne c tid kid tid' kid' :
  (tid, kid) <> (tid', kid') ->
  conv_task (with_thread_task tid kid c) tid' kid' = conv_task c tid' kid'.
Proof.
  intros Hne. unfold conv_task, with_thread_task, conv_thread; simpl.
  destruct (decide (tid = tid')) as [<-|Ht];
    [|by rewrite lookup_insert_ne].
  rewrite lookup_insert_eq; simpl.
  rewrite obj_get_ensure_ne by congruence.
  by destruct (threads c !! tid).
Qed.

Lemma conv_section_task_with_section_task_ne c kind kid kind' kid' :
  (kind, kid) <> (kind', kid') ->
  conv_section_task (with_section_task kind kid c) kind' kid' =
    conv_section_task c kind' kid'.
Proof.
  intros Hne.
  unfold conv_section_task, with_section_task, conv_section; simpl.
  destruct (decide (kind = kind')) as [<-|Ht];
    [|by rewrite lookup_insert_ne].
  rewrite lookup_insert_eq; simpl.
  rewrite obj_get_ensure_ne by congruence.
  by destruct (sections c !! kind).
Qed.

Lemma task_at_ensurePath d cid tid kid d' cid' tid' kid' :
  ensurePath d cid tid kid = Ok d' ->
  task_at d' cid' tid' kid' =
    if decide (cid = cid' /\ tid = tid' /\ kid = kid')
    then match task_at d cid tid kid with
         | Some task => Some task
         | None => if inherited kid then None else Some empty_task
         end
    else task_at d cid' tid' kid'.
Proof.
  intros (_ & _ & ->)%ensurePath_Ok.
  destruct (decide (cid = cid')) as [<-|Hc].
  - rewrite task_at_insert.
    destruct (decide (tid = tid' /\ kid = kid')) as [[<- <-]|Hn].
    + rewrite decide_True by done.
      by rewrite conv_task_with_thread_task, <- task_at_conv.
    + rewrite decide_False by tauto.
      rewrite conv_task_with_thread_task_ne, <- task_at_conv; [done|].
      intros [= <- <-]. by apply Hn.
  - rewrite decide_False by tauto. unfold task_at.
    by rewrite lookup_insert_ne.
Qed.

Lemma section_task_at_ensurePath d cid tid kid d' cid' kind kid' :
  ensurePath d cid tid kid = Ok d' ->
  section_task_at d' cid' kind kid' = section_task_at d cid' kind kid'.
Proof.
  intros (_ & _ & ->)%ensurePath_Ok.
  destruct (decide (cid = cid')) as [<-|Hc].
  - rewrite section_task_at_insert, conv_section_task_with_thread_task.
    by rewrite <- section_task_at_conv.
  - unfold section_task_at. by rewrite lookup_insert_ne.
Qed.

Lemma ensurePath_Throw d cid tid kid :
  (d !! cid = None /\ inherited cid = true) \/
  (threads (default empty_conversation (d !! cid)) !! tid = None /\
   inherited tid = true) ->
  ensurePath d cid tid kid = Throw TypeError.
Proof.
  intros Hbad. destruct (ensurePath_cases d cid tid kid) as [[d' Hd']|Ht];
    [|done].
  apply ensurePath_Ok in Hd' as (Hc & Hth & _). unfold ordinary in *.
  destruct Hbad as [[Hn Hi]|[Hn Hi]].
  - rewrite Hn in Hc. destruct Hc as [[? [=]]|]; congruence.
  - rewrite Hn in Hth. destruct Hth as [[? [=]]|]; congruence.
Qed.

(** Resolving an address returns unless the conversation or the thread
    has to be created under a name of Object.prototype, and then it
    throws.  When it returns it has kept every task the store holds,
    put an empty task at the address when there was none and the task
    id is no name of Object.prototype (under such a name no task is
    created), left the sections alone and touched no other
    conversation. *)
Theorem ensurePath_creates_and_preserves d cid tid kid :
  (forall d',
     ensurePath d cid tid kid = Ok d' ->
     (forall cid' tid' kid' task,
         task_at d cid' tid' kid' = Some task ->
         task_at d' cid' tid' kid' = Some task) /\
     (task_at d cid tid kid = None -> ordinary kid ->
      task_at d' cid tid kid = Some empty_task) /\
     (task_at d cid tid kid = None -> inherited kid = true ->
      task_at d' cid tid kid = None) /\
     (forall cid' tid' kid',
         (cid', tid', kid') <> (cid, tid, kid) ->
         task_at d' cid' tid' kid' = task_at d cid' tid' kid') /\
     (forall cid' kind kid',
         section_task_at d' cid' kind kid'
         = section_task_at d cid' kind kid') /\
     (forall cid', cid' <> cid -> d' !! cid' = d !! cid')) /\
  ((exists d', ensurePath d cid tid kid = Ok d') <->
   (is_Some (d !! cid) \/ ordinary cid) /\
   (is_Some (threads (default empty_conversation (d !! cid)) !! tid)
    \/ ordinary tid)) /\
  ((d !! cid = None /\ inherited cid = true) \/
   (threads (default empty_conversation (d !! cid)) !! tid = None /\
    inherited tid = true) ->
   ensurePath d cid tid kid = Throw TypeError).
Proof.
  split; [|split; [|apply ensurePath_Throw]].
  - intros d' Hd'. split; [|split; [|split; [|split; [|split]]]].
    + intros cid' tid' kid' task Ht.
      rewrite (task_at_ensurePath _ _ _ _ _ _ _ _ Hd').
      case_decide as Ha; [|done]. destruct Ha as (<- & <- & <-).
      by rewrite Ht.
    + intros Hn Hk. rewrite (task_at_ensurePath _ _ _ _ _ _ _ _ Hd').
      rewrite decide_True by done. unfold ordinary in Hk.
      by rewrite Hn, Hk.
    + intros Hn Hk. rewrite (task_at_ensurePath _ _ _ _ _ _ _ _ Hd').
      rewrite decide_True by done. by rewrite Hn, Hk.
    + intros cid' tid' kid' Hne.
      rewrite (task_at_ensurePath _ _ _ _ _ _ _ _ Hd').
      rewrite decide_False; [done|]. intros (<- & <- & <-). by apply Hne.
    + intros cid' kind kid'. by eapply section_task_at_ensurePath.
    + intros cid' Hne. rewrite ensurePath_at in Hd'.
      eapply at_conversation_lookup_ne; [done|]. by intros ->.
  - split.
    + by intros [d' (Hc & Ht & _)%ensurePath_Ok].
    + intros [Hc Ht]. eexists. by apply ensurePath_Ok.
Qed.

Lemma ensureSection_cases c kind kid :
  ensureSection c kind kid = Ok (with_section_task kind kid c) \/
  ensureSection c kind kid = Throw TypeError.
Proof.
  destruct (sections c !! kind) as [th|] eqn:Ht.
  - left. apply ensureSection_Ok. split; [|done]. left. by eexists.
  - destruct (inherited kind) eqn:Hi.
    + right. unfold ensureSection.
      by rewrite lookup_map_ensure_eq, Ht, Hi.
    + left. apply ensureSection_Ok. split; [by right|done].
Qed.

Lemma ensureSection_idem c kind kid :
  (c1 ← ensureSection c kind kid; ensureSection c1 kind kid) =
    ensureSection c kind kid.
Proof.
  destruct (ensureSection_cases c kind kid) as [Hc|Hc]; rewrite Hc;
    [|done].
  simpl. apply ensureSection_Ok.
  split; [left; apply sections_with_section_task_own|].
  by rewrite with_section_task_idem.
Qed.

(** Resolving a section address behaves like resolving a path.  It
    returns unless the section has to be created under a name of
    Object.prototype, and then it throws.  When it returns, the task
    that was at the address is there, or an empty one when there was
    none and the task id is no name of Object.prototype (under such a
    name no task is created); every section task already there is
    kept; the thread tree is not touched; and resolving again changes
    nothing. *)
Theorem ensureSection_creates_and_preserves c kind kid :
  (forall c',
     ensureSection c kind kid = Ok c' ->
     conv_section_task c' kind kid
       = match conv_section_task c kind kid with
         | Some task => Some task
         | None => if inherited kid then None else Some empty_task
         end /\
     (forall kind' kid' task,
         conv_section_task c kind' kid' = Some task ->
         conv_section_task c' kind' kid' = Some task) /\
     (forall kind' kid',
         (kind', kid') <> (kind, kid) ->
         conv_section_task c' kind' kid' = conv_section_task c kind' kid') /\
     threads c' = threads c) /\
  ((exists c', ensureSection c kind kid = Ok c') <->
   (is_Some (sections c !! kind) \/ ordinary kind)) /\
  (sections c !! kind = None -> inherited kind = true ->
   ensureSection c kind kid = Throw TypeError) /\
  (c1 ← ensureSection c kind kid; ensureSection c1 kind kid) =
    ensureSection c kind kid.
Proof.
  split; [|split; [|split; [|apply ensureSection_idem]]].
  - intros c' (_ & ->)%ensureSection_Ok.
    split; [apply conv_section_task_with_section_task|].
    split; [|split; [|done]].
    + intros kind' kid' task Ht.
      destruct (decide ((kind, kid) = (kind', kid'))) as [[= <- <-]|Hne].
      * by rewrite conv_section_task_with_section_task, Ht.
      * by rewrite conv_section_task_with_section_task_ne.
    + intros kind' kid' Hne.
      by rewrite conv_section_task_with_section_task_ne.
  - split.
    + by intros [c' (Hk & _)%ensureSection_Ok].
    + intros Hk. eexists. by apply ensureSection_Ok.
  - intros Hn Hi. unfold ensureSection.
    by rewrite lookup_map_ensure_eq, Hn, Hi.
Qed.
End PathResolver.

(* ===================================================================== *)
(** ** How upserts compose *)

Section Upserts.
Context `{JsRuntime}.

Lemma string_app_assoc (a b c : string) : (a +:+ b) +:+ c = a +:+ (b +:+ c).
Proof.
  induction a as [|x a IH]; [done|].
  change (String x ((a +:+ b) +:+ c) = String x (a +:+ (b +:+ c))).
  by rewrite IH.
Qed.

Lemma obj_replace_replace {V} (k : string) (v1 v2 : V) (o : jsobj V) :
  obj_replace k v2 (obj_replace k v1 o) = obj_replace k v2 o.
Proof.
  induction o as [|[k0 v0] o IH]; simpl; [done|].
  destruct (decide (k = k0)) as [->|Hne]; simpl.
  - by rewrite decide_True.
  - rewrite decide_False by done. by rewrite IH.
Qed.

Lemma obj_replace_absent {V} (k : string) (v : V) (o : jsobj V) :
  obj_get k o = None -> obj_replace k v o = o.
Proof.
  induction o as [|[k0 v0] o IH]; simpl; [done|].
  destruct (decide (k = k0)); [done|]. intros Hn. by rewrite IH.
Qed.

Lemma obj_replace_insert_index {V} n (k : string) (v1 v2 : V) (o : jsobj V) :
  obj_get k o = None ->
  obj_replace k v2 (obj_insert_index n k v1 o) = obj_insert_index n k v2 o.
Proof.
  induction o as [|[k0 v0] o IH]; simpl.
  - intros _. by rewrite decide_True.
  - destruct (decide (k = k0)) as [->|Hne]; [done|]. intros Hn.
    destruct (array_index k0) as [n'|]; [destruct (n <? n')%N|]; simpl;
      rewrite ?decide_True by done; try done.
    rewrite decide_False by done. by rewrite IH.
Qed.

Lemma obj_replace_snoc {V} (k : string) (v1 v2 : V) (o : jsobj V) :
  obj_get k o = None ->
  obj_replace k v2 (o ++ [(k, v1)]) = o ++ [(k, v2)].
Proof.
  induction o as [|[k0 v0] o IH]; simpl.
  - intros _. by rewrite decide_True.
  - destruct (decide (k = k0)); [done|]. intros Hn. by rewrite IH.
Qed.

(** A second assignment to a property overwrites the first. *)
Lemma obj_set_set {V} (k : string) (v1 v2 : V) (o : jsobj V) :
  obj_set k v2 (obj_set k v1 o) = obj_set k v2 o.
Proof.
  unfold obj_set at 1.
  assert (obj_has k (obj_set k v1 o) = true) as ->.
  { apply obj_has_true. rewrite obj_get_set_eq. by eexists. }
  unfold obj_set. destruct (obj_has k o) eqn:Hh.
  - apply obj_replace_replace.
  - apply obj_has_false in Hh. destruct (array_index k).
    + by apply obj_replace_insert_index.
    + by apply obj_replace_snoc.
Qed.

Lemma set_content_value_twice it v1 v2 :
  set_content_value (set_content_value it v1) v2 = set_content_value it v2.
Proof.
  unfold set_content_value, with_payload; simpl. by rewrite obj_set_set.
Qed.

Lemma set_content_set_content it s1 s2 :
  set_content (set_content it s1) s2 = set_content it s2.
Proof. apply set_content_value_twice. Qed.

(** An upsert onto a stored item, when it returns, has written at that
    item's index either the new item or the stored one with other
    content. *)
Lemma addOrUpdateItem_found task new mode i old task' :
  list_find (fun item => item_id item = item_id new) (items task)
    = Some (i, old) ->
  addOrUpdateItem task new mode = Ok task' ->
  exists x,
    task' = {| items := <[i := x]> (items task) |} /\
    (x = new \/ exists v, x = set_content_value old v).
Proof.
  intros Hf. unfold addOrUpdateItem. rewrite Hf.
  destruct mode, (content_value old) as [va|], (content_value new) as [vb|];
    simpl; try (intros [= <-]; by eauto).
  - destruct (js_add va vb) as [v|]; simpl; [|done]. intros [= <-]. eauto.
  - intros [= <-].
    destruct (json_parse va) as [pa|]; simpl; [|by eauto].
    destruct (json_parse vb) as [pb|]; simpl; [|by eauto].
    destruct (merged_reasoning pa pb); simpl; unfold set_content; eauto.
Qed.

Lemma addOrUpdateItem_absent task new mode :
  list_find (fun item => item_id item = item_id new) (items task) = None ->
  addOrUpdateItem task new mode = Ok {| items := items task ++ [new] |}.
Proof. intros Hf. unfold addOrUpdateItem. by rewrite Hf. Qed.

Lemma list_find_id_elem id (l : list ChatItem) :
  is_Some (list_find (fun item => item_id item = id) l) <->
  id ∈ item_id <$> l.
Proof.
  split.
  - intros [[i x] (Hi & Hid & _)%list_find_Some].
    apply list_elem_of_fmap. exists x. split; [done|].
    by eapply list_elem_of_lookup_2.
  - intros (x & -> & Hx)%list_elem_of_fmap.
    destruct (list_find (fun item => item_id item = item_id x) l) eqn:Hf;
      [by eexists|].
    apply list_find_None in Hf. rewrite Forall_forall in Hf.
    by destruct (Hf x Hx).
Qed.

Lemma insert_same_id (l : list ChatItem) i old x :
  l !! i = Some old -> item_id x = item_id old ->
  item_id <$> <[i := x]> l = item_id <$> l.
Proof.
  intros Hi Hid. rewrite list_fmap_insert. apply list_insert_id.
  by rewrite list_lookup_fmap, Hi, Hid.
Qed.

Lemma addOrUpdateItem_item_ids task new mode task' :
  addOrUpdateItem task new mode = Ok task' ->
  item_ids task' =
    if bool_decide (item_id new ∈ item_ids task)
    then item_ids task
    else item_ids task ++ [item_id new].
Proof.
  unfold item_ids. intros Htask.
  destruct (list_find (fun item => item_id item = item_id new) (items task))
    as [[i old]|] eqn:Hf.
  - rewrite bool_decide_eq_true_2
      by (apply list_find_id_elem; rewrite Hf; by eexists).
    destruct (addOrUpdateItem_found task new mode i old task' Hf Htask)
      as (x & -> & Hx). simpl.
    apply list_find_Some in Hf as (Hi & Hid & _).
    apply (insert_same_id _ _ old); [done|].
    by destruct Hx as [->|[s ->]].
  - rewrite bool_decide_eq_false_2.
    + rewrite (addOrUpdateItem_absent task new mode Hf) in Htask.
      injection Htask as <-. simpl. by rewrite fmap_app.
    + intros Hin%list_find_id_elem. rewrite Hf in Hin. by destruct Hin.
Qed.

Lemma addOrUpdateItem_other_items task new mode task' j y :
  addOrUpdateItem task new mode = Ok task' ->
  items task !! j = Some y -> item_id y <> item_id new ->
  items task' !! j = Some y.
Proof.
  intros Htask Hj Hne.
  destruct (list_find (fun item => item_id item = item_id new) (items task))
    as [[i old]|] eqn:Hf.
  - destruct (addOrUpdateItem_found task new mode i old task' Hf Htask)
      as (x & -> & _).
    simpl. apply list_find_Some in Hf as (Hi & Hid & _).
    rewrite list_lookup_insert_ne; [done|]. intros ->. congruence.
  - rewrite (addOrUpdateItem_absent task new mode Hf) in Htask.
    injection Htask as <-. simpl. by apply lookup_app_l_Some.
Qed.

(** An upsert that returns has not deleted or moved an item: the
    sequence of item ids stays as it is when the new id is known and
    grows by that id at the end when it is not, and every item with
    another id stays at its index unchanged.  An upsert returns in
    every mode but append, and in append unless it sums two contents
    that are not both strings. *)
Theorem addOrUpdateItem_keeps_order (task : TaskView) (new : ChatItem)
    (mode : MergeEvent) :
  (forall task',
     addOrUpdateItem task new mode = Ok task' ->
     item_ids task' =
       (if bool_decide (item_id new ∈ item_ids task)
        then item_ids task
        else item_ids task ++ [item_id new]) /\
     forall j y,
       items task !! j = Some y -> item_id y <> item_id new ->
       items task' !! j = Some y) /\
  (mode <> Append \/ hasContent new = false \/
     (exists s, payload_content new = Some s /\
        forall old, old ∈ items task -> hasContent old = true ->
                    exists s', payload_content old = Some s') ->
   exists task', addOrUpdateItem task new mode = Ok task').
Proof.
  split; [|apply addOrUpdateItem_returns].
  intros task' Htask.
  split; [exact (addOrUpdateItem_item_ids task new mode task' Htask)|].
  intros j y. exact (addOrUpdateItem_other_items task new mode task' j y Htask).
Qed.

Lemma NoDup_addOrUpdateItem task new mode task' :
  addOrUpdateItem task new mode = Ok task' ->
  NoDup (item_ids task) -> NoDup (item_ids task').
Proof.
  intros Htask Hnd. rewrite (addOrUpdateItem_item_ids _ _ _ _ Htask).
  case_bool_decide as Hin; [done|].
  apply NoDup_app. split; [done|]. split; [|apply NoDup_singleton].
  intros x Hx ->%list_elem_of_singleton. by apply Hin.
Qed.

Lemma markReasoningComplete_item_ids task id :
  item_ids (markReasoningComplete task id) = item_ids task.
Proof.
  unfold markReasoningComplete, item_ids.
  destruct (list_find _ (items task)) as [[i old]|] eqn:Hf; [|done].
  destruct (content_value old); [|done]. simpl.
  apply list_find_Some in Hf as (Hi & _).
  by apply (insert_same_id _ _ old).
Qed.

Lemma mark_item_complete_id it : item_id (mark_item_complete it) = item_id it.
Proof. by destruct (mark_item_complete_cases it) as [->|[s ->]]. Qed.

Lemma markAllReasoningComplete_item_ids task :
  item_ids (markAllReasoningComplete task) = item_ids task.
Proof.
  unfold item_ids; simpl. rewrite <- list_fmap_compose.
  apply list_fmap_ext. intros i x _. apply mark_item_complete_id.
Qed.

Lemma list_find_insert_same_id (l : list ChatItem) id i old x :
  list_find (fun item => item_id item = id) l = Some (i, old) ->
  item_id x = id ->
  list_find (fun item => item_id item = id) (<[i := x]> l) = Some (i, x).
Proof.
  intros (Hi & Hid & Hfirst)%list_find_Some Hx. apply list_find_Some.
  split; [|split; [done|]].
  - apply list_lookup_insert_eq. by eapply lookup_lt_Some.
  - intros j y Hj Hlt. rewrite list_lookup_insert_ne in Hj by lia.
    by eapply Hfirst.
Qed.

Lemma list_find_snoc_id (l : list ChatItem) x :
  list_find (fun item => item_id item = item_id x) l = None ->
  list_find (fun item => item_id item = item_id x) (l ++ [x])
    = Some (length l, x).
Proof.
  intros Hn%no_item_with_id_find. apply first_with_id_find.
  by apply first_with_id_snoc.
Qed.

Lemma insert_snoc {A} (l : list A) x y : <[length l := y]> (l ++ [x]) = l ++ [y].
Proof. by rewrite insert_app_r_alt, Nat.sub_diag by lia. Qed.

Lemma addOrUpdateItem_replace_after task a b mode task1 :
  item_id a = item_id b ->
  addOrUpdateItem task a mode = Ok task1 ->
  addOrUpdateItem task1 b Replace = addOrUpdateItem task b Replace.
Proof.
  intros Hid Htask1.
  destruct (list_find (fun item => item_id item = item_id b) (items task))
    as [[i old]|] eqn:Hf.
  - assert (list_find (fun item => item_id item = item_id a) (items task)
            = Some (i, old)) as Hfa by (by rewrite Hid).
    destruct (addOrUpdateItem_found task a mode i old task1 Hfa Htask1)
      as (x & -> & Hx).
    assert (item_id x = item_id b) as Hxb.
    { apply list_find_Some in Hf as (_ & Hold & _).
      by destruct Hx as [->|[s ->]]. }
    unfold addOrUpdateItem; simpl.
    rewrite (list_find_insert_same_id _ _ _ _ x Hf Hxb), Hf. simpl.
    by rewrite list_insert_insert_eq.
  - assert (list_find (fun item => item_id item = item_id a) (items task)
            = None) as Hfa by (by rewrite Hid).
    rewrite (addOrUpdateItem_absent task a mode Hfa) in Htask1.
    injection Htask1 as <-.
    unfold addOrUpdateItem; simpl. rewrite Hf, <- Hid.
    rewrite (list_find_snoc_id _ a Hfa). simpl. by rewrite insert_snoc.
Qed.

(** A replace overrides whatever was upserted before under the same id:
    the last write wins, and writing the same item twice is writing it
    once.  The upsert before it returns in every mode but append, and
    the replace always. *)
Theorem addOrUpdateItem_replace_last_wins (task : TaskView)
    (a b : ChatItem) (mode : MergeEvent) :
  item_id a = item_id b ->
  (forall task1,
     addOrUpdateItem task a mode = Ok task1 ->
     addOrUpdateItem task1 b Replace = addOrUpdateItem task b Replace) /\
  (mode <> Append -> exists task1, addOrUpdateItem task a mode = Ok task1) /\
  (exists task', addOrUpdateItem task b Replace = Ok task').
Proof.
  intros Hid. split; [|split].
  - intros task1. by apply addOrUpdateItem_replace_after.
  - intros Hm. apply addOrUpdateItem_returns. by left.
  - apply addOrUpdateItem_returns. by left.
Qed.

Lemma js_add_string_twice v s1 s2 :
  (v1 ← js_add v (JStr s1); js_add v1 (JStr s2)) =
    js_add v (JStr (s1 +:+ s2)).
Proof.
  rewrite (js_add_string_r v s1), (js_add_string_r v (s1 +:+ s2)).
  destruct (to_primitive v) as [p|]; simpl; [|done].
  destruct (js_to_string p) as [x|]; simpl; [|done].
  by rewrite js_add_strings, string_app_assoc.
Qed.

Lemma first_with_id_insert (l : list ChatItem) id i old x :
  first_with_id id l i old -> item_id x = id ->
  first_with_id id (<[i := x]> l) i x.
Proof.
  intros Hf%first_with_id_find Hx. apply first_with_id_find.
  by eapply list_find_insert_same_id.
Qed.

Lemma addOrUpdateItem_append_twice task b c cb cc :
  item_id b = item_id c ->
  payload_content b = Some cb -> payload_content c = Some cc ->
  (task1 ← addOrUpdateItem task b Append; addOrUpdateItem task1 c Append)
  = addOrUpdateItem task (set_content b (cb +:+ cc)) Append.
Proof.
  intros Hid Hb%payload_content_value Hc%payload_content_value.
  destruct (list_find (fun item => item_id item = item_id b) (items task))
    as [[i old]|] eqn:Hf.
  - apply first_with_id_find in Hf.
    assert (item_id old = item_id b) as Hold by (by destruct Hf as (_ & ? & _)).
    pose proof Hf as Hfc. rewrite Hid in Hfc.
    destruct (content_value old) as [vo|] eqn:Hvo.
    + rewrite (addOrUpdateItem_append_value task b i old vo (JStr cb)
                 Hf Hvo Hb).
      rewrite (addOrUpdateItem_append_value task (set_content b (cb +:+ cc))
                 i old vo (JStr (cb +:+ cc)) Hf Hvo
                 (content_value_set_content_value _ _)).
      rewrite <- js_add_string_twice.
      destruct (js_add vo (JStr cb)) as [v1|]; simpl; [|done].
      rewrite (addOrUpdateItem_append_value
                 {| items := <[i := set_content_value old v1]> (items task) |}
                 c i (set_content_value old v1) v1 (JStr cc)
                 (first_with_id_insert _ _ i old (set_content_value old v1)
                    Hfc (eq_trans Hold Hid))
                 (content_value_set_content_value _ _) Hc).
      destruct (js_add v1 (JStr cc)) as [v2|]; simpl; [|done].
      by rewrite list_insert_insert_eq, set_content_value_twice.
    + rewrite (addOrUpdateItem_append_replace task b i old Hf)
        by (left; by apply hasContent_false).
      rewrite (addOrUpdateItem_append_replace task
                 (set_content b (cb +:+ cc)) i old Hf)
        by (left; by apply hasContent_false).
      simpl.
      rewrite (addOrUpdateItem_append_value
                 {| items := <[i := b]> (items task) |}
                 c i b (JStr cb) (JStr cc)
                 (first_with_id_insert _ _ _ _ _ Hfc Hid) Hb Hc).
      simpl. by rewrite list_insert_insert_eq.
  - rewrite (addOrUpdateItem_absent task b Append Hf). simpl.
    rewrite (addOrUpdateItem_absent task (set_content b (cb +:+ cc))
               Append Hf).
    rewrite (addOrUpdateItem_append_value
               {| items := items task ++ [b] |} c (length (items task)) b
               (JStr cb) (JStr cc)); [|..|done|done].
    + simpl. by rewrite insert_snoc.
    + rewrite <- Hid. apply first_with_id_snoc.
      by apply no_item_with_id_find.
Qed.

(** Chunk boundaries do not matter: appending chunk [b] and then chunk
    [c], both with string content, is appending the one chunk that
    carries both contents; the two return the same task, or throw
    alike when the stored content cannot be summed. *)
Theorem addOrUpdateItem_append_chunks (task : TaskView) (b c : ChatItem)
    (cb cc : string) :
  item_id b = item_id c ->
  payload_content b = Some cb -> payload_content c = Some cc ->
  (task1 ← addOrUpdateItem task b Append; addOrUpdateItem task1 c Append)
  = addOrUpdateItem task (set_content b (cb +:+ cc)) Append.
Proof. apply addOrUpdateItem_append_twice. Qed.
End Upserts.

(* ===================================================================== *)
(** ** What every reachable store satisfies *)

Section Invariants.
Context `{JsRuntime}.
Variable AGENT_SECTION_COMPONENT_TYPE : list string.

Local Abbreviation cfg := AGENT_SECTION_COMPONENT_TYPE.
Implicit Types (d : AgentConversationsStore) (c : ConversationView).
Implicit Types (P : ChatItem -> Prop).

Lemma at_address_content_blind cid tid kid :
  content_blind (at_address cid tid kid).
Proof. by intros it v. Qed.

Lemma section_address_content_blind cid kid :
  content_blind (section_address cid kid).
Proof. by intros it v. Qed.

Lemma task_ok_empty P : task_ok P empty_task.
Proof.
  split; [apply NoDup_nil_2|]. intros it Hit. by apply elem_of_nil in Hit.
Qed.

Lemma task_ok_addOrUpdateItem P t new mode t' :
  content_blind P -> P new -> task_ok P t ->
  addOrUpdateItem t new mode = Ok t' -> task_ok P t'.
Proof.
  intros Hblind Hnew [Hnd Hall] Ht'.
  split; [by eapply NoDup_addOrUpdateItem|].
  intros it Hit.
  destruct (elem_of_addOrUpdateItem _ _ _ _ _ Ht' Hit)
    as [Hin|[->|(old & v & Hold & ->)]]; auto.
Qed.

Lemma task_ok_markReasoningComplete P t id :
  content_blind P -> task_ok P t -> task_ok P (markReasoningComplete t id).
Proof.
  intros Hblind [Hnd Hall]. split.
  - by rewrite markReasoningComplete_item_ids.
  - intros it [Hit|(old & s & Hold & ->)]%elem_of_markReasoningComplete;
      auto.
Qed.

Lemma task_ok_markAllReasoningComplete P t :
  content_blind P -> task_ok P t -> task_ok P (markAllReasoningComplete t).
Proof.
  intros Hblind [Hnd Hall]. split.
  - by rewrite markAllReasoningComplete_item_ids.
  - intros it [Hit|(old & s & Hold & ->)]%elem_of_markAllReasoningComplete;
      auto.
Qed.

Lemma thread_ok_empty (Q : string -> ChatItem -> Prop) :
  thread_ok Q empty_thread.
Proof.
  split; [apply NoDup_nil_2|]. intros kid t Hin. by apply elem_of_nil in Hin.
Qed.

Lemma thread_ok_ensure_task (Q : string -> ChatItem -> Prop) kid th :
  thread_ok Q th -> thread_ok Q (ensure_task kid th).
Proof.
  intros [Hnd Hall]. split; [by apply NoDup_ensure_task|].
  intros kid' t [Hin|[= -> ->]]%elem_of_obj_ensure; [by apply Hall|].
  apply task_ok_empty.
Qed.

Lemma thread_ok_set_task (Q : string -> ChatItem -> Prop) task' kid th :
  task_ok (Q kid) task' ->
  thread_ok Q th -> thread_ok Q (alter_task (fun _ => task') kid th).
Proof.
  intros Hf [Hnd Hall]. split; [by apply NoDup_alter_task|].
  intros kid' t [Hin|(-> & t0 & Hin & ->)]%elem_of_obj_alter;
    [by apply Hall|done].
Qed.

Lemma thread_ok_task (Q : string -> ChatItem -> Prop) th kid :
  thread_ok Q th ->
  task_ok (Q kid) (default empty_task (obj_get kid (tasks th))).
Proof.
  intros [_ Hall]. destruct (obj_get kid (tasks th)) as [t|] eqn:Ht; simpl.
  - by apply Hall, obj_get_Some_elem.
  - apply task_ok_empty.
Qed.

Lemma thread_ok_complete_thread (Q : string -> ChatItem -> Prop) th :
  (forall kid, content_blind (Q kid)) ->
  thread_ok Q th -> thread_ok Q (complete_thread th).
Proof.
  intros Hblind [Hnd Hall]. split; [by rewrite complete_thread_keys|].
  intros kid t (t0 & Hin & ->)%elem_of_complete_thread.
  apply task_ok_markAllReasoningComplete; [apply Hblind|by apply Hall].
Qed.

Lemma conversation_ok_empty cid : conversation_ok cid empty_conversation.
Proof.
  split; intros k th Hth; simpl in Hth; by rewrite lookup_empty in Hth.
Qed.

Lemma conversation_ok_task cid c tid kid :
  conversation_ok cid c ->
  task_ok (at_address cid tid kid)
    (default empty_task (conv_task c tid kid)).
Proof.
  intros [Hm _]. unfold conv_task.
  destruct (threads c !! tid) as [th|] eqn:Hth; simpl;
    [|apply task_ok_empty].
  by apply (thread_ok_task (at_address cid tid)), (Hm tid).
Qed.

Lemma conversation_ok_section_task cid c kind kid :
  conversation_ok cid c ->
  task_ok (section_address cid kid)
    (default empty_task (conv_section_task c kind kid)).
Proof.
  intros [_ Hs]. unfold conv_section_task.
  destruct (sections c !! kind) as [th|] eqn:Hth; simpl;
    [|apply task_ok_empty].
  by apply (thread_ok_task (section_address cid)), (Hs kind).
Qed.

Lemma conversation_ok_with_thread_task cid tid kid c :
  conversation_ok cid c ->
  conversation_ok cid (with_thread_task tid kid c).
Proof.
  intros [Hm Hs]. split; [|exact Hs].
  intros tid' th. unfold with_thread_task, conv_thread; simpl.
  destruct (decide (tid = tid')) as [<-|Hne];
    [|rewrite lookup_insert_ne by done; apply Hm].
  rewrite lookup_insert_eq.
  intros [= <-]. apply thread_ok_ensure_task.
  destruct (threads c !! tid) as [th|] eqn:Hth; simpl;
    [by apply (Hm tid)|apply thread_ok_empty].
Qed.

Lemma conversation_ok_set_thread_task cid task' tid kid c :
  task_ok (at_address cid tid kid) task' ->
  conversation_ok cid c ->
  conversation_ok cid (alter_thread_task (fun _ => task') tid kid c).
Proof.
  intros Hf [Hm Hs]. split; [|exact Hs].
  intros tid' th. unfold alter_thread_task; simpl.
  rewrite lookup_alter. destruct (decide (tid = tid')) as [<-|]; [|apply Hm].
  destruct (threads c !! tid) as [th0|] eqn:Hth; [|done].
  intros [= <-].
  apply (thread_ok_set_task (at_address cid tid)); [done|by apply (Hm tid)].
Qed.

Lemma conversation_ok_with_section_task cid kind kid c :
  conversation_ok cid c ->
  conversation_ok cid (with_section_task kind kid c).
Proof.
  intros [Hm Hs]. split; [exact Hm|].
  intros kind' th. unfold with_section_task, conv_section; simpl.
  destruct (decide (kind = kind')) as [<-|Hne];
    [|rewrite lookup_insert_ne by done; apply Hs].
  rewrite lookup_insert_eq.
  intros [= <-]. apply thread_ok_ensure_task.
  destruct (sections c !! kind) as [th|] eqn:Hth; simpl;
    [by apply (Hs kind)|apply thread_ok_empty].
Qed.

Lemma conversation_ok_set_section_task cid task' kind kid c :
  task_ok (section_address cid kid) task' ->
  conversation_ok cid c ->
  conversation_ok cid (alter_section (fun _ => task') kind kid c).
Proof.
  intros Hf [Hm Hs]. split; [exact Hm|].
  intros kind' th. unfold alter_section; simpl.
  rewrite lookup_alter.
  destruct (decide (kind = kind')) as [<-|]; [|apply Hs].
  destruct (sections c !! kind) as [th0|] eqn:Hth; [|done].
  intros [= <-].
  apply (thread_ok_set_task (section_address cid)); [done|by apply (Hs kind)].
Qed.

Lemma conversation_ok_handle_conversation item mode c c' :
  conversation_ok (conversation_id item) c ->
  handle_conversation cfg item mode c = Ok c' ->
  conversation_ok (conversation_id item) c'.
Proof.
  intros Hok.
  destruct (is_section_type cfg (component_type item)) eqn:Hs.
  - pose proof Hs as (kind & Hk & _)%is_section_type_true.
    rewrite Hk in Hs. intros Hh.
    apply (handle_conversation_section_Ok _ _ _ _ kind) in Hh
      as (_ & _ & _ & task' & Htask & ->); [|done..].
    apply conversation_ok_set_section_task;
      [|by apply conversation_ok_with_section_task,
          conversation_ok_with_thread_task].
    eapply task_ok_addOrUpdateItem; [| | |exact Htask].
    + apply section_address_content_blind.
    + done.
    + by apply conversation_ok_section_task.
  - intros (_ & _ & task' & Htask & ->)%handle_conversation_main_Ok;
      [|done].
    apply conversation_ok_set_thread_task;
      [|by apply conversation_ok_with_thread_task].
    eapply task_ok_addOrUpdateItem; [| | |exact Htask].
    + apply at_address_content_blind.
    + done.
    + by apply conversation_ok_task.
Qed.

Lemma conversation_ok_complete_conversation cid c :
  conversation_ok cid c -> conversation_ok cid (complete_conversation c).
Proof.
  intros [Hm Hs]. split; [|exact Hs].
  intros tid th. unfold complete_conversation; simpl. rewrite lookup_fmap.
  destruct (threads c !! tid) as [th0|] eqn:Hth; [|done].
  intros [= <-]. apply thread_ok_complete_thread; [|by apply (Hm tid)].
  intros kid. apply at_address_content_blind.
Qed.

(** An upsert onto the conversation [ensurePath] has returned is the
    upsert onto the one it was given. *)
Lemma handle_conversation_ensured item mode c c1 :
  ensure_thread_task (thread_id item) (task_id item) c = Ok c1 ->
  handle_conversation cfg item mode c1 = handle_conversation cfg item mode c.
Proof.
  intros Hc1. unfold handle_conversation.
  assert (ensure_thread_task (thread_id item) (task_id item) c1 = Ok c1)
    as ->.
  { pose proof (ensure_thread_task_idem c (thread_id item) (task_id item))
      as Hidem.
    rewrite Hc1 in Hidem. exact Hidem. }
  by rewrite Hc1.
Qed.

(** The dispatch, seen from the conversation the event addresses. *)
Lemma process_conversation_cases sse c c' :
  process_conversation cfg sse c = Ok c' ->
  (event sse ∉ RECOGNIZED_EVENTS /\ c' = c) \/
  (event sse ∈ RECOGNIZED_EVENTS /\ conversation_update cfg sse c c').
Proof.
  unfold process_conversation.
  destruct (decide (event sse = "component_generator")) as [He|Hcg].
  { intros Hh. right.
    split; [rewrite He; apply recognized_component_generator|].
    destruct (_ || _); (eapply update_upsert; [..|exact Hh]; done). }
  destruct (bool_decide (event sse ∈ MARKDOWN_EVENTS)) eqn:Hmd.
  { apply bool_decide_eq_true in Hmd. intros Hh. right.
    split; [by apply recognized_markdown|].
    eapply update_upsert; [..|exact Hh]; done. }
  apply bool_decide_eq_false in Hmd.
  destruct (decide (event sse = "reasoning")) as [He|Hr].
  { intros Hh. right.
    split; [rewrite He; apply recognized_reasoning; set_solver|].
    eapply update_upsert; [..|exact Hh]; done. }
  destruct (decide (event sse = "reasoning_started")) as [He|Hrs].
  { intros Hh. right.
    split; [rewrite He; apply recognized_reasoning; set_solver|].
    eapply update_upsert; [..|exact Hh]; done. }
  destruct (decide (event sse = "reasoning_completed")) as [He|Hrc].
  { intros Hh. right.
    split; [rewrite He; apply recognized_reasoning; set_solver|].
    by apply update_complete. }
  destruct (bool_decide (event sse ∈ TOOL_CALL_EVENTS)) eqn:Htc.
  - apply bool_decide_eq_true in Htc.
    intros (c1 & Hc1 & (label & _ & Hh)%bind_Ok)%bind_Ok.
    right. split; [by apply recognized_tool_call|].
    rewrite (handle_conversation_ensured _ _ c c1) in Hh by exact Hc1.
    eapply update_upsert; [..|exact Hh]; done.
  - apply bool_decide_eq_false in Htc. intros [= <-]. left.
    split; [|done]. intros Hin%recognized_cases. tauto.
Qed.

Lemma conversation_ok_update sse c c' :
  conversation_update cfg sse c c' ->
  conversation_ok (d_conversation_id (data sse)) c ->
  conversation_ok (d_conversation_id (data sse)) c'.
Proof.
  intros [item mode c0 c0' Hc _ _ _ Hh|c0 c0' He Hcomplete] Hok.
  - rewrite <- Hc in *. by eapply conversation_ok_handle_conversation.
  - apply update_ensured_thread_task_Ok in Hcomplete
      as (_ & _ & task' & [= <-] & ->).
    apply conversation_ok_set_thread_task;
      [|by apply conversation_ok_with_thread_task].
    apply task_ok_markReasoningComplete;
      [apply at_address_content_blind|by apply conversation_ok_task].
Qed.

Lemma store_ok_process d sse d' :
  store_ok d -> processSSEEvent cfg d sse = Ok d' -> store_ok d'.
Proof.
  intros Hok Hp.
  refine (process_ok cfg conversation_ok d sse d'
            (conversation_ok_empty _) _ Hok Hp).
  intros c c' Hc [[_ ->]|[_ Hu]]%process_conversation_cases; [done|].
  by eapply conversation_ok_update.
Qed.

Lemma store_ok_batch (s : AgentConversationsStore) cid events clear s' :
  store_ok s ->
  batchUpdateAgentConversationsStore cfg s cid events clear = Ok s' ->
  store_ok s'.
Proof.
  intros Hs Hb.
  exact (batch_ok cfg conversation_ok s cid events clear s'
           (fun d sse d' Hd => store_ok_process d sse d' Hd)
           conversation_ok_complete_conversation Hs Hb).
Qed.

Lemma reachable_store_ok (s : AgentConversationsStore) :
  reachable cfg s -> store_ok s.
Proof.
  induction 1 as [|s sse s' _ IH Hs|s cid events clear s' _ IH Hs].
  - intros cid c Hc. by rewrite lookup_empty in Hc.
  - by eapply store_ok_process.
  - by eapply store_ok_batch.
Qed.

(** In a store the entry points can produce, every item lies where its
    own address says: an item under [threads[tid].tasks[kid]] of
    conversation [cid] carries that conversation, thread and task id,
    and an item under a section of [cid] carries that conversation
    id. *)
Theorem reachable_items_at_their_address (s : AgentConversationsStore) :
  reachable AGENT_SECTION_COMPONENT_TYPE s ->
  (forall cid c tid th kid t it,
      s !! cid = Some c -> threads c !! tid = Some th ->
      (kid, t) ∈ tasks th -> it ∈ items t ->
      conversation_id it = cid /\ thread_id it = tid /\ task_id it = kid) /\
  (forall cid c kind th kid t it,
      s !! cid = Some c -> sections c !! kind = Some th ->
      (kid, t) ∈ tasks th -> it ∈ items t ->
      conversation_id it = cid).
Proof.
  intros Hs%reachable_store_ok. split.
  - intros cid c tid th kid t it Hc Hth Ht Hit.
    destruct (Hs cid c Hc) as [Hm _]. destruct (Hm tid th Hth) as [_ Hall].
    destruct (Hall kid t Ht) as [_ Hitems]. by apply Hitems.
  - intros cid c kind th kid t it Hc Hth Ht Hit.
    destruct (Hs cid c Hc) as [_ Hsec].
    destruct (Hsec kind th Hth) as [_ Hall].
    destruct (Hall kid t Ht) as [_ Hitems]. by apply Hitems.
Qed.

(** In a store the entry points can produce, identifiers identify: a
    thread holds one task per task id, and a task, of a thread or of a
    section, holds one item per item id. *)
Theorem reachable_ids_unique (s : AgentConversationsStore) :
  reachable AGENT_SECTION_COMPONENT_TYPE s ->
  forall cid c, s !! cid = Some c ->
    (forall tid th, threads c !! tid = Some th ->
       NoDup (tasks th).*1 /\
       forall kid t, (kid, t) ∈ tasks th -> NoDup (item_ids t)) /\
    (forall kind th kid t,
       sections c !! kind = Some th -> (kid, t) ∈ tasks th ->
       NoDup (item_ids t)).
Proof.
  intros Hs%reachable_store_ok cid c Hc. destruct (Hs cid c Hc) as [Hm Hsec].
  split.
  - intros tid th Hth. destruct (Hm tid th Hth) as [Hnd Hall].
    split; [done|]. intros kid t Ht. by destruct (Hall kid t Ht).
  - intros kind th kid t Hth Ht. destruct (Hsec kind th Hth) as [_ Hall].
    by destruct (Hall kid t Ht).
Qed.
End Invariants.

(* ===================================================================== *)
(** ** What an event touches *)

Section Frame.
Context `{JsRuntime}.
Variable AGENT_SECTION_COMPONENT_TYPE : list string.

Local Abbreviation cfg := AGENT_SECTION_COMPONENT_TYPE.
Implicit Types (d : AgentConversationsStore) (c : ConversationView).

(** The dispatch, seen from the conversations of the store. *)
Lemma process_cases d sse d' :
  processSSEEvent cfg d sse = Ok d' ->
  (event sse ∉ RECOGNIZED_EVENTS /\ d' = d) \/
  (event sse ∈ RECOGNIZED_EVENTS /\
   (is_Some (d !! d_conversation_id (data sse))
    \/ ordinary (d_conversation_id (data sse))) /\
   exists c',
     conversation_update cfg sse
       (default empty_conversation (d !! d_conversation_id (data sse))) c' /\
     d' = <[d_conversation_id (data sse) := c']> d).
Proof.
  rewrite processSSEEvent_at. case_bool_decide as He.
  - intros (Hc & c' & [[Hn _]|[_ Hu]]%process_conversation_cases & ->)
             %at_conversation_Ok; [done|].
    right. split; [done|]. split; [done|]. by exists c'.
  - intros [= <-]. by left.
Qed.

Lemma task_at_insert_ne d cid c cid' tid kid :
  cid <> cid' -> task_at (<[cid := c]> d) cid' tid kid = task_at d cid' tid kid.
Proof. intros Hne. unfold task_at. by rewrite lookup_insert_ne. Qed.

Lemma section_task_at_insert_ne d cid c cid' kind kid :
  cid <> cid' ->
  section_task_at (<[cid := c]> d) cid' kind kid
  = section_task_at d cid' kind kid.
Proof. intros Hne. unfold section_task_at. by rewrite lookup_insert_ne. Qed.

(** The conversation after a write to the task [ensurePath] returned,
    and after a write to the task [ensureSection] returned. *)
Lemma conv_task_written c tid kid task' :
  is_Some (conv_task c tid kid) \/ ordinary kid ->
  conv_task
    (alter_thread_task (fun _ => task') tid kid (with_thread_task tid kid c))
    tid kid = Some task'.
Proof.
  intros Hk. rewrite conv_task_alter_eq, conv_task_with_thread_task.
  destruct (conv_task c tid kid); [done|].
  destruct Hk as [[? [=]]|Hk]. unfold ordinary in Hk. by rewrite Hk.
Qed.

Lemma conv_task_written_ne c tid kid task' tid' kid' :
  (tid, kid) <> (tid', kid') ->
  conv_task
    (alter_thread_task (fun _ => task') tid kid (with_thread_task tid kid c))
    tid' kid' = conv_task c tid' kid'.
Proof.
  intros Hne. rewrite conv_task_alter_ne by done.
  by apply conv_task_with_thread_task_ne.
Qed.

Lemma conv_section_task_written c kind kid task' :
  is_Some (conv_section_task c kind kid) \/ ordinary kid ->
  conv_section_task
    (alter_section (fun _ => task') kind kid (with_section_task kind kid c))
    kind kid = Some task'.
Proof.
  intros Hk.
  rewrite conv_section_task_alter_eq, conv_section_task_with_section_task.
  destruct (conv_section_task c kind kid); [done|].
  destruct Hk as [[? [=]]|Hk]. unfold ordinary in Hk. by rewrite Hk.
Qed.

Lemma conv_section_task_written_ne c kind kid task' kind' kid' :
  (kind, kid) <> (kind', kid') ->
  conv_section_task
    (alter_section (fun _ => task') kind kid (with_section_task kind kid c))
    kind' kid' = conv_section_task c kind' kid'.
Proof.
  intros Hne. rewrite conv_section_task_alter_ne by done.
  by apply conv_section_task_with_section_task_ne.
Qed.

(** What an upsert or a completion leaves in the conversation: in the
    thread tree a written task at the event's thread and task id or,
    for an item that goes to a section, the task [ensurePath] left
    there; in the sections a written task or none. *)
Lemma conversation_update_main sse c c' :
  conversation_update cfg sse c c' ->
  let tid := d_thread_id (data sse) in
  let kid := d_task_id (data sse) in
  (is_Some (threads c !! tid) \/ ordinary tid) /\
  ((exists task',
      (is_Some (conv_task c tid kid) \/ ordinary kid) /\
      item_ids (default empty_task (conv_task c tid kid))
        `prefix_of` item_ids task' /\
      conv_task c' tid kid = Some task') \/
   conv_task c' tid kid = conv_task (with_thread_task tid kid c) tid kid) /\
  forall tid' kid',
    (tid, kid) <> (tid', kid') ->
    conv_task c' tid' kid' = conv_task c tid' kid'.
Proof.
  intros [item mode c0 c0' Hcid Ht Hk Hid Hh|c0 c0' He Hcomplete] tid kid;
    subst tid kid.
  - rewrite <- Ht, <- Hk.
    destruct (is_section_type cfg (component_type item)) eqn:Hs.
    + revert Hh. pose proof Hs as (kind & Hkind & _)%is_section_type_true.
      rewrite Hkind in Hs. intros Hh.
      apply (handle_conversation_section_Ok _ _ _ _ kind) in Hh
        as (Hth & _ & _ & task' & _ & ->); [|done..].
      split; [done|]. split; [by right|].
      intros tid' kid' Hne. rewrite conv_task_alter_section.
      rewrite conv_task_with_section_task.
      by apply conv_task_with_thread_task_ne.
    + apply handle_conversation_main_Ok in Hh
        as (Hth & Hkid & task' & Htask & ->); [|done].
      split; [done|]. split.
      * left. exists task'. split; [done|]. split.
        -- rewrite (addOrUpdateItem_item_ids _ _ _ _ Htask).
           case_bool_decide; [done|]. by apply prefix_app_r.
        -- by apply conv_task_written.
      * intros tid' kid'. apply conv_task_written_ne.
  - apply update_ensured_thread_task_Ok in Hcomplete
      as (Hth & Hkid & task' & [= <-] & ->).
    split; [done|]. split.
    + left. eexists. split; [done|]. split.
      * by rewrite markReasoningComplete_item_ids.
      * by apply conv_task_written.
    + intros tid' kid'. apply conv_task_written_ne.
Qed.

Lemma conversation_update_sections sse c c' :
  conversation_update cfg sse c c' ->
  forall kind kid,
    conv_section_task c' kind kid = conv_section_task c kind kid \/
    (kid = d_task_id (data sse) /\
     exists task',
       item_ids (default empty_task (conv_section_task c kind kid))
         `prefix_of` item_ids task' /\
       conv_section_task c' kind kid = Some task').
Proof.
  intros [item mode c0 c0' Hcid Ht Hk Hid Hh|c0 c0' He Hcomplete] kind' kid'.
  - destruct (is_section_type cfg (component_type item)) eqn:Hs.
    + revert Hh. pose proof Hs as (kind & Hkind & _)%is_section_type_true.
      rewrite Hkind in Hs. intros Hh.
      apply (handle_conversation_section_Ok _ _ _ _ kind) in Hh
        as (_ & _ & Hkid & task' & Htask & ->); [|done..].
      destruct (decide ((kind, task_id item) = (kind', kid')))
        as [[= <- <-]|Hne].
      * right. split; [done|]. exists task'. split.
        -- rewrite (addOrUpdateItem_item_ids _ _ _ _ Htask).
           case_bool_decide; [done|]. by apply prefix_app_r.
        -- by apply conv_section_task_written.
      * left. rewrite conv_section_task_written_ne by done.
        apply conv_section_task_with_thread_task.
    + apply handle_conversation_main_Ok in Hh
        as (_ & _ & task' & _ & ->); [|done]. by left.
  - apply update_ensured_thread_task_Ok in Hcomplete
      as (_ & _ & task' & _ & ->). by left.
Qed.

(** The frame of one event, proved on the conversation update. *)
Lemma process_frame d sse d' :
  processSSEEvent cfg d sse = Ok d' ->
  (forall cid, cid <> d_conversation_id (data sse) -> d' !! cid = d !! cid) /\
  (forall cid tid kid,
      (cid, tid, kid) <> (d_conversation_id (data sse),
                          d_thread_id (data sse), d_task_id (data sse)) ->
      task_at d' cid tid kid = task_at d cid tid kid) /\
  (forall cid kind kid,
      (cid, kid) <> (d_conversation_id (data sse), d_task_id (data sse)) ->
      section_task_at d' cid kind kid = section_task_at d cid kind kid).
Proof.
  intros [[_ ->]|(_ & _ & c' & Hu & ->)]%process_cases; [done|].
  split; [|split].
  - intros cid Hne. by rewrite lookup_insert_ne.
  - intros cid tid kid Hne.
    destruct (decide (d_conversation_id (data sse) = cid)) as [<-|Hc];
      [|by apply task_at_insert_ne].
    rewrite task_at_insert, task_at_conv.
    apply (conversation_update_main sse _ _ Hu). congruence.
  - intros cid kind kid Hne.
    destruct (decide (d_conversation_id (data sse) = cid)) as [<-|Hc];
      [|by apply section_task_at_insert_ne].
    rewrite section_task_at_insert, section_task_at_conv.
    destruct (conversation_update_sections sse _ _ Hu kind kid)
      as [Heq|[-> _]]; [done|]. by destruct Hne.
Qed.

(** An event that returns has touched one address.  Every conversation
    but the event's own is left as it was; so is every task of the
    thread tree but the one at the event's conversation, thread and
    task id, and every task of the sections but those under the event's
    conversation and task id. *)
Theorem processSSEEvent_touches_one_task (d : AgentConversationsStore)
    (sse : SSEData) (d' : AgentConversationsStore) :
  processSSEEvent AGENT_SECTION_COMPONENT_TYPE d sse = Ok d' ->
  let a := data sse in
  (forall cid, cid <> d_conversation_id a -> d' !! cid = d !! cid) /\
  (forall cid tid kid,
      (cid, tid, kid) <> (d_conversation_id a, d_thread_id a, d_task_id a) ->
      task_at d' cid tid kid = task_at d cid tid kid) /\
  (forall cid kind kid,
      (cid, kid) <> (d_conversation_id a, d_task_id a) ->
      section_task_at d' cid kind kid = section_task_at d cid kind kid).
Proof. apply process_frame. Qed.

Lemma process_path d sse d' :
  event sse ∈ RECOGNIZED_EVENTS ->
  processSSEEvent cfg d sse = Ok d' ->
  (is_Some (d !! d_conversation_id (data sse))
   \/ ordinary (d_conversation_id (data sse))) /\
  (is_Some (threads (default empty_conversation
                       (d !! d_conversation_id (data sse)))
              !! d_thread_id (data sse))
   \/ ordinary (d_thread_id (data sse))) /\
  (is_Some (task_at d' (d_conversation_id (data sse))
              (d_thread_id (data sse)) (d_task_id (data sse))) <->
   is_Some (task_at d (d_conversation_id (data sse))
              (d_thread_id (data sse)) (d_task_id (data sse)))
   \/ ordinary (d_task_id (data sse))).
Proof.
  intros He [[Hn _]|(_ & Hc & c' & Hu & ->)]%process_cases; [done|].
  destruct (conversation_update_main sse _ _ Hu) as (Hth & Htask & _).
  split; [done|]. split; [done|].
  rewrite task_at_insert, (task_at_conv d).
  destruct Htask as [(task' & Hk & _ & ->)| ->].
  - split; [done|]. by eexists.
  - rewrite conv_task_with_thread_task. unfold ordinary.
    destruct (conv_task _ _ _) as [t|]; simpl.
    + split; [by left|by eexists].
    + destruct (inherited _).
      * split; [by intros [? [=]]|by intros [[? [=]]|[=]]].
      * split; [by right|by eexists].
Qed.

Lemma process_throws d sse :
  event sse ∈ RECOGNIZED_EVENTS ->
  (d !! d_conversation_id (data sse) = None /\
   inherited (d_conversation_id (data sse)) = true) \/
  (threads (default empty_conversation (d !! d_conversation_id (data sse)))
     !! d_thread_id (data sse) = None /\
   inherited (d_thread_id (data sse)) = true) ->
  exists e, processSSEEvent cfg d sse = Throw e.
Proof.
  intros He Hbad.
  destruct (processSSEEvent cfg d sse) as [d'|e] eqn:Hp; [|by eexists].
  destruct (process_path d sse d' He Hp) as (Hc & Ht & _).
  unfold ordinary in *.
  destruct Hbad as [[Hn Hi]|[Hn Hi]].
  - rewrite Hn in Hc. destruct Hc as [[? [=]]|]; congruence.
  - rewrite Hn in Ht. destruct Ht as [[? [=]]|]; congruence.
Qed.

(** An event the dispatcher has a case for creates the path it names,
    when it returns: the conversation and the thread were there or
    have names that are none of Object.prototype, and the task at the
    event's conversation, thread and task id is there afterwards
    exactly when it was there before or its id is none of
    Object.prototype; this holds also for an event whose item goes to
    a section.  Such an event throws when the conversation or the
    thread would have to be created under a name of Object.prototype.
    An event of any other kind returns the store it was given. *)
Theorem recognized_event_creates_its_path (d : AgentConversationsStore)
    (sse : SSEData) :
  let a := data sse in
  (event sse ∈ RECOGNIZED_EVENTS ->
   forall d',
     processSSEEvent AGENT_SECTION_COMPONENT_TYPE d sse = Ok d' ->
     (is_Some (d !! d_conversation_id a) \/ ordinary (d_conversation_id a)) /\
     (is_Some (threads (default empty_conversation
                          (d !! d_conversation_id a)) !! d_thread_id a)
      \/ ordinary (d_thread_id a)) /\
     (is_Some (task_at d' (d_conversation_id a) (d_thread_id a)
                 (d_task_id a)) <->
      is_Some (task_at d (d_conversation_id a) (d_thread_id a) (d_task_id a))
      \/ ordinary (d_task_id a))) /\
  (event sse ∈ RECOGNIZED_EVENTS ->
   (d !! d_conversation_id a = None /\
    inherited (d_conversation_id a) = true) \/
   (threads (default empty_conversation (d !! d_conversation_id a))
      !! d_thread_id a = None /\
    inherited (d_thread_id a) = true) ->
   exists e, processSSEEvent AGENT_SECTION_COMPONENT_TYPE d sse = Throw e) /\
  (event sse ∉ RECOGNIZED_EVENTS ->
   processSSEEvent AGENT_SECTION_COMPONENT_TYPE d sse = Ok d).
Proof.
  intros a. subst a. split; [|split].
  - intros He d'. by apply process_path.
  - apply process_throws.
  - apply processSSEEvent_unrecognized.
Qed.

Lemma process_grows d sse d' :
  processSSEEvent cfg d sse = Ok d' -> grows d d'.
Proof.
  intros [[_ ->]|(_ & _ & c' & Hu & ->)]%process_cases;
    [split; intros ? ? ? t ?; by exists t|].
  destruct (conversation_update_main sse _ _ Hu) as (_ & Hat & Hne).
  split.
  - intros cid tid kid t Ht.
    destruct (decide (d_conversation_id (data sse) = cid)) as [<-|Hc];
      [|rewrite task_at_insert_ne by done; by exists t].
    rewrite task_at_insert. rewrite task_at_conv in Ht.
    destruct (decide ((d_thread_id (data sse), d_task_id (data sse))
                      = (tid, kid))) as [[= <- <-]|Hn];
      [|rewrite Hne by done; by exists t].
    destruct Hat as [(task' & _ & Hp & ->)| ->].
    + rewrite Ht in Hp. by exists task'.
    + rewrite conv_task_with_thread_task, Ht. by exists t.
  - intros cid kind kid t Ht.
    destruct (decide (d_conversation_id (data sse) = cid)) as [<-|Hc];
      [|rewrite section_task_at_insert_ne by done; by exists t].
    rewrite section_task_at_insert. rewrite section_task_at_conv in Ht.
    destruct (conversation_update_sections sse _ _ Hu kind kid)
      as [->|(_ & task' & Hp & ->)]; [by exists t|].
    rewrite Ht in Hp. by exists task'.
Qed.

Lemma grows_refl d : grows d d.
Proof. split; intros ? ? ? t ?; by exists t. Qed.

Lemma grows_trans d1 d2 d3 : grows d1 d2 -> grows d2 d3 -> grows d1 d3.
Proof.
  intros [Hm12 Hs12] [Hm23 Hs23]. split.
  - intros cid tid kid t (t2 & Ht2 & Hp)%Hm12.
    destruct (Hm23 _ _ _ _ Ht2) as (t3 & Ht3 & Hp').
    exists t3. split; [done|]. by etrans.
  - intros cid kind kid t (t2 & Ht2 & Hp)%Hs12.
    destruct (Hs23 _ _ _ _ Ht2) as (t3 & Ht3 & Hp').
    exists t3. split; [done|]. by etrans.
Qed.

Lemma replay_grows events d d' :
  replay cfg d events = Ok d' -> grows d d'.
Proof.
  revert d. induction events as [|sse events IH]; intros d.
  - intros [= <-]. apply grows_refl.
  - rewrite replay_cons. intros (d1 & Hd1 & Hrest)%bind_Ok.
    eapply grows_trans; [by eapply process_grows|by apply IH].
Qed.

Lemma complete_grows d cid : grows d (alter complete_conversation cid d).
Proof.
  split.
  - intros cid' tid kid t Ht.
    destruct (decide (cid = cid')) as [<-|Hc].
    + rewrite task_at_alter_complete, Ht. simpl. eexists. split; [done|].
      by rewrite markAllReasoningComplete_item_ids.
    + unfold task_at in *. rewrite lookup_alter_ne by done. by exists t.
  - intros cid' kind kid t Ht.
    rewrite section_task_at_alter_complete. by exists t.
Qed.

(** Updates only grow the store, whether they come one at a time or
    as a batch that does not clear: when the update returns, a task
    that was there is still there, in the thread tree and in the
    sections, and its sequence of item ids is extended at the end, if
    at all.  No item is removed, and none changes its place. *)
Theorem updates_only_grow (s : AgentConversationsStore) :
  (forall sse s',
      updateAgentConversationsStore AGENT_SECTION_COMPONENT_TYPE s sse
        = Ok s' ->
      grows s s') /\
  (forall cid events s',
      batchUpdateAgentConversationsStore AGENT_SECTION_COMPONENT_TYPE s cid
        events false = Ok s' ->
      grows s s').
Proof.
  split; [intros sse s'; apply process_grows|].
  intros cid events s' (d & Hd & _ & ->)%batch_Ok.
  eapply grows_trans; [by eapply replay_grows|apply complete_grows].
Qed.

Lemma batch_lookup_ne s cid events clear s' cid' :
  batchUpdateAgentConversationsStore cfg s cid events clear = Ok s' ->
  cid' <> cid ->
  (forall r, replay cfg s events = Ok r -> s' !! cid' = r !! cid') /\
  ((forall e, e ∈ events -> d_conversation_id (data e) = cid) ->
   s' !! cid' = s !! cid').
Proof.
  intros (d & Hd & _ & ->)%batch_Ok Hne.
  rewrite lookup_alter_ne by done. split.
  - intros r Hr. eapply replay_local; [|done..].
    by apply batch_start_lookup_ne.
  - intros Hev.
    rewrite (replay_lookup_ne cfg events (batch_start s cid clear) d cid');
      [| |done].
    + by apply batch_start_lookup_ne.
    + intros e He. by rewrite (Hev e He).
Qed.

(** A batch that returns has cleared and completed the conversation
    it names and no other: on every other conversation it is the
    plain replay of the events, which may address it, when that
    returns, as it does when the batch does not clear; and a batch
    whose events all address the named conversation leaves every
    other one as it was. *)
Theorem batch_elsewhere (s : AgentConversationsStore) (cid : string)
    (events : list SSEData) (clear : bool) (s' : AgentConversationsStore) :
  batchUpdateAgentConversationsStore AGENT_SECTION_COMPONENT_TYPE
    s cid events clear = Ok s' ->
  (forall cid' r,
      cid' <> cid ->
      replay AGENT_SECTION_COMPONENT_TYPE s events = Ok r ->
      s' !! cid' = r !! cid') /\
  (clear = false ->
   exists r, replay AGENT_SECTION_COMPONENT_TYPE s events = Ok r) /\
  ((forall e, e ∈ events -> d_conversation_id (data e) = cid) ->
   forall cid', cid' <> cid -> s' !! cid' = s !! cid').
Proof.
  intros Hb. split; [|split].
  - intros cid' r Hne. by apply (batch_lookup_ne s cid events clear s' cid').
  - intros ->. apply batch_Ok in Hb as (d & Hd & _). by exists d.
  - intros Hev cid' Hne.
    by apply (batch_lookup_ne s cid events clear s' cid').
Qed.
End Frame.

(* ===================================================================== *)
(** ** Streams of events for one item

    The events of a stream are values, each an object of its own as
    the transport delivers them: no two of them share a payload. *)

Section Streams.
Context `{JsRuntime}.
Variable AGENT_SECTION_COMPONENT_TYPE : list string.

Local Abbreviation cfg := AGENT_SECTION_COMPONENT_TYPE.
Implicit Types (d : AgentConversationsStore) (c : ConversationView).

Lemma obj_replace_same {V} (k : string) (v : V) (o : jsobj V) :
  obj_get k o = Some v -> obj_replace k v o = o.
Proof.
  induction o as [|[k0 v0] o IH]; simpl; [done|].
  destruct (decide (k = k0)) as [->|Hne]; [by intros [= ->]|].
  intros Hg. by rewrite IH.
Qed.

Lemma obj_set_same {V} (k : string) (v : V) (o : jsobj V) :
  obj_get k o = Some v -> obj_set k v o = o.
Proof.
  intros Hg. unfold obj_set, obj_has. rewrite Hg.
  by apply obj_replace_same.
Qed.

Lemma obj_string_Some k o s :
  obj_string k o = Some s -> obj_get k o = Some (JStr s).
Proof.
  unfold obj_string. destruct (obj_get k o) as [[]|]; try done.
  by intros [= ->].
Qed.

(** Writing to an item the content it has changes nothing. *)
Lemma set_content_id it s :
  payload_content it = Some s -> set_content it s = it.
Proof.
  intros Hs%obj_string_Some. unfold set_content, set_content_value.
  rewrite obj_set_same by done. by destruct it.
Qed.

Lemma not_section_type kind :
  kind ∉ cfg -> is_section_type cfg (Some kind) = false.
Proof.
  intros Hk. unfold is_section_type.
  by rewrite (bool_decide_eq_false_2 _ Hk), andb_false_r.
Qed.

Lemma task_of_main_items d cid tid kid :
  default empty_task (task_at d cid tid kid)
  = {| items := main_items d cid tid kid |}.
Proof. unfold main_items. by destruct (task_at d cid tid kid) as [[its]|]. Qed.

Lemma main_items_task d cid tid kid pre x :
  main_items d cid tid kid = pre ++ [x] -> is_Some (task_at d cid tid kid).
Proof.
  unfold main_items. destruct (task_at d cid tid kid); [by eexists|].
  by destruct pre.
Qed.

(** An upsert into the main tree: what it leaves at its address when
    it returns, and that it returns when the path resolves and the
    merge returns. *)
Lemma main_items_handle d item mode d' :
  is_section_type cfg (component_type item) = false ->
  handleChatItemEvent cfg d item mode = Ok d' ->
  exists task',
    addOrUpdateItem
      {| items := main_items d (conversation_id item) (thread_id item)
                    (task_id item) |} item mode = Ok task' /\
    main_items d' (conversation_id item) (thread_id item) (task_id item)
      = items task'.
Proof.
  intros Hs Hd'.
  destruct (handle_main_item cfg d item mode d' Hs Hd')
    as (task' & Htask & Hat & _).
  exists task'. rewrite <- task_of_main_items. split; [done|].
  unfold main_items. by rewrite Hat.
Qed.

Lemma handle_main_step d item mode task' :
  is_section_type cfg (component_type item) = false ->
  path_resolves d (conversation_id item) (thread_id item) (task_id item) ->
  addOrUpdateItem
    {| items := main_items d (conversation_id item) (thread_id item)
                  (task_id item) |} item mode = Ok task' ->
  exists d',
    handleChatItemEvent cfg d item mode = Ok d' /\
    main_items d' (conversation_id item) (thread_id item) (task_id item)
      = items task'.
Proof.
  intros Hs Hp Htask.
  destruct (handle_main_returns cfg d item mode task' Hs Hp) as [d' Hd'];
    [by rewrite task_of_main_items|].
  exists d'. split; [done|].
  destruct (main_items_handle d item mode d' Hs Hd') as (t & Ht & ->).
  congruence.
Qed.

Lemma process_markdown d sse :
  event sse ∈ MARKDOWN_EVENTS ->
  processSSEEvent cfg d sse =
    handleChatItemEvent cfg d (item_of_data (Some "markdown") (data sse))
      Append.
Proof.
  intros Hmd. unfold processSSEEvent.
  destruct (decide (event sse = "component_generator")) as [He|_].
  { rewrite He in Hmd. by apply (bool_decide_pack _) in Hmd. }
  by rewrite (bool_decide_eq_true_2 _ Hmd).
Qed.

Lemma process_reasoning d sse :
  event sse = "reasoning" ->
  processSSEEvent cfg d sse =
    handleChatItemEvent cfg d
      (with_payload (item_of_data (Some "reasoning") (data sse))
         (content_payload
            (obj_lit [("content", obj_get "content" (d_payload (data sse)));
                      ("isComplete", Some (JBool false))])))
      AppendReasoning.
Proof. intros He. unfold processSSEEvent. by rewrite He. Qed.

Lemma process_reasoning_started d sse :
  event sse = "reasoning_started" ->
  processSSEEvent cfg d sse =
    handleChatItemEvent cfg d
      (with_payload (item_of_data (Some "reasoning") (data sse))
         (content_payload (thought_record "" false)))
      Replace.
Proof. intros He. unfold processSSEEvent. by rewrite He. Qed.

Lemma joined_cons S s texts : joined S (s :: texts) = joined (S +:+ s) texts.
Proof. done. Qed.

Lemma replay_app d events1 events2 :
  replay cfg d (events1 ++ events2) =
    (d1 ← replay cfg d events1; replay cfg d1 events2).
Proof.
  revert d. induction events1 as [|e events1 IH]; intros d; [done|].
  simpl. rewrite !replay_cons.
  destruct (processSSEEvent cfg d e) as [d1|]; simpl; [apply IH|done].
Qed.

(** One more chunk onto the item at the end of the task. *)
Lemma markdown_chunk_step d first e s pre x S :
  "markdown" ∉ cfg -> markdown_chunk first e s ->
  main_items d (d_conversation_id (data first)) (d_thread_id (data first))
    (d_task_id (data first)) = pre ++ [x] ->
  no_item_with_id (d_item_id (data first)) pre ->
  item_id x = d_item_id (data first) -> payload_content x = Some S ->
  exists d',
    processSSEEvent cfg d e = Ok d' /\
    main_items d' (d_conversation_id (data first))
      (d_thread_id (data first)) (d_task_id (data first))
    = pre ++ [set_content x (S +:+ s)].
Proof.
  intros Hcfg (Hmd & (Hc & Ht & Hk & Hi) & Hs) Hitems Hpre Hx HS.
  rewrite process_markdown by done.
  set (item := item_of_data (Some "markdown") (data e)).
  assert (conversation_id item = d_conversation_id (data first)) as Hc'
    by done.
  assert (thread_id item = d_thread_id (data first)) as Ht' by done.
  assert (task_id item = d_task_id (data first)) as Hk' by done.
  rewrite <- Hc', <- Ht', <- Hk' in *.
  destruct (handle_main_step d item Append
              {| items := pre ++ [set_content x (S +:+ s)] |})
    as (d' & Hd' & Hmain).
  - by apply not_section_type.
  - apply path_resolves_task. by eapply main_items_task.
  - rewrite Hitems.
    rewrite (addOrUpdateItem_append_merge _ _ (length pre) x S s).
    + simpl. by rewrite insert_snoc.
    + simpl. rewrite Hi, <- Hx. apply first_with_id_snoc. by rewrite Hx.
    + done.
    + done.
  - by exists d'.
Qed.

Lemma markdown_chunks_extend first chunks texts :
  "markdown" ∉ cfg -> Forall2 (markdown_chunk first) chunks texts ->
  forall d pre x S,
    main_items d (d_conversation_id (data first)) (d_thread_id (data first))
      (d_task_id (data first)) = pre ++ [x] ->
    no_item_with_id (d_item_id (data first)) pre ->
    item_id x = d_item_id (data first) -> payload_content x = Some S ->
    exists d',
      replay cfg d chunks = Ok d' /\
      main_items d' (d_conversation_id (data first))
        (d_thread_id (data first)) (d_task_id (data first))
      = pre ++ [set_content x (joined S texts)].
Proof.
  intros Hcfg. induction 1 as [|e s chunks texts He _ IH];
    intros d pre x S Hitems Hpre Hx HS.
  - exists d. split; [done|]. simpl. by rewrite set_content_id.
  - destruct (markdown_chunk_step d first e s pre x S Hcfg He Hitems Hpre
                Hx HS) as (d1 & Hd1 & Hitems1).
    destruct (IH d1 pre (set_content x (S +:+ s)) (S +:+ s) Hitems1 Hpre Hx
                (payload_content_set_content _ _)) as (d' & Hd' & Hitems').
    exists d'. rewrite replay_cons, Hd1. split; [done|].
    by rewrite Hitems', joined_cons, set_content_set_content.
Qed.

Lemma markdown_first_step d first :
  "markdown" ∉ cfg -> event first ∈ MARKDOWN_EVENTS ->
  no_item_with_id (d_item_id (data first))
    (main_items d (d_conversation_id (data first))
       (d_thread_id (data first)) (d_task_id (data first))) ->
  (forall d1,
     processSSEEvent cfg d first = Ok d1 ->
     main_items d1 (d_conversation_id (data first))
       (d_thread_id (data first)) (d_task_id (data first))
     = main_items d (d_conversation_id (data first))
         (d_thread_id (data first)) (d_task_id (data first))
       ++ [item_of_data (Some "markdown") (data first)]) /\
  (path_resolves d (d_conversation_id (data first))
     (d_thread_id (data first)) (d_task_id (data first)) ->
   exists d1, processSSEEvent cfg d first = Ok d1).
Proof.
  intros Hcfg Hmd Hfresh. rewrite process_markdown by done.
  set (item := item_of_data (Some "markdown") (data first)).
  assert (addOrUpdateItem
            {| items := main_items d (conversation_id item)
                          (thread_id item) (task_id item) |} item Append
          = Ok {| items := main_items d (conversation_id item)
                             (thread_id item) (task_id item) ++ [item] |})
    as Hpush by (by apply addOrUpdateItem_push).
  split.
  - intros d1 Hd1.
    destruct (main_items_handle d item Append d1
                (not_section_type _ Hcfg) Hd1) as (task' & Htask & Hmain).
    rewrite Hpush in Htask. injection Htask as <-. exact Hmain.
  - intros Hp.
    destruct (handle_main_step d item Append _ (not_section_type _ Hcfg)
                Hp Hpush) as (d1 & Hd1 & _).
    by exists d1.
Qed.

(** A text streamed in chunks arrives whole: when no section takes
    markdown, a first markdown event for an item id the task does not
    hold yet, followed by any number of markdown events for the same
    item, each with string content, leaves one item at the end of the
    task, which is the first event's item with the contents
    concatenated in order of arrival.  The replay returns when the
    first event's path resolves. *)
Theorem markdown_stream_concatenates (d : AgentConversationsStore)
    (first : SSEData) (s0 : string) (chunks : list SSEData)
    (texts : list string) :
  let a := data first in
  let before :=
    main_items d (d_conversation_id a) (d_thread_id a) (d_task_id a) in
  "markdown" ∉ AGENT_SECTION_COMPONENT_TYPE ->
  event first ∈ MARKDOWN_EVENTS ->
  obj_string "content" (d_payload a) = Some s0 ->
  Forall2 (markdown_chunk first) chunks texts ->
  no_item_with_id (d_item_id a) before ->
  (forall d',
     replay AGENT_SECTION_COMPONENT_TYPE d (first :: chunks) = Ok d' ->
     main_items d' (d_conversation_id a) (d_thread_id a) (d_task_id a)
     = before ++ [set_content (item_of_data (Some "markdown") a)
                    (joined s0 texts)]) /\
  (path_resolves d (d_conversation_id a) (d_thread_id a) (d_task_id a) ->
   exists d',
     replay AGENT_SECTION_COMPONENT_TYPE d (first :: chunks) = Ok d').
Proof.
  intros a before Hcfg Hmd Hs0 Hchunks Hfresh. subst a before.
  destruct (markdown_first_step d first Hcfg Hmd Hfresh)
    as [Hfirst Hreturns].
  assert (forall d1,
            processSSEEvent cfg d first = Ok d1 ->
            exists d',
              replay cfg d1 chunks = Ok d' /\
              main_items d' (d_conversation_id (data first))
                (d_thread_id (data first)) (d_task_id (data first))
              = main_items d (d_conversation_id (data first))
                  (d_thread_id (data first)) (d_task_id (data first))
                ++ [set_content (item_of_data (Some "markdown") (data first))
                      (joined s0 texts)]) as Hrest.
  { intros d1 Hd1.
    apply (markdown_chunks_extend first chunks texts Hcfg Hchunks d1);
      [by apply Hfirst|done|done|done]. }
  split.
  - intros d'. rewrite replay_cons. intros (d1 & Hd1 & Hd')%bind_Ok.
    destruct (Hrest d1 Hd1) as (d'' & Hd'' & Hitems). congruence.
  - intros Hp. destruct (Hreturns Hp) as [d1 Hd1].
    destruct (Hrest d1 Hd1) as (d' & Hd' & _).
    exists d'. by rewrite replay_cons, Hd1.
Qed.

(** *** Reasoning *)

Lemma payload_content_content_payload it record :
  payload_content (with_payload it (content_payload record))
  = Some (JSON_stringify (JObj record)).
Proof. done. Qed.

Lemma set_content_content_payload it record record' :
  set_content (with_payload it (content_payload record))
    (JSON_stringify (JObj record'))
  = with_payload it (content_payload record').
Proof. done. Qed.

(** The structured append of one record onto another, both read back
    by the runtime. *)
Lemma append_reasoning_records task new i old S s :
  first_with_id (item_id new) (items task) i old ->
  payload_content old = Some (JSON_stringify (JObj (thought_record S false))) ->
  payload_content new = Some (JSON_stringify (JObj (thought_record s false))) ->
  round_trips (JObj (thought_record S false)) ->
  round_trips (JObj (thought_record s false)) ->
  addOrUpdateItem task new AppendReasoning =
    Ok {| items :=
            <[i := set_content old
                     (JSON_stringify (JObj (thought_record (S +:+ s) false)))]>
              (items task) |}.
Proof.
  intros Hf Hold Hnew HS Hs.
  rewrite (addOrUpdateItem_reasoning_found _ _ _ _ _ _ Hf Hold Hnew).
  unfold round_trips in HS, Hs. by rewrite HS, Hs.
Qed.

Lemma reasoning_chunk_step d first e s pre it S :
  "reasoning" ∉ cfg -> reasoning_chunk first e s ->
  round_trips (JObj (thought_record S false)) ->
  round_trips (JObj (thought_record s false)) ->
  main_items d (d_conversation_id (data first)) (d_thread_id (data first))
    (d_task_id (data first))
  = pre ++ [with_payload it (content_payload (thought_record S false))] ->
  no_item_with_id (d_item_id (data first)) pre ->
  item_id it = d_item_id (data first) ->
  exists d',
    processSSEEvent cfg d e = Ok d' /\
    main_items d' (d_conversation_id (data first))
      (d_thread_id (data first)) (d_task_id (data first))
    = pre ++ [with_payload it
                (content_payload (thought_record (S +:+ s) false))].
Proof.
  intros Hcfg (He & (Hc & Ht & Hk & Hi) & Hs) HrS Hrs Hitems Hpre Hit.
  rewrite process_reasoning by done. rewrite Hs.
  set (new := with_payload _ _).
  assert (conversation_id new = d_conversation_id (data first)) as Hc'
    by done.
  assert (thread_id new = d_thread_id (data first)) as Ht' by done.
  assert (task_id new = d_task_id (data first)) as Hk' by done.
  rewrite <- Hc', <- Ht', <- Hk' in *.
  destruct (handle_main_step d new AppendReasoning
              {| items :=
                   pre ++ [with_payload it
                             (content_payload
                                (thought_record (S +:+ s) false))] |})
    as (d' & Hd' & Hmain).
  - by apply not_section_type.
  - apply path_resolves_task. by eapply main_items_task.
  - rewrite Hitems.
    rewrite (append_reasoning_records _ new (length pre)
               (with_payload it (content_payload (thought_record S false)))
               S s); try done.
    + simpl. by rewrite insert_snoc.
    + simpl. rewrite Hi, <- Hit.
      apply (first_with_id_snoc pre (with_payload it _)). simpl.
      by rewrite Hit.
  - by exists d'.
Qed.

Lemma reasoning_chunks_extend first chunks texts :
  "reasoning" ∉ cfg -> Forall2 (reasoning_chunk first) chunks texts ->
  forall d pre it S,
    (forall s, s ∈ texts ++ partial_texts S texts ->
               round_trips (JObj (thought_record s false))) ->
    main_items d (d_conversation_id (data first)) (d_thread_id (data first))
      (d_task_id (data first))
    = pre ++ [with_payload it (content_payload (thought_record S false))] ->
    no_item_with_id (d_item_id (data first)) pre ->
    item_id it = d_item_id (data first) ->
    exists d',
      replay cfg d chunks = Ok d' /\
      main_items d' (d_conversation_id (data first))
        (d_thread_id (data first)) (d_task_id (data first))
      = pre ++ [with_payload it
                  (content_payload (thought_record (joined S texts) false))].
Proof.
  intros Hcfg. induction 1 as [|e s chunks texts He _ IH];
    intros d pre it S Hrt Hitems Hpre Hit; [by exists d|].
  destruct (reasoning_chunk_step d first e s pre it S Hcfg He)
    as (d1 & Hd1 & Hitems1); try done.
  { apply Hrt. rewrite elem_of_app. right. destruct texts; left. }
  { apply Hrt. rewrite elem_of_app. left. left. }
  destruct (IH d1 pre it (S +:+ s)) as (d' & Hd' & Hitems'); try done.
  { intros s' Hs'. apply Hrt. simpl.
    rewrite elem_of_app in Hs'. rewrite elem_of_cons, elem_of_app.
    rewrite elem_of_cons. tauto. }
  exists d'. rewrite replay_cons, Hd1. split; [done|].
  by rewrite Hitems', joined_cons.
Qed.

Lemma elem_of_partial_texts_last S texts : joined S texts ∈ partial_texts S texts.
Proof.
  revert S. induction texts as [|s texts IH]; intros S; simpl; [left|].
  right. apply IH.
Qed.

Lemma reasoning_started_step d started :
  "reasoning" ∉ cfg -> event started = "reasoning_started" ->
  no_item_with_id (d_item_id (data started))
    (main_items d (d_conversation_id (data started))
       (d_thread_id (data started)) (d_task_id (data started))) ->
  (forall d1,
     processSSEEvent cfg d started = Ok d1 ->
     main_items d1 (d_conversation_id (data started))
       (d_thread_id (data started)) (d_task_id (data started))
     = main_items d (d_conversation_id (data started))
         (d_thread_id (data started)) (d_task_id (data started))
       ++ [with_payload (item_of_data (Some "reasoning") (data started))
             (content_payload (thought_record "" false))]) /\
  (path_resolves d (d_conversation_id (data started))
     (d_thread_id (data started)) (d_task_id (data started)) ->
   exists d1, processSSEEvent cfg d started = Ok d1).
Proof.
  intros Hcfg Hst Hfresh. rewrite process_reasoning_started by done.
  set (item := with_payload _ _).
  assert (addOrUpdateItem
            {| items := main_items d (conversation_id item)
                          (thread_id item) (task_id item) |} item Replace
          = Ok {| items := main_items d (conversation_id item)
                             (thread_id item) (task_id item) ++ [item] |})
    as Hpush by (by apply addOrUpdateItem_push).
  split.
  - intros d1 Hd1.
    destruct (main_items_handle d item Replace d1
                (not_section_type _ Hcfg) Hd1) as (task' & Htask & Hmain).
    rewrite Hpush in Htask. injection Htask as <-. exact Hmain.
  - intros Hp.
    destruct (handle_main_step d item Replace _ (not_section_type _ Hcfg)
                Hp Hpush) as (d1 & Hd1 & _).
    by exists d1.
Qed.

(** The completion of the item at the end of the task. *)
Lemma reasoning_completed_step d sse pre it S :
  event sse = "reasoning_completed" ->
  round_trips (JObj (thought_record S false)) ->
  main_items d (d_conversation_id (data sse)) (d_thread_id (data sse))
    (d_task_id (data sse))
  = pre ++ [with_payload it (content_payload (thought_record S false))] ->
  no_item_with_id (d_item_id (data sse)) pre ->
  item_id it = d_item_id (data sse) ->
  exists d',
    processSSEEvent cfg d sse = Ok d' /\
    main_items d' (d_conversation_id (data sse)) (d_thread_id (data sse))
      (d_task_id (data sse))
    = pre ++ [with_payload it (content_payload (thought_record S true))].
Proof.
  intros He Hrt Hitems Hpre Hit.
  rewrite process_reasoning_completed by done.
  destruct (at_task_returns
              (fun task =>
                 Ok (markReasoningComplete task (d_item_id (data sse))))
              (d_conversation_id (data sse)) (d_thread_id (data sse))
              (d_task_id (data sse)) d _
              (path_resolves_task _ _ _ _ (main_items_task _ _ _ _ _ _ Hitems))
              eq_refl) as [d' Hd'].
  exists d'. split; [done|].
  apply at_task_Ok in Hd' as (_ & task' & [= <-] & Hat).
  unfold main_items at 1. rewrite Hat. simpl.
  rewrite task_of_main_items, Hitems.
  set (x := with_payload it (content_payload (thought_record S false))).
  assert (first_with_id (d_item_id (data sse)) (pre ++ [x]) (length pre) x)
    as Hfirst.
  { rewrite <- Hit. apply (first_with_id_snoc pre x). simpl. by rewrite Hit. }
  rewrite (markReasoningComplete_found {| items := pre ++ [x] |} _ _ x
             (JStr (JSON_stringify (JObj (thought_record S false))))
             Hfirst eq_refl).
  rewrite json_parse_string. unfold round_trips in Hrt. rewrite Hrt.
  simpl. by rewrite insert_snoc.
Qed.

(** A reasoning item lives through its stream: when no section takes
    reasoning and the runtime reads back the records involved, a
    reasoning-started event for an item id the task does not hold yet,
    reasoning events with texts for that item, and the completion,
    leave one item at the end of the task: the started event's item
    with the record of the concatenated texts, marked complete.  The
    replay returns when the started event's path resolves. *)
Theorem reasoning_stream_completes (d : AgentConversationsStore)
    (started : SSEData) (chunks : list SSEData) (texts : list string)
    (completed : SSEData) :
  let a := data started in
  let before :=
    main_items d (d_conversation_id a) (d_thread_id a) (d_task_id a) in
  "reasoning" ∉ AGENT_SECTION_COMPONENT_TYPE ->
  event started = "reasoning_started" ->
  Forall2 (reasoning_chunk started) chunks texts ->
  event completed = "reasoning_completed" -> same_item started completed ->
  (forall s, s ∈ texts ++ partial_texts "" texts ->
             round_trips (JObj (thought_record s false))) ->
  no_item_with_id (d_item_id a) before ->
  (forall d',
     replay AGENT_SECTION_COMPONENT_TYPE d
       (started :: chunks ++ [completed]) = Ok d' ->
     main_items d' (d_conversation_id a) (d_thread_id a) (d_task_id a)
     = before ++ [with_payload (item_of_data (Some "reasoning") a)
                    (content_payload
                       (thought_record (joined "" texts) true))]) /\
  (path_resolves d (d_conversation_id a) (d_thread_id a) (d_task_id a) ->
   exists d',
     replay AGENT_SECTION_COMPONENT_TYPE d
       (started :: chunks ++ [completed]) = Ok d').
Proof.
  intros a before Hcfg Hst Hchunks Hdone (Hc & Ht & Hk & Hi) Hrt Hfresh.
  subst a before.
  set (it := item_of_data (Some "reasoning") (data started)).
  set (pre := main_items d _ _ _) in *.
  destruct (reasoning_started_step d started Hcfg Hst Hfresh)
    as [Hfirst Hreturns].
  assert (forall d1,
            processSSEEvent cfg d started = Ok d1 ->
            exists d',
              replay cfg d1 (chunks ++ [completed]) = Ok d' /\
              main_items d' (d_conversation_id (data started))
                (d_thread_id (data started)) (d_task_id (data started))
              = pre ++ [with_payload it
                          (content_payload
                             (thought_record (joined "" texts) true))])
    as Hrest.
  { intros d1 Hd1.
    destruct (reasoning_chunks_extend started chunks texts Hcfg Hchunks
                d1 pre it "" Hrt (Hfirst d1 Hd1) Hfresh eq_refl)
      as (d2 & Hd2 & Hitems2).
    assert (round_trips (JObj (thought_record (joined "" texts) false)))
      as Hlast.
    { apply Hrt. rewrite elem_of_app. right.
      apply elem_of_partial_texts_last. }
    rewrite <- Hc, <- Ht, <- Hk in Hitems2. rewrite <- Hi in Hfresh.
    destruct (reasoning_completed_step d2 completed pre it
                (joined "" texts) Hdone Hlast Hitems2 Hfresh)
      as (d' & Hd' & Hitems'); [by rewrite Hi|].
    exists d'. rewrite replay_app, Hd2. simpl. rewrite replay_cons, Hd'.
    split; [done|]. by rewrite <- Hc, <- Ht, <- Hk. }
  split.
  - intros d'. rewrite replay_cons. intros (d1 & Hd1 & Hd')%bind_Ok.
    destruct (Hrest d1 Hd1) as (d'' & Hd'' & Hitems). congruence.
  - intros Hp. destruct (Hreturns Hp) as [d1 Hd1].
    destruct (Hrest d1 Hd1) as (d' & Hd' & _).
    exists d'. by rewrite replay_cons, Hd1.
Qed.
End Streams.

(* ===================================================================== *)
(** ** When the step template applies *)

Section Template.
Context `{JsRuntime}.

Lemma nullish_nullish x dflt :
  nullish (Some (nullish x JNull)) dflt = nullish x dflt.
Proof. by destruct x as [[]|]. Qed.

(** What the two readers find in an anchor. *)
Lemma isPlanningAnchorTool_true a :
  isPlanningAnchorTool a = true ->
  js_is_string (Some (getToolNameFromItem a)) "generate_execution_plan"
    = true \/
  js_includes STEP_TEMPLATE_START_TITLES
    (nullish (Some (getStepLabelFromItem a)) (JStr "")) = true.
Proof.
  unfold isPlanningAnchorTool, getToolNameFromItem, getStepLabelFromItem.
  destruct (negb (is_tool_call a)); [done|].
  destruct (content_value a) as [content|]; [|done].
  destruct (json_parse content) as [parsed|]; [|done].
  cbn [mbind result_bind rbind].
  destruct (js_prop parsed "tool_name") as [tn|]; [|done].
  cbn [mbind result_bind rbind].
  destruct (js_is_string tn "generate_execution_plan") eqn:Hp.
  - intros _. left. by apply js_is_string_true in Hp as ->.
  - destruct (js_prop parsed "step_label") as [sl|]; [|done].
    cbn [mbind result_bind rbind mret result_ret try_catch].
    intros Hinc. right. by rewrite nullish_nullish.
Qed.

Lemma shouldApply_iff thread name :
  shouldApplyAnalysisStepTemplate thread name = true <->
  name = Some (JStr "generate_execution_plan") \/
  getPlanningToolItems thread <> [].
Proof.
  unfold shouldApplyAnalysisStepTemplate.
  destruct (js_is_string name _) eqn:Hn.
  - apply js_is_string_true in Hn. tauto.
  - apply js_is_string_false in Hn.
    destruct (getPlanningToolItems_spec thread)
      as [[_ Hrun]|(pre & a & rest & _ & Ha & _ & Hrun)]; rewrite Hrun.
    + split; [done|]. by intros [?|?].
    + apply isPlanningAnchorTool_true in Ha.
      split; [intros _; by right|intros _].
      destruct Ha as [-> | ->]; [done|]. by rewrite orb_true_r.
Qed.

Lemma shouldApply_false_iff thread name :
  shouldApplyAnalysisStepTemplate thread name = false <->
  name <> Some (JStr "generate_execution_plan") /\
  getPlanningToolItems thread = [].
Proof.
  pose proof (shouldApply_iff thread name) as Hiff.
  destruct (shouldApplyAnalysisStepTemplate thread name).
  - split; [done|]. intros [Hn Hrun].
    exfalso. destruct (proj1 Hiff eq_refl) as [?|?]; tauto.
  - split; [intros _|done]. split.
    + intros Hn. discriminate (proj2 Hiff (or_introl Hn)).
    + destruct (getPlanningToolItems thread) eqn:Hrun; [done|].
      assert (false = true) as Habs; [|done].
      apply Hiff. by right.
Qed.

(** The template applies exactly when there is a planning context:
    the current tool is the plan generation, or the thread has a
    planning anchor.  The step ordinal is 0 exactly when the template
    does not apply, and never beyond the length of the planning run
    plus one. *)
Theorem template_applies_iff_planning_context (thread : ThreadView)
    (itemId : string) (currentToolName : option json) :
  let run := getPlanningToolItems thread in
  let order := getToolStepOrderInThread thread itemId currentToolName in
  (shouldApplyAnalysisStepTemplate thread currentToolName = true <->
   currentToolName = Some (JStr "generate_execution_plan") \/ run <> []) /\
  (order = 0%Z <->
   shouldApplyAnalysisStepTemplate thread currentToolName = false) /\
  (0 <= order <= Z.of_nat (length run) + 1)%Z.
Proof.
  intros run order. split; [apply shouldApply_iff|].
  rewrite shouldApply_false_iff. subst order.
  unfold getToolStepOrderInThread. fold run.
  destruct (decide (length run = 0%nat)) as [Hl|Hl].
  - apply nil_length_inv in Hl. rewrite Hl. simpl.
    destruct (js_is_string currentToolName _) eqn:Hn.
    + apply js_is_string_true in Hn. split; [|lia]. split; [done|tauto].
    + apply js_is_string_false in Hn. split; [|lia]. tauto.
  - assert (run <> []) as Hrun by (by intros Hr; rewrite Hr in Hl).
    destruct (list_find _ run) as [[i x]|] eqn:Hf.
    + apply list_find_Some in Hf as (Hi%lookup_lt_Some & _).
      split; [|lia]. split; [lia|tauto].
    + split; [|lia]. split; [lia|tauto].
Qed.

Lemma string_app_nonempty (a b : string) : a <> "" -> a +:+ b <> "".
Proof. by destruct a. Qed.

Lemma buildPlannedStepLabel_nonempty stepOrder companyName templateType l :
  buildPlannedStepLabel stepOrder companyName templateType = Some l ->
  l <> "".
Proof.
  pose proof (analysis_title_nonempty stepOrder) as Hne%String.eqb_neq.
  destruct templateType.
  - rewrite buildPlannedStepLabel_analysis.
    destruct companyName as [name|]; [destruct (_ && _)|];
      intros [= <-]; [by apply string_app_nonempty|done..].
  - rewrite buildPlannedStepLabel_news. unfold js_index.
    destruct (stepOrder - 1 <? 0)%Z; [done|].
    intros Hin%list_elem_of_lookup_2. unfold NEWS_STEP_TITLES in Hin.
    repeat (apply elem_of_cons in Hin as [->|Hin]; [done|]).
    by apply elem_of_nil in Hin.
Qed.

Lemma some_news_marker_strings contents :
  Forall (fun v => exists s, v = JStr s) contents ->
  exists news, some_news_marker contents = Ok news.
Proof.
  induction 1 as [|v contents [s ->] _ [news IH]]; simpl; [by eexists|].
  destruct (regex_test _ s); [by eexists|]. by exists news.
Qed.

Lemma first_candidate_strings contents :
  Forall (fun v => exists s, v = JStr s) contents ->
  exists name, first_candidate contents = Ok name.
Proof.
  induction 1 as [|v contents [s ->] _ [name IH]]; simpl; [by eexists|].
  destruct (truthy_string _); [by eexists|]. by exists name.
Qed.

Lemma plannedStepLabel_Ok thread a label :
  plannedStepLabel thread a = Ok label <->
  exists templateType companyName,
    detectStepTemplateInThread thread = Ok templateType /\
    detectCompanyNameInThread thread (task_title a) = Ok companyName /\
    label =
      if shouldApplyAnalysisStepTemplate thread
           (obj_get "tool_name" (d_payload a))
      then buildPlannedStepLabel
             (getToolStepOrderInThread thread (d_item_id a)
                (obj_get "tool_name" (d_payload a)))
             companyName templateType
      else None.
Proof.
  unfold plannedStepLabel. rewrite bind_Ok. split.
  - intros (templateType & Ht & (companyName & Hn & [= <-])%bind_Ok).
    by exists templateType, companyName.
  - intros (templateType & companyName & Ht & Hn & ->).
    exists templateType. split; [done|]. by rewrite Hn.
Qed.

(** The label is computed when the texts it reads are strings. *)
Lemma plannedStepLabel_returns thread a :
  Forall (fun v => exists s, v = JStr s) (userContents thread) ->
  (forall title, task_title a = Some title -> exists s, title = JStr s) ->
  exists label, plannedStepLabel thread a = Ok label.
Proof.
  intros Hu Ht.
  destruct (some_news_marker_strings _ Hu) as [news Hnews].
  destruct (first_candidate_strings _ Hu) as [name Hname].
  assert (exists templateType,
            detectStepTemplateInThread thread = Ok templateType)
    as [templateType Htemplate].
  { unfold detectStepTemplateInThread. rewrite Hnews. simpl.
    destruct news; by eexists. }
  assert (exists companyName,
            detectCompanyNameInThread thread (task_title a) = Ok companyName)
    as [companyName Hcompany].
  { unfold detectCompanyNameInThread. rewrite Hname. simpl.
    destruct name; [by eexists|].
    destruct (task_title a) as [title|] eqn:Htitle; [|by eexists].
    destruct (Ht title eq_refl) as [s ->]. simpl.
    destruct (negb _); by eexists. }
  eexists. apply plannedStepLabel_Ok. by exists templateType, companyName.
Qed.

(** The label of a tool-call event, when it is computed: none when
    the template does not apply; some label whenever it applies and
    the thread is on the analysis template; never the empty string;
    and on the news template one of the news titles, with no subject
    appended.  It is computed when the texts of the user and the task
    title are strings. *)
Theorem plannedStepLabel_spec (thread : ThreadView) (a : EventData) :
  let name := obj_get "tool_name" (d_payload a) in
  (forall label,
     plannedStepLabel thread a = Ok label ->
     (shouldApplyAnalysisStepTemplate thread name = false -> label = None) /\
     (shouldApplyAnalysisStepTemplate thread name = true ->
      detectStepTemplateInThread thread = Ok Analysis -> is_Some label) /\
     (forall l, label = Some l -> l <> "") /\
     (detectStepTemplateInThread thread = Ok News ->
      forall l, label = Some l -> l ∈ NEWS_STEP_TITLES)) /\
  (Forall (fun v => exists s, v = JStr s) (userContents thread) ->
   (forall title, task_title a = Some title -> exists s, title = JStr s) ->
   exists label, plannedStepLabel thread a = Ok label).
Proof.
  intros name. subst name. split; [|apply plannedStepLabel_returns].
  intros label (templateType & companyName & Ht & Hn & ->)%plannedStepLabel_Ok.
  destruct (shouldApplyAnalysisStepTemplate thread _).
  - split; [done|]. split; [|split].
    + intros _. rewrite Ht. intros [= ->].
      rewrite buildPlannedStepLabel_analysis.
      destruct companyName; [destruct (_ && _)|]; by eexists.
    + intros l. apply buildPlannedStepLabel_nonempty.
    + rewrite Ht. intros [= ->] l.
      rewrite buildPlannedStepLabel_news. unfold js_index.
      destruct (_ <? 0)%Z; [done|]. apply list_elem_of_lookup_2.
  - split; [done|]. split; [done|]. split; [done|]. by intros _ l.
Qed.

Lemma elem_of_getThreadItems thread kid task it :
  (kid, task) ∈ tasks thread -> it ∈ items task ->
  it ∈ getThreadItems thread.
Proof.
  intros Hk Hit. unfold getThreadItems, obj_values.
  apply list_elem_of_In, in_concat. exists (items task).
  split; [|by apply list_elem_of_In].
  apply in_map, in_map_iff. exists (kid, task).
  split; [done|]. by apply list_elem_of_In.
Qed.

(** A thread that holds an anchor has a planning run. *)
Lemma anchor_starts_a_run thread kid task a :
  (kid, task) ∈ tasks thread -> a ∈ items task ->
  isPlanningAnchorTool a = true ->
  getPlanningToolItems thread <> [].
Proof.
  intros Hk Ha Hanchor.
  destruct (getPlanningToolItems_spec thread)
    as [[Hnone _]|(pre & x & rest & _ & _ & _ & ->)]; [|done].
  rewrite Forall_forall in Hnone. rewrite Hnone in Hanchor; [done|].
  apply list_elem_of_filter. split.
  - unfold isPlanningAnchorTool, is_tool_call in Hanchor.
    by case_bool_decide.
  - by eapply elem_of_getThreadItems.
Qed.
End Template.

Section Anchors.
Context `{JsRuntime}.
Variable AGENT_SECTION_COMPONENT_TYPE : list string.

Local Abbreviation cfg := AGENT_SECTION_COMPONENT_TYPE.
Implicit Types (d : AgentConversationsStore) (c : ConversationView).

Lemma process_conversation_tool_call sse c :
  event sse ∈ TOOL_CALL_EVENTS ->
  process_conversation cfg sse c =
    (c1 ← ensure_thread_task (d_thread_id (data sse))
            (d_task_id (data sse)) c;
     label ← plannedStepLabel (conv_thread c1 (d_thread_id (data sse)))
               (data sse);
     handle_conversation cfg
       (with_payload (item_of_data (Some "tool_call") (data sse))
          (content_payload (tool_call_record (data sse) label)))
       Replace c1).
Proof.
  intros He. unfold process_conversation.
  repeat match goal with
  | |- context [decide (event sse = ?s)] =>
      destruct (decide (event sse = s)) as [Hs|_];
        [rewrite Hs in He; by apply (bool_decide_pack _) in He|]
  end.
  destruct (bool_decide (event sse ∈ MARKDOWN_EVENTS)) eqn:Hmd.
  { apply bool_decide_eq_true in Hmd. exfalso. revert Hmd.
    unfold TOOL_CALL_EVENTS in He.
    repeat (apply elem_of_cons in He as [->|He];
            [by apply (bool_decide_unpack _)|]).
    by apply elem_of_nil in He. }
  by rewrite (bool_decide_eq_true_2 _ He).
Qed.

(** A tool-call event returns exactly when the label is computed and
    the upsert of the item that carries it returns. *)
Lemma process_tool_call_Ok d sse d' :
  event sse ∈ TOOL_CALL_EVENTS ->
  processSSEEvent cfg d sse = Ok d' <->
  exists label,
    plannedStepLabel (tool_call_thread d (data sse)) (data sse) = Ok label /\
    handleChatItemEvent cfg d
      (with_payload (item_of_data (Some "tool_call") (data sse))
         (content_payload (tool_call_record (data sse) label)))
      Replace = Ok d'.
Proof.
  intros He.
  rewrite processSSEEvent_recognized by (by apply recognized_tool_call).
  rewrite at_conversation_Ok. split.
  - intros (Hc & c' & Hp & ->).
    rewrite process_conversation_tool_call in Hp by done.
    apply bind_Ok in Hp as (c1 & Hc1 & (label & Hl & Hh)%bind_Ok).
    exists label.
    rewrite (handle_conversation_ensured cfg _ _ _ c1) in Hh by exact Hc1.
    apply ensure_thread_task_Ok in Hc1 as [_ ->]. split; [exact Hl|].
    rewrite handleChatItemEvent_at. apply at_conversation_Ok.
    split; [done|]. by exists c'.
  - intros (label & Hl & Hh). rewrite handleChatItemEvent_at in Hh.
    cbn [conversation_id with_payload item_of_data] in Hh.
    apply at_conversation_Ok in Hh as (Hc & c' & Hh & ->).
    split; [done|]. exists c'. split; [|done].
    rewrite process_conversation_tool_call by done.
    pose proof Hh as Hh'. unfold handle_conversation in Hh'.
    apply bind_Ok in Hh' as (c1 & Hc1 & _).
    cbn [thread_id task_id with_payload item_of_data] in Hc1.
    rewrite Hc1. simpl.
    rewrite <- (handle_conversation_ensured cfg _ _ _ c1) in Hh
      by exact Hc1.
    apply ensure_thread_task_Ok in Hc1 as [_ ->].
    unfold tool_call_thread in Hl. rewrite Hl. exact Hh.
Qed.

Lemma thread_at_task d cid tid kid task :
  task_at d cid tid kid = Some task ->
  (kid, task) ∈ tasks (thread_at d cid tid).
Proof.
  unfold task_at, thread_at, conv_task.
  destruct (d !! cid) as [c|]; [|done]. simpl.
  destruct (threads c !! tid) as [th|]; [|done]. simpl.
  apply obj_get_Some_elem.
Qed.

Lemma tool_call_thread_task d a task :
  task_at d (d_conversation_id a) (d_thread_id a) (d_task_id a) = Some task ->
  tool_call_thread d a
  = thread_at d (d_conversation_id a) (d_thread_id a).
Proof.
  intros Ht. unfold tool_call_thread.
  rewrite with_thread_task_present
    by (rewrite <- task_at_conv, Ht; by eexists).
  unfold thread_at, conv_thread. by destruct (d !! d_conversation_id a).
Qed.

(** The thread a tool-call event reads holds the tasks of the thread
    it addresses. *)
Lemma tool_call_thread_tasks d a kid task :
  task_at d (d_conversation_id a) (d_thread_id a) kid = Some task ->
  (kid, task) ∈ tasks (tool_call_thread d a).
Proof.
  intros Ht. unfold tool_call_thread, conv_thread, with_thread_task; simpl.
  rewrite lookup_insert_eq; simpl.
  rewrite task_at_conv in Ht. unfold conv_task, conv_thread in *.
  destruct (threads _ !! d_thread_id a) as [th|]; [|done]. simpl in *.
  apply obj_get_Some_elem.
  destruct (decide (d_task_id a = kid)) as [<-|Hne].
  - by rewrite obj_get_ensure_eq, Ht.
  - by rewrite obj_get_ensure_ne.
Qed.

(** The stored item of a plan-generation event is an anchor. *)
Lemma plan_item_is_anchor a label :
  obj_get "tool_name" (d_payload a)
    = Some (JStr "generate_execution_plan") ->
  round_trips (JObj (tool_call_record a label)) ->
  isPlanningAnchorTool
    (with_payload (item_of_data (Some "tool_call") a)
       (content_payload (tool_call_record a label))) = true.
Proof.
  intros Hname Hrt. unfold isPlanningAnchorTool. simpl.
  unfold round_trips in Hrt.
  change (content_value
            (with_payload (item_of_data (Some "tool_call") a)
               (content_payload (tool_call_record a label))))
    with (Some (JStr (JSON_stringify (JObj (tool_call_record a label))))).
  rewrite json_parse_string, Hrt. cbn [mbind result_bind rbind js_prop].
  unfold tool_call_record at 1.
  rewrite obj_get_set_ne by done. by rewrite Hname.
Qed.

Lemma plan_event_anchors d sse d' :
  "tool_call" ∉ cfg ->
  event sse ∈ TOOL_CALL_EVENTS ->
  obj_get "tool_name" (d_payload (data sse))
    = Some (JStr "generate_execution_plan") ->
  (forall label,
     plannedStepLabel (tool_call_thread d (data sse)) (data sse) = Ok label ->
     round_trips (JObj (tool_call_record (data sse) label))) ->
  processSSEEvent cfg d sse = Ok d' ->
  exists stored task',
    task_at d' (d_conversation_id (data sse)) (d_thread_id (data sse))
      (d_task_id (data sse)) = Some task' /\
    stored ∈ items task' /\
    item_id stored = d_item_id (data sse) /\
    isPlanningAnchorTool stored = true.
Proof.
  intros Hcfg He Hname Hrt (label & Hl & Hh)%process_tool_call_Ok; [|done].
  set (stored := with_payload (item_of_data (Some "tool_call") (data sse))
                   (content_payload (tool_call_record (data sse) label))).
  fold stored in Hh.
  destruct (handle_main_item cfg d stored Replace d'
              (not_section_type cfg _ Hcfg) Hh) as (task' & Htask & Hat & _).
  exists stored, task'. split; [exact Hat|].
  split; [|split; [done|]].
  - eapply addOrUpdateItem_stores; [exact Htask|by left].
  - apply plan_item_is_anchor; [done|by apply Hrt].
Qed.

Lemma tool_call_returns d sse :
  "tool_call" ∉ cfg ->
  event sse ∈ TOOL_CALL_EVENTS ->
  path_resolves d (d_conversation_id (data sse)) (d_thread_id (data sse))
    (d_task_id (data sse)) ->
  (exists label,
     plannedStepLabel (tool_call_thread d (data sse)) (data sse) = Ok label) ->
  exists d', processSSEEvent cfg d sse = Ok d'.
Proof.
  intros Hcfg He Hp [label Hl].
  set (stored := with_payload (item_of_data (Some "tool_call") (data sse))
                   (content_payload (tool_call_record (data sse) label))).
  destruct (addOrUpdateItem_returns
              (default empty_task
                 (task_at d (d_conversation_id (data sse))
                    (d_thread_id (data sse)) (d_task_id (data sse))))
              stored Replace) as [task' Htask]; [by left|].
  destruct (handle_main_returns cfg d stored Replace task'
              (not_section_type cfg _ Hcfg) Hp Htask) as [d' Hd'].
  exists d'. apply process_tool_call_Ok; [done|]. by exists label.
Qed.

(** A plan-generation tool call anchors its thread: when no section
    takes tool calls and the runtime reads back the record the event
    serializes, the item the event stores when it returns is a
    planning anchor, and for every later tool-call event of that
    thread, while the store stays as it is, the thread it reads has a
    planning run and the template applies, whatever tool it names.
    The event returns when its path resolves and its label is
    computed. *)
Theorem plan_event_anchors_the_thread (d : AgentConversationsStore)
    (sse : SSEData) :
  let a := data sse in
  "tool_call" ∉ AGENT_SECTION_COMPONENT_TYPE ->
  event sse ∈ TOOL_CALL_EVENTS ->
  obj_get "tool_name" (d_payload a)
    = Some (JStr "generate_execution_plan") ->
  (forall label,
     plannedStepLabel (tool_call_thread d a) a = Ok label ->
     round_trips (JObj (tool_call_record a label))) ->
  (forall d',
     processSSEEvent AGENT_SECTION_COMPONENT_TYPE d sse = Ok d' ->
     (exists stored,
         stored ∈ main_items d' (d_conversation_id a) (d_thread_id a)
                    (d_task_id a) /\
         item_id stored = d_item_id a /\
         isPlanningAnchorTool stored = true) /\
     forall b,
       d_conversation_id b = d_conversation_id a ->
       d_thread_id b = d_thread_id a ->
       getPlanningToolItems (tool_call_thread d' b) <> [] /\
       forall next,
         shouldApplyAnalysisStepTemplate (tool_call_thread d' b) next
           = true) /\
  (path_resolves d (d_conversation_id a) (d_thread_id a) (d_task_id a) ->
   (exists label, plannedStepLabel (tool_call_thread d a) a = Ok label) ->
   exists d', processSSEEvent AGENT_SECTION_COMPONENT_TYPE d sse = Ok d').
Proof.
  intros a Hcfg He Hname Hrt. subst a.
  split; [|by apply tool_call_returns].
  intros d' Hd'.
  destruct (plan_event_anchors d sse d' Hcfg He Hname Hrt Hd')
    as (stored & task' & Hat & Hin & Hid & Hanchor).
  split.
  - exists stored. unfold main_items. rewrite Hat. done.
  - intros b Hc Ht.
    assert (getPlanningToolItems (tool_call_thread d' b) <> []) as Hrun.
    { apply (anchor_starts_a_run _ (d_task_id (data sse)) task' stored);
        [|done..].
      apply tool_call_thread_tasks. by rewrite Hc, Ht. }
    split; [done|]. intros next. apply shouldApply_iff. by right.
Qed.
End Anchors.

(* ===================================================================== *)
(** ** Reloading a history *)

Section Reload.
Context `{JsRuntime}.
Variable AGENT_SECTION_COMPONENT_TYPE : list string.

Local Abbreviation cfg := AGENT_SECTION_COMPONENT_TYPE.
Implicit Types (d : AgentConversationsStore) (c : ConversationView).

Lemma main_items_complete d cid tid kid :
  main_items (alter complete_conversation cid d) cid tid kid
  = mark_item_complete <$> main_items d cid tid kid.
Proof.
  unfold main_items. rewrite task_at_alter_complete.
  by destruct (task_at d cid tid kid).
Qed.

Lemma main_items_cleared (s : AgentConversationsStore) cid tid kid :
  main_items (batch_start s cid true) cid tid kid = [].
Proof.
  unfold main_items. by rewrite task_at_conv, batch_start_clear.
Qed.

Lemma path_resolves_cleared (s : AgentConversationsStore) cid tid kid :
  path_resolves (batch_start s cid true) cid tid kid <->
  ordinary cid /\ ordinary tid /\ ordinary kid.
Proof.
  unfold path_resolves. rewrite task_at_conv, batch_start_clear. simpl.
  rewrite lookup_empty. split.
  - intros ([[? [=]]|?] & [[? [=]]|?] & [[? [=]]|?]). done.
  - intros (? & ? & ?). repeat split; by right.
Qed.

(** The replay of an open reasoning stream on a cleared draft. *)
Lemma open_reasoning_replayed (s : AgentConversationsStore) started chunks
    texts :
  "reasoning" ∉ cfg ->
  event started = "reasoning_started" ->
  Forall2 (reasoning_chunk started) chunks texts ->
  (forall t, t ∈ texts ++ partial_texts "" texts ->
             round_trips (JObj (thought_record t false))) ->
  forall d1,
    processSSEEvent cfg
      (batch_start s (d_conversation_id (data started)) true) started
      = Ok d1 ->
    exists d',
      replay cfg d1 chunks = Ok d' /\
      main_items d' (d_conversation_id (data started))
        (d_thread_id (data started)) (d_task_id (data started))
      = [with_payload (item_of_data (Some "reasoning") (data started))
           (content_payload (thought_record (joined "" texts) false))].
Proof.
  intros Hcfg Hst Hchunks Hrt d1 Hd1.
  assert (no_item_with_id (d_item_id (data started))
            (main_items
               (batch_start s (d_conversation_id (data started)) true)
               (d_conversation_id (data started))
               (d_thread_id (data started)) (d_task_id (data started))))
    as Hfresh.
  { rewrite main_items_cleared. intros y Hy. by apply elem_of_nil in Hy. }
  destruct (reasoning_started_step cfg _ started Hcfg Hst Hfresh)
    as [Hfirst _].
  specialize (Hfirst d1 Hd1). rewrite main_items_cleared in Hfirst.
  apply (reasoning_chunks_extend cfg started chunks texts Hcfg Hchunks
           d1 [] _ "" Hrt Hfirst); [|done].
  intros y Hy. by apply elem_of_nil in Hy.
Qed.

(** A reloaded history closes the reasoning it left open: when no
    section takes reasoning and the runtime reads back the records
    involved, a clearing batch for the conversation of a
    reasoning-started event followed by reasoning events for that
    item, with no completion among them, ends, when it returns, with
    that one item in the task, holding the concatenated texts and
    marked complete.  It returns when the names of the started
    event's path are none of Object.prototype. *)
Theorem batch_completes_open_reasoning (s : AgentConversationsStore)
    (started : SSEData) (chunks : list SSEData) (texts : list string) :
  let a := data started in
  "reasoning" ∉ AGENT_SECTION_COMPONENT_TYPE ->
  event started = "reasoning_started" ->
  Forall2 (reasoning_chunk started) chunks texts ->
  (forall t, t ∈ texts ++ partial_texts "" texts ->
             round_trips (JObj (thought_record t false))) ->
  (forall s',
     batchUpdateAgentConversationsStore AGENT_SECTION_COMPONENT_TYPE s
       (d_conversation_id a) (started :: chunks) true = Ok s' ->
     main_items s' (d_conversation_id a) (d_thread_id a) (d_task_id a)
     = [with_payload (item_of_data (Some "reasoning") a)
          (content_payload (thought_record (joined "" texts) true))]) /\
  (ordinary (d_conversation_id a) -> ordinary (d_thread_id a) ->
   ordinary (d_task_id a) ->
   exists s',
     batchUpdateAgentConversationsStore AGENT_SECTION_COMPONENT_TYPE s
       (d_conversation_id a) (started :: chunks) true = Ok s').
Proof.
  intros a Hcfg Hst Hchunks Hrt. subst a.
  pose proof (open_reasoning_replayed s started chunks texts Hcfg Hst
                Hchunks Hrt) as Hreplayed.
  assert (round_trips (JObj (thought_record (joined "" texts) false)))
    as Hlast.
  { apply Hrt. rewrite elem_of_app. right.
    apply elem_of_partial_texts_last. }
  split.
  - intros s' (d & Hd & _ & ->)%batch_Ok.
    rewrite replay_cons in Hd. apply bind_Ok in Hd as (d1 & Hd1 & Hd).
    destruct (Hreplayed d1 Hd1) as (d' & Hd' & Hitems).
    assert (d' = d) as -> by congruence.
    rewrite main_items_complete, Hitems.
    change (mark_item_complete <$> [?x]) with [mark_item_complete x].
    by rewrite (mark_item_complete_marks
                  (with_payload
                     (item_of_data (Some "reasoning") (data started))
                     (content_payload
                        (thought_record (joined "" texts) false)))
                  (JStr (JSON_stringify
                           (JObj (thought_record (joined "" texts) false))))
                  _ (Some (JBool false))
                  eq_refl eq_refl Hlast eq_refl eq_refl).
  - intros Hc Ht Hk.
    assert (no_item_with_id (d_item_id (data started))
              (main_items
                 (batch_start s (d_conversation_id (data started)) true)
                 (d_conversation_id (data started))
                 (d_thread_id (data started)) (d_task_id (data started))))
      as Hfresh.
    { rewrite main_items_cleared. intros y Hy. by apply elem_of_nil in Hy. }
    destruct (reasoning_started_step cfg _ started Hcfg Hst Hfresh)
      as [_ Hreturns].
    destruct Hreturns as [d1 Hd1]; [by apply path_resolves_cleared|].
    destruct (Hreplayed d1 Hd1) as (d' & Hd' & Hitems).
    eexists. apply batch_Ok. exists d'.
    split; [by rewrite replay_cons, Hd1|]. split; [by right|done].
Qed.
End Reload.

(* ===================================================================== *)
(** ** A completion that finds nothing to complete *)

Section NoTarget.
Context `{JsRuntime}.
Variable AGENT_SECTION_COMPONENT_TYPE : list string.

Local Abbreviation cfg := AGENT_SECTION_COMPONENT_TYPE.
Implicit Types (d : AgentConversationsStore) (c : ConversationView).

Lemma obj_alter_id {V} (f : V -> V) (k : string) (o : jsobj V) :
  (forall v, obj_get k o = Some v -> f v = v) -> obj_alter f k o = o.
Proof.
  induction o as [|[k0 v0] o IH]; simpl; [done|].
  destruct (decide (k = k0)) as [->|Hne]; intros Hf.
  - by rewrite Hf.
  - by rewrite IH.
Qed.

Lemma alter_thread_task_id f tid kid c :
  (forall task, conv_task c tid kid = Some task -> f task = task) ->
  alter_thread_task f tid kid c = c.
Proof.
  intros Hf. unfold alter_thread_task.
  rewrite alter_id; [by destruct c|].
  intros th Hth. unfold alter_task.
  rewrite obj_alter_id; [by destruct th|].
  intros task Htask. apply Hf. unfold conv_task. by rewrite Hth.
Qed.

Lemma markReasoningComplete_no_target task id :
  no_item_with_id id (items task) \/
  (exists i it, first_with_id id (items task) i it /\
                hasContent it = false) ->
  markReasoningComplete task id = task.
Proof.
  intros [Hn|(i & it & Hf & Hc)].
  - by apply markReasoningComplete_absent.
  - by eapply markReasoningComplete_no_content.
Qed.

(** The completion step on a conversation whose addressed task has
    nothing to complete. *)
Lemma complete_without_target c tid kid id :
  markReasoningComplete (default empty_task (conv_task c tid kid)) id
    = default empty_task (conv_task c tid kid) ->
  (c1 ← ensure_thread_task tid kid c;
   update_thread_task (fun task => Ok (markReasoningComplete task id))
     tid kid c1) =
  if bool_decide (is_Some (conv_task c tid kid)) || negb (inherited kid)
  then ensure_thread_task tid kid c
  else c1 ← ensure_thread_task tid kid c; Throw TypeError.
Proof.
  intros Hid.
  destruct (ensure_thread_task_cases tid kid c) as [Hc|Hc]; rewrite Hc;
    cbn [mbind result_bind rbind]; [|by destruct (_ || _)].
  unfold update_thread_task. rewrite conv_task_with_thread_task.
  destruct (conv_task c tid kid) as [task|] eqn:Htask.
  - rewrite bool_decide_eq_true_2 by (by eexists).
    simpl in Hid. cbn [mbind result_bind rbind orb].
    rewrite Hid. f_equal. apply alter_thread_task_id.
    intros task'. rewrite conv_task_with_thread_task, Htask.
    by intros [= <-].
  - rewrite bool_decide_eq_false_2 by (by intros [? [=]]).
    simpl in Hid.
    destruct (inherited kid) eqn:Hi;
      cbn [mbind result_bind rbind orb negb]; [done|].
    rewrite Hid. f_equal. apply alter_thread_task_id.
    intros task'. rewrite conv_task_with_thread_task, Htask, Hi.
    by intros [= <-].
Qed.

Lemma reasoning_completed_no_target d sse :
  event sse = "reasoning_completed" ->
  no_item_with_id (d_item_id (data sse))
    (main_items d (d_conversation_id (data sse)) (d_thread_id (data sse))
       (d_task_id (data sse))) \/
  (exists i it,
      first_with_id (d_item_id (data sse))
        (main_items d (d_conversation_id (data sse))
           (d_thread_id (data sse)) (d_task_id (data sse))) i it /\
      hasContent it = false) ->
  (is_Some (task_at d (d_conversation_id (data sse))
              (d_thread_id (data sse)) (d_task_id (data sse)))
   \/ ordinary (d_task_id (data sse)) ->
   processSSEEvent cfg d sse
   = ensurePath d (d_conversation_id (data sse)) (d_thread_id (data sse))
       (d_task_id (data sse))) /\
  (task_at d (d_conversation_id (data sse)) (d_thread_id (data sse))
     (d_task_id (data sse)) = None ->
   inherited (d_task_id (data sse)) = true ->
   exists e, processSSEEvent cfg d sse = Throw e).
Proof.
  intros He Hnone.
  rewrite process_reasoning_completed by done.
  rewrite ensurePath_at, !at_conversation_spec.
  assert (forall c,
            c = default empty_conversation
                  (d !! d_conversation_id (data sse)) ->
            markReasoningComplete
              (default empty_task
                 (conv_task c (d_thread_id (data sse))
                    (d_task_id (data sse))))
              (d_item_id (data sse))
            = default empty_task
                (conv_task c (d_thread_id (data sse))
                   (d_task_id (data sse)))) as Hid.
  { intros c ->. rewrite <- task_at_conv.
    apply markReasoningComplete_no_target.
    by rewrite task_of_main_items. }
  rewrite (task_at_conv d).
  destruct (d !! d_conversation_id (data sse)) as [c|] eqn:Hd; simpl.
  - rewrite (complete_without_target c _ _ _ (Hid c eq_refl)). split.
    + intros [Hs|Hk].
      * by rewrite bool_decide_eq_true_2.
      * unfold ordinary in Hk. by rewrite Hk, orb_true_r.
    + intros Hn Hi. rewrite Hn, Hi.
      rewrite bool_decide_eq_false_2 by (by intros [? [=]]). simpl.
      destruct (ensure_thread_task _ _ c); by eexists.
  - destruct (inherited (d_conversation_id (data sse)));
      [split; [done|by eexists]|].
    rewrite (complete_without_target empty_conversation _ _ _
               (Hid _ eq_refl)).
    rewrite bool_decide_eq_false_2 by (by intros [? [=]]). simpl. split.
    + intros [[? [=]]|Hk]. unfold ordinary in Hk. by rewrite Hk.
    + intros _ Hi. rewrite Hi. simpl.
      destruct (ensure_thread_task _ _ _); by eexists.
Qed.

(** A completion that finds nothing to complete only creates the
    path: when the addressed task holds no item of the event's item
    id, or the item found has no [content] property, a
    reasoning-completed event does what [ensurePath] does, returning
    the store it returns with no item added and none changed, or
    throwing as it throws; unless there is no task and the task id is
    a name of Object.prototype, which [ensurePath] leaves without a
    task and the completion then throws on. *)
Theorem reasoning_completed_without_target (d : AgentConversationsStore)
    (sse : SSEData) :
  let a := data sse in
  let stored :=
    main_items d (d_conversation_id a) (d_thread_id a) (d_task_id a) in
  event sse = "reasoning_completed" ->
  no_item_with_id (d_item_id a) stored \/
  (exists i it, first_with_id (d_item_id a) stored i it /\
                hasContent it = false) ->
  (is_Some (task_at d (d_conversation_id a) (d_thread_id a) (d_task_id a))
   \/ ordinary (d_task_id a) ->
   processSSEEvent AGENT_SECTION_COMPONENT_TYPE d sse
   = ensurePath d (d_conversation_id a) (d_thread_id a) (d_task_id a)) /\
  (task_at d (d_conversation_id a) (d_thread_id a) (d_task_id a) = None ->
   inherited (d_task_id a) = true ->
   exists e, processSSEEvent AGENT_SECTION_COMPONENT_TYPE d sse = Throw e).
Proof.
  intros a stored. subst a stored. apply reasoning_completed_no_target.
Qed.
End NoTarget.

(* ===================================================================== *)
(** ** The further properties on the sample inputs *)

Section FurtherOnSamples.
Import Samples StreamSamples.
#[local] Existing Instance RefJSON.runtime.

Lemma ensurePath_idempotent_witness :
  ensurePath inbox "c1" "t1" "k0" = Ok inbox /\
  (d1 ← ensurePath inbox "c1" "t2" "k5"; ensurePath d1 "c1" "t2" "k5")
  = ensurePath inbox "c1" "t2" "k5".
Proof.
  split.
  - apply (proj1 (ensurePath_idempotent inbox "c1" "t1" "k0")).
    exists inbox_task. vm_compute. reflexivity.
  - exact (proj2 (ensurePath_idempotent inbox "c1" "t2" "k5")).
Defined.

Lemma ensurePath_creates_and_preserves_witness :
  (exists d',
      ensurePath inbox "c1" "t1" "k1" = Ok d' /\
      task_at d' "c1" "t1" "k0" = Some inbox_task /\
      task_at d' "c1" "t1" "k1" = Some empty_task /\
      task_at d' "c1" "t2" "k1" = task_at inbox "c1" "t2" "k1") /\
  (exists d',
      ensurePath inbox "c1" "t1" "constructor" = Ok d' /\
      task_at d' "c1" "t1" "constructor" = None) /\
  ensurePath inbox "c1" "constructor" "k1" = Throw TypeError.
Proof.
  split; [|split].
  - destruct (ensurePath_creates_and_preserves inbox "c1" "t1" "k1")
      as (Hall & Hret & _).
    destruct (proj2 Hret) as [d' Hd'].
    { split; right; vm_compute; reflexivity. }
    exists d'. split; [exact Hd'|].
    destruct (Hall d' Hd') as (Hkeep & Hnew & _ & Hother & _).
    split; [|split].
    + apply Hkeep. vm_compute. reflexivity.
    + apply Hnew; vm_compute; reflexivity.
    + apply Hother. discriminate.
  - destruct (ensurePath_creates_and_preserves inbox "c1" "t1" "constructor")
      as (Hall & Hret & _).
    destruct (proj2 Hret) as [d' Hd'].
    { split; right; vm_compute; reflexivity. }
    exists d'. split; [exact Hd'|].
    destruct (Hall d' Hd') as (_ & _ & Hnone & _).
    apply Hnone; vm_compute; reflexivity.
  - apply (proj2 (proj2 (ensurePath_creates_and_preserves inbox "c1"
                           "constructor" "k1"))).
    right. split; vm_compute; reflexivity.
Defined.

Lemma ensureSection_creates_and_preserves_witness :
  (exists c',
      ensureSection two_results_conversation "scheduled_task_result" "k3"
        = Ok c' /\
      conv_section_task c' "scheduled_task_result" "k3" = Some empty_task /\
      conv_section_task c' "scheduled_task_result" "k1"
        = Some {| items := [result_item "k1"] |} /\
      conv_section_task c' "scheduled_task_result" "k2"
        = conv_section_task two_results_conversation
            "scheduled_task_result" "k2") /\
  (exists c',
      ensureSection two_results_conversation "scheduled_task_result"
        "valueOf" = Ok c' /\
      conv_section_task c' "scheduled_task_result" "valueOf" = None) /\
  ensureSection two_results_conversation "constructor" "k3"
    = Throw TypeError.
Proof.
  split; [|split].
  - destruct (ensureSection_creates_and_preserves two_results_conversation
                "scheduled_task_result" "k3") as (Hall & Hret & _).
    destruct (proj2 Hret) as [c' Hc'].
    { right. vm_compute. reflexivity. }
    exists c'. split; [exact Hc'|].
    destruct (Hall c' Hc') as (Hnew & Hkeep & Hother & _).
    split; [|split].
    + rewrite Hnew. vm_compute. reflexivity.
    + apply Hkeep. vm_compute. reflexivity.
    + apply Hother. discriminate.
  - destruct (ensureSection_creates_and_preserves two_results_conversation
                "scheduled_task_result" "valueOf") as (Hall & Hret & _).
    destruct (proj2 Hret) as [c' Hc'].
    { right. vm_compute. reflexivity. }
    exists c'. split; [exact Hc'|].
    destruct (Hall c' Hc') as (Hnew & _).
    rewrite Hnew. vm_compute. reflexivity.
  - apply (proj1 (proj2 (proj2 (ensureSection_creates_and_preserves
                                  two_results_conversation "constructor"
                                  "k3"))));
      vm_compute; reflexivity.
Defined.

Lemma addOrUpdateItem_keeps_order_witness :
  exists task',
    addOrUpdateItem {| items := [other_item; chunk_a] |} chunk_b Append
      = Ok task' /\
    item_ids task' = ["m0"; "m1"] /\
    items task' !! 0%nat = Some other_item.
Proof.
  destruct (addOrUpdateItem_keeps_order
              {| items := [other_item; chunk_a] |} chunk_b Append)
    as [Hall Hret].
  destruct Hret as [task' Htask'].
  { right. right. exists "lo". split; [reflexivity|].
    intros old Hold _.
    repeat (apply elem_of_cons in Hold as [->|Hold];
            [eexists; reflexivity|]).
    by apply elem_of_nil in Hold. }
  exists task'. split; [exact Htask'|].
  destruct (Hall task' Htask') as [Hids Hother].
  split; [exact Hids|].
  apply Hother; [reflexivity|discriminate].
Defined.

Lemma addOrUpdateItem_replace_last_wins_witness :
  item_id chunk_a = item_id chunk_b /\
  exists task1,
    addOrUpdateItem {| items := [other_item] |} chunk_a Append = Ok task1 /\
    addOrUpdateItem task1 chunk_b Replace
    = addOrUpdateItem {| items := [other_item] |} chunk_b Replace.
Proof.
  split; [reflexivity|].
  destruct (addOrUpdateItem_replace_last_wins {| items := [other_item] |}
              chunk_a chunk_b Append eq_refl) as (Hall & _ & _).
  exists {| items := [other_item; chunk_a] |}.
  assert (addOrUpdateItem {| items := [other_item] |} chunk_a Append
          = Ok {| items := [other_item; chunk_a] |}) as Hfirst
    by (vm_compute; reflexivity).
  split; [exact Hfirst|]. exact (Hall _ Hfirst).
Defined.

Lemma addOrUpdateItem_append_chunks_witness :
  item_id chunk_a = item_id chunk_b /\
  payload_content chunk_a = Some "Hel" /\
  payload_content chunk_b = Some "lo" /\
  (task1 ← addOrUpdateItem {| items := [other_item] |} chunk_a Append;
   addOrUpdateItem task1 chunk_b Append)
  = addOrUpdateItem {| items := [other_item] |}
      (set_content chunk_a ("Hel" +:+ "lo")) Append.
Proof.
  split; [reflexivity|]. split; [reflexivity|]. split; [reflexivity|].
  exact (addOrUpdateItem_append_chunks {| items := [other_item] |}
           chunk_a chunk_b "Hel" "lo" eq_refl eq_refl eq_refl).
Defined.

Lemma reachable_items_at_their_address_witness :
  reachable section_types inbox /\
  conversation_id inbox_item = "c1" /\ thread_id inbox_item = "t1" /\
  task_id inbox_item = "k0".
Proof.
  split; [exact inbox_reachable|].
  refine (proj1 (reachable_items_at_their_address section_types inbox
                   inbox_reachable)
            "c1" inbox_conversation "t1" inbox_thread "k0" inbox_task
            inbox_item eq_refl eq_refl _ _).
  - apply obj_get_Some_elem. reflexivity.
  - apply (list_elem_of_lookup_2 _ 0%nat). reflexivity.
Defined.

Lemma planned_reachable : reachable section_types planned.
Proof.
  exact (reachable_replay _ _ _ _ (reachable_empty _) planned_returned).
Qed.

Lemma reachable_ids_unique_witness :
  reachable section_types planned /\
  NoDup (tasks planned_main_thread).*1 /\
  NoDup (item_ids planned_task).
Proof.
  split; [exact planned_reachable|].
  destruct (proj1 (reachable_ids_unique section_types planned
                     planned_reachable "c1" planned_conversation eq_refl)
              "t1" planned_main_thread eq_refl) as [Hkeys Hitems].
  split; [exact Hkeys|].
  apply (Hitems "k1"). apply obj_get_Some_elem. reflexivity.
Defined.

Lemma processSSEEvent_touches_one_task_witness :
  (exists d',
      processSSEEvent section_types inbox plan_started = Ok d' /\
      d' !! "c2" = inbox !! "c2" /\
      task_at d' "c1" "t1" "k0" = task_at inbox "c1" "t1" "k0") /\
  (exists d',
      processSSEEvent section_types two_results plan_started = Ok d' /\
      section_task_at d' "c1" "scheduled_task_result" "k2"
      = section_task_at two_results "c1" "scheduled_task_result" "k2").
Proof.
  split.
  - assert (exists d',
               processSSEEvent section_types inbox plan_started = Ok d')
      as [d' Hd'] by (eexists; vm_compute; reflexivity).
    exists d'. split; [exact Hd'|].
    destruct (processSSEEvent_touches_one_task section_types inbox
                plan_started d' Hd') as (Hconv & Htask & _).
    split; [apply Hconv|apply Htask]; discriminate.
  - assert (exists d',
               processSSEEvent section_types two_results plan_started
               = Ok d')
      as [d' Hd'] by (eexists; vm_compute; reflexivity).
    exists d'. split; [exact Hd'|].
    destruct (processSSEEvent_touches_one_task section_types two_results
                plan_started d' Hd') as (_ & _ & Hsection).
    apply Hsection. discriminate.
Defined.

Lemma recognized_event_creates_its_path_witness :
  (exists d',
      processSSEEvent section_types ∅ result_event = Ok d' /\
      is_Some (task_at d' "c1" "t1" "k1")) /\
  (exists e,
      processSSEEvent section_types inbox prototype_thread_message
      = Throw e) /\
  processSSEEvent section_types ∅ heartbeat = Ok ∅.
Proof.
  split; [|split].
  - assert (exists d',
               processSSEEvent section_types ∅ result_event = Ok d')
      as [d' Hd'] by (eexists; vm_compute; reflexivity).
    exists d'. split; [exact Hd'|].
    destruct (proj1 (recognized_event_creates_its_path section_types ∅
                       result_event)
                ltac:(apply elem_of_computed; reflexivity) d' Hd')
      as (_ & _ & Htask).
    apply Htask. right. vm_compute. reflexivity.
  - apply (proj1 (proj2 (recognized_event_creates_its_path section_types
                           inbox prototype_thread_message))).
    + apply elem_of_computed. reflexivity.
    + right. split; vm_compute; reflexivity.
  - apply (proj2 (proj2 (recognized_event_creates_its_path section_types ∅
                           heartbeat))).
    apply not_elem_of_computed. reflexivity.
Defined.

Lemma updates_only_grow_witness :
  (exists s',
      updateAgentConversationsStore section_types inbox plan_started
        = Ok s' /\
      grows inbox s') /\
  (exists s',
      batchUpdateAgentConversationsStore section_types inbox "c1"
        [plan_started; plan_completed] false = Ok s' /\
      grows inbox s').
Proof.
  split.
  - assert (exists s',
               updateAgentConversationsStore section_types inbox
                 plan_started = Ok s')
      as [s' Hs'] by (eexists; vm_compute; reflexivity).
    exists s'. split; [exact Hs'|].
    exact (proj1 (updates_only_grow section_types inbox) plan_started s'
             Hs').
  - assert (exists s',
               batchUpdateAgentConversationsStore section_types inbox "c1"
                 [plan_started; plan_completed] false = Ok s')
      as [s' Hs'] by (eexists; vm_compute; reflexivity).
    exists s'. split; [exact Hs'|].
    exact (proj2 (updates_only_grow section_types inbox) "c1"
             [plan_started; plan_completed] s' Hs').
Defined.

Lemma batch_elsewhere_witness :
  (exists s' r,
      batchUpdateAgentConversationsStore section_types inbox "c1"
        [elsewhere] true = Ok s' /\
      replay section_types inbox [elsewhere] = Ok r /\
      s' !! "c2" = r !! "c2") /\
  (exists s',
      batchUpdateAgentConversationsStore section_types inbox "c2"
        [elsewhere] true = Ok s' /\
      s' !! "c1" = inbox !! "c1").
Proof.
  split.
  - assert (exists s',
               batchUpdateAgentConversationsStore section_types inbox "c1"
                 [elsewhere] true = Ok s')
      as [s' Hs'] by (eexists; vm_compute; reflexivity).
    assert (exists r, replay section_types inbox [elsewhere] = Ok r)
      as [r Hr] by (eexists; vm_compute; reflexivity).
    exists s', r. split; [exact Hs'|]. split; [exact Hr|].
    apply (proj1 (batch_elsewhere section_types inbox "c1" [elsewhere]
                    true s' Hs') "c2" r); [discriminate|exact Hr].
  - assert (exists s',
               batchUpdateAgentConversationsStore section_types inbox "c2"
                 [elsewhere] true = Ok s')
      as [s' Hs'] by (eexists; vm_compute; reflexivity).
    exists s'. split; [exact Hs'|].
    apply (proj2 (proj2 (batch_elsewhere section_types inbox "c2"
                           [elsewhere] true s' Hs'))).
    + intros e He. apply list_elem_of_singleton in He. rewrite He.
      reflexivity.
    + discriminate.
Defined.

Lemma inbox_path_resolves (kid : string) :
  inherited kid = false -> path_resolves inbox "c1" "t1" kid.
Proof.
  intros Hkid. split; [|split].
  - right. reflexivity.
  - right. reflexivity.
  - right. exact Hkid.
Defined.

Lemma markdown_stream_concatenates_witness :
  exists d',
    replay section_types inbox (hello_first :: hello_rest) = Ok d' /\
    main_items d' "c1" "t1" "k0"
    = main_items inbox "c1" "t1" "k0"
        ++ [set_content (item_of_data (Some "markdown") (data hello_first))
              (joined "Hel" ["lo"; "!"])].
Proof.
  destruct (markdown_stream_concatenates section_types inbox hello_first
              "Hel" hello_rest ["lo"; "!"]) as [Hall Hret].
  - apply not_elem_of_computed. reflexivity.
  - apply elem_of_computed. reflexivity.
  - reflexivity.
  - repeat constructor; apply elem_of_computed; reflexivity.
  - apply no_item_with_id_find. vm_compute. reflexivity.
  - destruct (Hret (inbox_path_resolves "k0" eq_refl)) as [d' Hd'].
    exists d'. split; [exact Hd'|]. exact (Hall d' Hd').
Defined.

Lemma reasoning_round_trips_computed (s : string) :
  s ∈ ["foo"; "bar"] ++ partial_texts "" ["foo"; "bar"] ->
  round_trips (JObj (thought_record s false)).
Proof.
  cbn [partial_texts app String.append]. intros Hs.
  repeat (apply elem_of_cons in Hs as [->|Hs]; [vm_compute; reflexivity|]).
  by apply elem_of_nil in Hs.
Defined.

Lemma reasoning_stream_completes_witness :
  exists d',
    replay section_types ∅
      (thought_started :: thought_chunks ++ [reasoning_done]) = Ok d' /\
    main_items d' "c1" "t1" "k1"
    = main_items ∅ "c1" "t1" "k1"
        ++ [with_payload
              (item_of_data (Some "reasoning") (data thought_started))
              (content_payload
                 (thought_record (joined "" ["foo"; "bar"]) true))].
Proof.
  destruct (reasoning_stream_completes section_types ∅ thought_started
              thought_chunks ["foo"; "bar"] reasoning_done)
    as [Hall Hret].
  - apply not_elem_of_computed. reflexivity.
  - reflexivity.
  - repeat constructor.
  - reflexivity.
  - repeat constructor.
  - exact reasoning_round_trips_computed.
  - apply no_item_with_id_find. vm_compute. reflexivity.
  - destruct Hret as [d' Hd'].
    { split; [|split]; right; reflexivity. }
    exists d'. split; [exact Hd'|]. exact (Hall d' Hd').
Defined.

Lemma template_applies_iff_planning_context_witness :
  shouldApplyAnalysisStepTemplate planned_thread
    (Some (JStr "fetch_ashare_filings")) = true /\
  getToolStepOrderInThread empty_thread "i1" (Some (JStr "web_search"))
    = 0%Z.
Proof.
  split.
  - apply (proj1 (template_applies_iff_planning_context planned_thread "i2"
                    (Some (JStr "fetch_ashare_filings")))).
    right. vm_compute. discriminate.
  - apply (proj1 (proj2 (template_applies_iff_planning_context empty_thread
                           "i1" (Some (JStr "web_search"))))).
    reflexivity.
Defined.

Lemma plannedStepLabel_spec_witness :
  plannedStepLabel empty_thread (data filings_started) = Ok None /\
  exists label,
    plannedStepLabel planned_thread (data filings_started) = Ok label /\
    is_Some label /\
    forall l, label = Some l -> l <> "".
Proof.
  split.
  - destruct (plannedStepLabel_spec empty_thread (data filings_started))
      as [Hall Hret].
    destruct Hret as [label Hlabel].
    { constructor. }
    { intros title Htitle. discriminate Htitle. }
    destruct (Hall label Hlabel) as (Hnone & _).
    rewrite Hlabel. f_equal. apply Hnone. reflexivity.
  - destruct (plannedStepLabel_spec planned_thread (data filings_started))
      as [Hall Hret].
    destruct Hret as [label Hlabel].
    { vm_compute. constructor; [eexists; reflexivity|constructor]. }
    { intros title Htitle. discriminate Htitle. }
    exists label. split; [exact Hlabel|].
    destruct (Hall label Hlabel) as (_ & Hsome & Hne & _).
    split; [|exact Hne].
    apply Hsome; vm_compute; reflexivity.
Defined.

Lemma plan_event_anchors_the_thread_witness :
  exists d',
    processSSEEvent section_types inbox plan_started = Ok d' /\
    (exists stored,
        stored ∈ main_items d' "c1" "t1" "k1" /\
        item_id stored = "i1" /\ isPlanningAnchorTool stored = true) /\
    getPlanningToolItems (tool_call_thread d' (data filings_started))
      <> [] /\
    shouldApplyAnalysisStepTemplate
      (tool_call_thread d' (data filings_started))
      (Some (JStr "fetch_ashare_filings")) = true.
Proof.
  destruct (plan_event_anchors_the_thread section_types inbox plan_started)
    as (Hall & Hret).
  - apply not_elem_of_computed. reflexivity.
  - apply elem_of_computed. reflexivity.
  - reflexivity.
  - intros label Hlabel. vm_compute in Hlabel.
    injection Hlabel as <-. vm_compute. reflexivity.
  - destruct Hret as [d' Hd'].
    { exact (inbox_path_resolves "k1" eq_refl). }
    { eexists. vm_compute. reflexivity. }
    exists d'. split; [exact Hd'|].
    destruct (Hall d' Hd') as [Hstored Hlater].
    split; [exact Hstored|].
    destruct (Hlater (data filings_started) eq_refl eq_refl)
      as [Hrun Happlies].
    split; [exact Hrun|].
    exact (Happlies (Some (JStr "fetch_ashare_filings"))).
Defined.

Lemma batch_completes_open_reasoning_witness :
  exists s',
    batchUpdateAgentConversationsStore section_types thinking "c1"
      (thought_started :: thought_chunks) true = Ok s' /\
    main_items s' "c1" "t1" "k1"
    = [with_payload
         (item_of_data (Some "reasoning") (data thought_started))
         (content_payload (thought_record (joined "" ["foo"; "bar"]) true))].
Proof.
  destruct (batch_completes_open_reasoning section_types thinking
              thought_started thought_chunks ["foo"; "bar"])
    as [Hall Hret].
  - apply not_elem_of_computed. reflexivity.
  - reflexivity.
  - repeat constructor.
  - exact reasoning_round_trips_computed.
  - destruct (Hret eq_refl eq_refl eq_refl) as [s' Hs'].
    exists s'. split; [exact Hs'|]. exact (Hall s' Hs').
Defined.

Lemma bare_message_returned :
  exists d, processSSEEvent section_types inbox bare_message = Ok d /\
    first_with_id "m2" (main_items d "c1" "t1" "k0") 1
      (item_of_data (Some "markdown") (data bare_message)) /\
    is_Some (task_at d "c1" "t1" "k0").
Proof.
  eexists. split; [vm_compute; reflexivity|]. split.
  - apply first_with_id_find. vm_compute. reflexivity.
  - eexists. vm_compute. reflexivity.
Qed.

Lemma reasoning_completed_without_target_witness :
  processSSEEvent section_types inbox reasoning_done
    = ensurePath inbox "c1" "t1" "k1" /\
  (exists d,
      processSSEEvent section_types inbox bare_message = Ok d /\
      processSSEEvent section_types d bare_done
      = ensurePath d "c1" "t1" "k0") /\
  exists e,
    processSSEEvent section_types inbox prototype_task_done = Throw e.
Proof.
  split; [|split].
  - apply (reasoning_completed_without_target section_types inbox
             reasoning_done eq_refl).
    + left. apply no_item_with_id_find. vm_compute. reflexivity.
    + right. reflexivity.
  - destruct bare_message_returned as (d & Hd & Hfirst & Htask).
    exists d. split; [exact Hd|].
    apply (reasoning_completed_without_target section_types d bare_done
             eq_refl).
    + right.
      exists 1%nat, (item_of_data (Some "markdown") (data bare_message)).
      split; [exact Hfirst|reflexivity].
    + left. exact Htask.
  - apply (reasoning_completed_without_target section_types inbox
             prototype_task_done eq_refl).
    + left. apply no_item_with_id_find. vm_compute. reflexivity.
    + vm_compute. reflexivity.
    + reflexivity.
Defined.
End FurtherOnSamples.
